(** * vinyl-scraper: the listing reconciliation engine

    A shallow embedding of the TypeScript sources

      - [src/utils/stringNormalizer]  ([normalizeString], [createUniqueKey]),
      - [src/services/database/DatabaseService],
      - [src/services/discogs/DiscogsService],
      - [src/services/telegram/TelegramBot] (at the level of its public calls),
      - [src/index.ts]  ([isRelevantListing], [scrapeVinyl]),

    followed by the properties of the engine.

    Modelling conventions.
      - A JavaScript string is a [string]; one [ascii] is one UTF-16 code unit
        in the Latin-1 range U+0000..U+00FF.  [trim], [toLowerCase], the
        regular expression class [\s], UTF-8 encoding and base64 are given
        exactly as JavaScript defines them on that range.
      - A price is an integer-valued JavaScript number, a [Z].
      - [new Date()] and the marketplace are oracles, indexed by the number
        of reads made so far; [randomUUID] draws are parameters.
      - Queries on the SQLite file and calls of the Telegram API are taken to
        succeed, but for an insert that the schema of [vinyl_listings]
        rejects; that insert and a search of the marketplace are the calls
        that can throw.  Logging through winston is left out. *)

From Stdlib Require Import String Ascii List Bool ZArith NArith Lia.
From Stdlib Require Import Numbers.DecimalString.
Import ListNotations.

Local Open Scope string_scope.
Local Open Scope bool_scope.

(* ================================================================== *)
(** ** JavaScript string primitives *)

Module JS.

(** [\s] and the characters [String.prototype.trim] strips: TAB, LF, VT, FF,
    CR, SPACE and NBSP are the ones below U+0100. *)
Definition is_space (c : ascii) : bool :=
  let n := N_of_ascii c in
  ((9 <=? n) && (n <=? 13) || (n =? 32) || (n =? 160))%N.

(** One code unit of [String.prototype.toLowerCase]: A-Z, and the Latin-1
    capitals U+00C0..U+00DE except the multiplication sign U+00D7. *)
Definition lower (c : ascii) : ascii :=
  let n := N_of_ascii c in
  if ((65 <=? n) && (n <=? 90)
      || (192 <=? n) && (n <=? 214)
      || (216 <=? n) && (n <=? 222))%N
  then ascii_of_N (n + 32) else c.

Fixpoint toLowerCase (s : string) : string :=
  match s with
  | EmptyString => EmptyString
  | String c r => String (lower c) (toLowerCase r)
  end.

Fixpoint trimStart (s : string) : string :=
  match s with
  | EmptyString => EmptyString
  | String c r => if is_space c then trimStart r else s
  end.

Definition is_empty (s : string) : bool :=
  match s with EmptyString => true | _ => false end.

Fixpoint trimEnd (s : string) : string :=
  match s with
  | EmptyString => EmptyString
  | String c r =>
      let r' := trimEnd r in
      if is_space c && is_empty r' then EmptyString else String c r'
  end.

Definition trim (s : string) : string := trimEnd (trimStart s).

(** [s.replace(/\s+/g, ' ')]: every maximal run of [\s] becomes one space.
    [in_run] tells that the previous character belonged to a run whose
    replacement has been emitted already. *)
Fixpoint replace_runs (in_run : bool) (s : string) : string :=
  match s with
  | EmptyString => EmptyString
  | String c r =>
      if is_space c
      then (if in_run then replace_runs true r
            else String " " (replace_runs true r))
      else String c (replace_runs false r)
  end.

Definition replace_ws_runs (s : string) : string := replace_runs false s.

(** [s.startsWith(p)] *)
Fixpoint startsWith (s p : string) : bool :=
  match p, s with
  | EmptyString, _ => true
  | String _ _, EmptyString => false
  | String a p', String b s' => Ascii.eqb a b && startsWith s' p'
  end.

(** [s.includes(sub)] *)
Fixpoint includes (s sub : string) : bool :=
  startsWith s sub ||
  match s with
  | EmptyString => false
  | String _ r => includes r sub
  end.

(** Template-literal rendering of an integer-valued number. *)
Definition number_to_string (z : Z) : string :=
  NilZero.string_of_int (Z.to_int z).

End JS.

(* ================================================================== *)
(** ** Node's [Buffer.from(str)] and [buf.toString('base64')] *)

Module Buffer.

Definition byte := ascii.

(** UTF-8 of one code unit below U+0100: one byte below U+0080, else the
    two bytes [110000xx 10xxxxxx]. *)
Definition utf8_unit (c : ascii) : list byte :=
  let n := N_of_ascii c in
  if (n <? 128)%N then [c]
  else [ascii_of_N (192 + n / 64); ascii_of_N (128 + n mod 64)].

Fixpoint from (s : string) : list byte :=
  match s with
  | EmptyString => []
  | String c r => utf8_unit c ++ from r
  end.

Definition alphabet : string :=
  "ABCDEFGHIJKLMNOPQRSTUVWXYZabcdefghijklmnopqrstuvwxyz0123456789+/".

Definition pad : ascii := "="%char.

(** The alphabet character of a sextet, given most significant bit first. *)
Definition sextet_char (b5 b4 b3 b2 b1 b0 : bool) : ascii :=
  match String.get (N.to_nat (N_of_digits [b0; b1; b2; b3; b4; b5])) alphabet with
  | Some c => c
  | None => pad
  end.

(** The four sextets of a group of three bytes [a b c]. *)
Definition enc1 (a : byte) : ascii :=
  let '(Ascii _ _ a2 a3 a4 a5 a6 a7) := a in sextet_char a7 a6 a5 a4 a3 a2.

Definition enc2 (a b : byte) : ascii :=
  let '(Ascii a0 a1 _ _ _ _ _ _) := a in
  let '(Ascii _ _ _ _ b4 b5 b6 b7) := b in sextet_char a1 a0 b7 b6 b5 b4.

Definition enc3 (b c : byte) : ascii :=
  let '(Ascii b0 b1 b2 b3 _ _ _ _) := b in
  let '(Ascii _ _ _ _ _ _ c6 c7) := c in sextet_char b3 b2 b1 b0 c7 c6.

Definition enc4 (c : byte) : ascii :=
  let '(Ascii c0 c1 c2 c3 c4 c5 _ _) := c in sextet_char c5 c4 c3 c2 c1 c0.

Fixpoint toString_base64 (bs : list byte) : string :=
  match bs with
  | [] => EmptyString
  | [a] =>
      String (enc1 a) (String (enc2 a zero) (String pad (String pad EmptyString)))
  | [a; b] =>
      String (enc1 a) (String (enc2 a b) (String (enc3 b zero) (String pad EmptyString)))
  | a :: b :: c :: rest =>
      String (enc1 a) (String (enc2 a b) (String (enc3 b c) (String (enc4 c)
        (toString_base64 rest))))
  end.

End Buffer.

(* ================================================================== *)
(** ** src/utils/stringNormalizer *)

Definition normalizeString (str : string) : string :=
  JS.replace_ws_runs (JS.toLowerCase (JS.trim str)).


(** The string that [createUniqueKey] encodes. *)
Definition normalizedData (seller : string) (price : Z) (title : string) : string :=
  normalizeString seller ++ "-" ++ JS.number_to_string price ++ "-"
    ++ normalizeString title.

Definition createUniqueKey (seller : string) (price : Z) (title : string) : string :=
  Buffer.toString_base64 (Buffer.from (normalizedData seller price title)).

(* ================================================================== *)
(** ** src/models *)

(** A [Date], in milliseconds. *)
Definition Time := Z.

Module VinylListing.
Record t := mk {
  id : string;
  title : string;
  titleDisplay : string;
  artist : string;
  artistDisplay : string;
  price : Z;
  currency : string;
  condition : string;
  shippingFee : option Z;
  seller : string;
  sellerDisplay : string;
  url : string;
  source : string;
  dateFound : Time;
  lastSeen : Time;
  isShipsToIsrael : bool;
  uniqueKey : string;
  isActive : bool
}.
End VinylListing.

Module PriceHistory.
Record t := mk {
  listingId : string;
  price : Z;
  dateRecorded : Time
}.
End PriceHistory.

Inductive PreferenceType := Artist | Genre | Album.

Definition PreferenceType_eqb (a b : PreferenceType) : bool :=
  match a, b with
  | Artist, Artist | Genre, Genre | Album, Album => true
  | _, _ => false
  end.

Module UserPreferenceRecord.
Record t := mk {
  type : PreferenceType;
  value : string;
  createdAt : Time
}.
End UserPreferenceRecord.

(** [UserPreferences] of the configuration file. *)
Module UserPreferences.
Record t := mk {
  artists : list string;
  genres : list string;
  albums : list string
}.
End UserPreferences.

(* ================================================================== *)
(** ** src/services/discogs/DiscogsService *)

Module DiscogsService.

(** [a || b] on possibly undefined strings: [undefined] and the empty string
    are falsy. *)
Definition or_else (a : option string) (b : string) : string :=
  match a with
  | Some s => if JS.is_empty s then b else s
  | None => b
  end.

(** [names.join(', ')] *)
Fixpoint join (sep : string) (l : list string) : string :=
  match l with
  | [] => EmptyString
  | [x] => x
  | x :: r => x ++ sep ++ join sep r
  end.

Record DiscogsSearchResult := mkSearchResult {
  result_id : Z;
  result_title : string
}.

(** The fields of [DiscogsMarketplaceListing] that the service reads;
    [price_value] and [seller_username] are [None] when the [price] or the
    [seller] object is missing. *)
Record DiscogsMarketplaceListing := mkMarketplaceListing {
  uri : string;
  condition : option string;
  price_currency : string;
  price_value : option Z;
  shipping_price_value : option Z;
  seller_username : option string;
  ships_to : option (list string);
  release_title : string;
  release_artists : list string
}.

(** The fields of a [/releases/:id] answer that the service reads. *)
Record ReleaseData := mkReleaseData {
  release_id : Z;
  title : string;
  artists_sort : option string;
  artists : list string;
  year : option Z
}.

(** What [randomUUID()] and the two evaluations of [new Date()], the one
    for [dateFound] and the one for [lastSeen], give while one listing is
    built. *)
Record Stamp := mkStamp {
  uuid : string;
  found_at : Time;
  seen_at : Time
}.

(** The random draws of one iteration of [createRealisticListings], after
    the floating-point price arithmetic. *)
Record Draw := mkDraw {
  finalPrice : Z;
  drawn_condition : string;
  sellerNumber : Z;
  shipping : Z;
  stamp : Stamp
}.

Definition shipsToIsrael (listing : DiscogsMarketplaceListing) : bool :=
  match ships_to listing with
  | None => true
  | Some [] => true
  | Some shipsTo =>
      existsb (fun country =>
                 let countryLower := JS.toLowerCase country in
                 JS.includes countryLower "israel" ||
                 JS.includes countryLower "worldwide" ||
                 JS.includes countryLower "international" ||
                 JS.includes countryLower "everywhere" ||
                 JS.includes countryLower "global" ||
                 JS.includes countryLower "all countries" ||
                 JS.includes countryLower "world wide")
              shipsTo
  end.

Definition truthy_string (s : option string) : bool :=
  match s with Some s => negb (JS.is_empty s) | None => false end.

Definition present {A} (x : option A) : bool :=
  match x with Some _ => true | None => false end.

Definition isValidListing (listing : DiscogsMarketplaceListing) : bool :=
  if negb (present (price_value listing))
     || negb (present (seller_username listing))
     || negb (truthy_string (condition listing))
  then false
  else shipsToIsrael listing.

Definition convertToVinylListing (listing : DiscogsMarketplaceListing)
    (st : Stamp) : VinylListing.t :=
  let artistName := join ", " (release_artists listing) in
  let title := release_title listing in
  let price := match price_value listing with Some v => v | None => 0%Z end in
  let seller := match seller_username listing with Some u => u | None => EmptyString end in
  let normalizedArtist := normalizeString artistName in
  let normalizedTitle := normalizeString title in
  let normalizedSeller := normalizeString seller in
  let uniqueKey := createUniqueKey seller price title in
  let url := "https://www.discogs.com" ++ uri listing in
  VinylListing.mk (uuid st) normalizedTitle title normalizedArtist artistName
    price (price_currency listing) (or_else (condition listing) EmptyString)
    (shipping_price_value listing) normalizedSeller seller url "discogs"
    (found_at st) (seen_at st) true uniqueKey true.

Definition popularArtists : list string :=
  ["pink floyd"; "the beatles"; "led zeppelin"; "the rolling stones";
   "david bowie"; "the doors"; "jimi hendrix"; "bob dylan";
   "radiohead"; "nirvana"; "the who"; "queen"; "ac/dc"].

Definition isPopularRelease (releaseData : ReleaseData) : bool :=
  let title := JS.toLowerCase (title releaseData) in
  let artistName :=
    match artists releaseData with
    | name :: _ => JS.toLowerCase name
    | [] => EmptyString
    end in
  let isPopularArtist :=
    existsb (fun artist => JS.includes artistName artist || JS.includes title artist)
            popularArtists in
  let releaseYear := match year releaseData with Some y => y | None => 0%Z end in
  let isVintage := ((0 <? releaseYear) && (releaseYear <? 2000))%Z in
  isPopularArtist || isVintage.

(** One iteration of the loop of [createRealisticListings]. *)
Definition realisticListing (releaseData : ReleaseData) (d : Draw) : VinylListing.t :=
  let artistName :=
    or_else (artists_sort releaseData)
      (or_else (hd_error (artists releaseData)) "Unknown Artist") in
  let albumTitle := title releaseData in
  let seller := "VinylCollector" ++ JS.number_to_string (sellerNumber d) in
  let normalizedArtist := normalizeString artistName in
  let normalizedTitle := normalizeString albumTitle in
  let normalizedSeller := normalizeString seller in
  let uniqueKey := createUniqueKey seller (finalPrice d) albumTitle in
  let url := "https://www.discogs.com/release/"
               ++ JS.number_to_string (release_id releaseData) in
  VinylListing.mk (uuid (stamp d)) normalizedTitle albumTitle normalizedArtist
    artistName (finalPrice d) "USD" (drawn_condition d) (Some (shipping d))
    normalizedSeller seller url "discogs" (found_at (stamp d)) (seen_at (stamp d))
    true uniqueKey true.

Definition createRealisticListings (releaseData : ReleaseData) (count : nat)
    (draws : nat -> Draw) : list VinylListing.t :=
  map (fun i => realisticListing releaseData (draws i)) (seq 0 count).

(** What the network answers to the requests of [getListingsAlternative]:
    the release ([None] when the request throws), the [in_marketplace]
    statistic ([None] when that request throws) and the random draws. *)
Record Alternative := mkAlternative {
  alt_release : option ReleaseData;
  alt_in_marketplace : option Z;
  alt_draws : nat -> Draw
}.

Definition getListingsAlternative (a : Alternative) : list VinylListing.t :=
  match alt_release a with
  | None => []
  | Some releaseData =>
      let '(hasMarketplaceListings, marketplaceCount) :=
        match alt_in_marketplace a with
        | Some n => if (0 <? n)%Z then (true, Z.to_nat (Z.min n 3)) else (false, 1%nat)
        | None => (false, 1%nat)
        end in
      if hasMarketplaceListings || isPopularRelease releaseData
      then createRealisticListings releaseData marketplaceCount (alt_draws a)
      else []
  end.

(** What the network answers to [/marketplace/listings]. *)
Inductive MarketplaceResponse :=
| Listings (data_listings : option (list (DiscogsMarketplaceListing * Stamp)))
| Error405 (alternative : Alternative)
| OtherError.

Definition getMarketplaceListings (r : MarketplaceResponse) : list VinylListing.t :=
  match r with
  | Listings None => []
  | Listings (Some listings) =>
      map (fun l => convertToVinylListing (fst l) (snd l))
          (filter (fun l => isValidListing (fst l)) listings)
  | Error405 a => getListingsAlternative a
  | OtherError => []
  end.

(** The network, as seen by the [n]-th call of [searchForArtist]:
    [searchReleases n query] is [None] when [makeRequest] throws after its
    retries; [marketplace n i releaseId] answers the request made for the
    [i]-th release of the slice. *)
Record Network := mkNetwork {
  searchReleases : nat -> string -> option (list DiscogsSearchResult);
  marketplace : nat -> nat -> Z -> MarketplaceResponse
}.

Fixpoint collectListings (net : Network) (n i : nat)
    (releases : list DiscogsSearchResult) : list VinylListing.t :=
  match releases with
  | [] => []
  | release :: rest =>
      getMarketplaceListings (marketplace net n i (result_id release))
        ++ collectListings net n (S i) rest
  end.

(** [searchForArtist]: [getMarketplaceListings] catches its own errors, so
    the inner [try] never fires; an error of [searchReleases] is caught by
    the outer one and answered by [[]]. *)
Definition searchForArtist (net : Network) (n : nat) (artistName : string)
    : list VinylListing.t :=
  match searchReleases net n artistName with
  | Some releases => collectListings net n 0 (firstn 5 releases)
  | None => []
  end.

(** The listings the service can build. *)
Inductive client_listing : VinylListing.t -> Prop :=
| client_marketplace : forall listing st,
    isValidListing listing = true ->
    client_listing (convertToVinylListing listing st)
| client_realistic : forall releaseData d,
    client_listing (realisticListing releaseData d).

End DiscogsService.

(* ================================================================== *)
(** ** The persisted tables (schema of [DatabaseService.createTables]) *)

(** A row of [vinyl_listings]. *)
Module ListingRow.
Record t := mk {
  id : string;
  title : string;
  title_display : string;
  artist : string;
  artist_display : string;
  price : Z;
  currency : string;
  condition : string;
  shipping_fee : option Z;
  seller : string;
  seller_display : string;
  url : string;
  source : string;
  date_found : Time;
  last_seen : Time;
  ships_to_israel : bool;
  unique_key : string;
  is_active : bool
}.

(** [.update({ last_seen: ..., is_active: true })] on one row. *)
Definition seen (now : Time) (r : t) : t :=
  mk (id r) (title r) (title_display r) (artist r) (artist_display r)
     (price r) (currency r) (condition r) (shipping_fee r) (seller r)
     (seller_display r) (url r) (source r) (date_found r)
     now (ships_to_israel r) (unique_key r) true.
End ListingRow.

(** A row of [price_history]; the auto-incremented [id] is left to the
    database. *)
Module PriceRow.
Record t := mk {
  listing_id : string;
  price : Z;
  date_recorded : Time
}.
End PriceRow.

(** A row of [user_preferences]; the auto-incremented [id] is left to the
    database. *)
Module PreferenceRow.
Record t := mk {
  type : PreferenceType;
  value : string;
  created_at : Time
}.
End PreferenceRow.

Record Database := mkDatabase {
  vinyl_listings : list ListingRow.t;
  price_history : list PriceRow.t;
  user_preferences : list PreferenceRow.t
}.

(* ================================================================== *)
(** ** The state of a run, and its monad *)

(** The calls made on [TelegramNotificationService]. *)
Inductive TelegramCall :=
| sendBatchNotification (listings : list VinylListing.t)
| sendErrorNotification (error source : string).

(** Which branch of the loop body of [scrapeVinyl] a listing took. *)
Inductive Outcome := Skipped | New | SeenAgain | PriceChanged.

Definition Outcome_eqb (a b : Outcome) : bool :=
  match a, b with
  | Skipped, Skipped | New, New | SeenAgain, SeenAgain
  | PriceChanged, PriceChanged => true
  | _, _ => false
  end.

(** [db] is the SQLite file, [telegram] and [searched] log the calls made on
    the two services, [date_reads] counts the evaluations of [new Date()],
    [newListings] is the local array of [scrapeVinyl].  [outcomes] is a ghost
    log of the branch every fetched listing took; no definition reads it. *)
Record State := mkState {
  db : Database;
  telegram : list TelegramCall;
  searched : list string;
  date_reads : nat;
  newListings : list VinylListing.t;
  outcomes : list (VinylListing.t * Outcome)
}.

Definition set_db (d : Database) (s : State) : State :=
  mkState d (telegram s) (searched s) (date_reads s) (newListings s) (outcomes s).

Definition set_telegram (t : list TelegramCall) (s : State) : State :=
  mkState (db s) t (searched s) (date_reads s) (newListings s) (outcomes s).

Definition set_searched (l : list string) (s : State) : State :=
  mkState (db s) (telegram s) l (date_reads s) (newListings s) (outcomes s).

Definition set_date_reads (n : nat) (s : State) : State :=
  mkState (db s) (telegram s) (searched s) n (newListings s) (outcomes s).

Definition set_newListings (l : list VinylListing.t) (s : State) : State :=
  mkState (db s) (telegram s) (searched s) (date_reads s) l (outcomes s).

Definition set_outcomes (l : list (VinylListing.t * Outcome)) (s : State) : State :=
  mkState (db s) (telegram s) (searched s) (date_reads s) (newListings s) l.

(** A computation either returns ([Some]) or throws ([None]); the state
    reached is kept in both cases. *)
Definition M (A : Type) : Type := State -> option A * State.

Definition ret {A} (a : A) : M A := fun s => (Some a, s).

Definition throw {A} : M A := fun s => (None, s).

Definition bind {A B} (m : M A) (k : A -> M B) : M B :=
  fun s =>
    match m s with
    | (Some a, s') => k a s'
    | (None, s') => (None, s')
    end.

(** [try { body } catch (error) { handler }] *)
Definition try_catch {A} (body handler : M A) : M A :=
  fun s =>
    match body s with
    | (Some a, s') => (Some a, s')
    | (None, s') => handler s'
    end.

Definition get : M State := fun s => (Some s, s).

Definition modify (f : State -> State) : M unit := fun s => (Some tt, f s).

Notation "x <- m ;; k" := (bind m (fun x => k))
  (at level 61, m at next level, right associativity).
Notation "m ;; k" := (bind m (fun _ => k))
  (at level 61, right associativity).

(** [for (const x of xs) { await body(x) }] *)
Fixpoint for_of {A} (xs : list A) (body : A -> M unit) : M unit :=
  match xs with
  | [] => ret tt
  | x :: rest => body x ;; for_of rest body
  end.

(** The final state of a computation. *)
Definition exec {A} (m : M A) (s : State) : State := snd (m s).

(** The oracles of a run: what the [n]-th [new Date()] evaluates to, and what
    the [n]-th call of [discogs.searchForArtist] answers for a term ([None]
    when the call throws). *)
Record Env := mkEnv {
  clock : nat -> Time;
  discogs : nat -> string -> option (list VinylListing.t)
}.

Section Services.

Variable E : Env.

(** [new Date()] *)
Definition new_Date : M Time :=
  fun s => (Some (clock E (date_reads s)), set_date_reads (S (date_reads s)) s).

(* ---------------------------------------------------------------- *)
(** *** DatabaseService *)

Definition row_of_listing (listing : VinylListing.t) : ListingRow.t :=
  ListingRow.mk
    (VinylListing.id listing)
    (VinylListing.title listing)
    (VinylListing.titleDisplay listing)
    (VinylListing.artist listing)
    (VinylListing.artistDisplay listing)
    (VinylListing.price listing)
    (VinylListing.currency listing)
    (VinylListing.condition listing)
    (VinylListing.shippingFee listing)
    (VinylListing.seller listing)
    (VinylListing.sellerDisplay listing)
    (VinylListing.url listing)
    (VinylListing.source listing)
    (VinylListing.dateFound listing)
    (VinylListing.lastSeen listing)
    (VinylListing.isShipsToIsrael listing)
    (VinylListing.uniqueKey listing)
    (VinylListing.isActive listing).

(** The object [getExistingListing] builds from a row; a zero shipping fee is
    falsy and reads back as [undefined]. *)
Definition listing_of_row (row : ListingRow.t) : VinylListing.t :=
  VinylListing.mk
    (ListingRow.id row)
    (ListingRow.title row)
    (ListingRow.title_display row)
    (ListingRow.artist row)
    (ListingRow.artist_display row)
    (ListingRow.price row)
    (ListingRow.currency row)
    (ListingRow.condition row)
    (match ListingRow.shipping_fee row with
     | Some fee => if (fee =? 0)%Z then None else Some fee
     | None => None
     end)
    (ListingRow.seller row)
    (ListingRow.seller_display row)
    (ListingRow.url row)
    (ListingRow.source row)
    (ListingRow.date_found row)
    (ListingRow.last_seen row)
    (ListingRow.ships_to_israel row)
    (ListingRow.unique_key row)
    (ListingRow.is_active row).

Definition has_key (uniqueKey : string) (row : ListingRow.t) : bool :=
  String.eqb (ListingRow.unique_key row) uniqueKey.

(** The two constraints of [vinyl_listings] that a row can break: [id] is
    the primary key and [unique_key] is unique.  Does [row] stand in the way
    of inserting [listing]? *)
Definition clashes (listing : VinylListing.t) (row : ListingRow.t) : bool :=
  String.eqb (ListingRow.id row) (VinylListing.id listing)
  || has_key (VinylListing.uniqueKey listing) row.

(** The insert is rejected, and the promise with it, when a stored row
    clashes; nothing is written then. *)
Definition insertListing (listing : VinylListing.t) : M unit :=
  s <- get ;;
  if existsb (clashes listing) (vinyl_listings (db s))
  then throw
  else
    modify (fun s =>
      set_db (mkDatabase (vinyl_listings (db s) ++ [row_of_listing listing])
                         (price_history (db s))
                         (user_preferences (db s))) s).

Definition updateListingLastSeen (uniqueKey : string) : M unit :=
  now <- new_Date ;;
  modify (fun s =>
    set_db (mkDatabase
              (map (fun row => if has_key uniqueKey row
                               then ListingRow.seen now row else row)
                   (vinyl_listings (db s)))
              (price_history (db s))
              (user_preferences (db s))) s).

Definition markInactiveListings (activeUniqueKeys : list string) : M unit :=
  modify (fun s =>
    set_db (mkDatabase
              (map (fun row =>
                      if existsb (String.eqb (ListingRow.unique_key row)) activeUniqueKeys
                      then row
                      else ListingRow.mk
                             (ListingRow.id row) (ListingRow.title row)
                             (ListingRow.title_display row) (ListingRow.artist row)
                             (ListingRow.artist_display row) (ListingRow.price row)
                             (ListingRow.currency row) (ListingRow.condition row)
                             (ListingRow.shipping_fee row) (ListingRow.seller row)
                             (ListingRow.seller_display row) (ListingRow.url row)
                             (ListingRow.source row) (ListingRow.date_found row)
                             (ListingRow.last_seen row) (ListingRow.ships_to_israel row)
                             (ListingRow.unique_key row) false)
                   (vinyl_listings (db s)))
              (price_history (db s))
              (user_preferences (db s))) s).

Definition getExistingListing (uniqueKey : string) : M (option VinylListing.t) :=
  s <- get ;;
  ret (option_map listing_of_row (find (has_key uniqueKey) (vinyl_listings (db s)))).

Definition addPriceHistory (priceHistory : PriceHistory.t) : M unit :=
  modify (fun s =>
    set_db (mkDatabase
              (vinyl_listings (db s))
              (price_history (db s) ++
                 [PriceRow.mk (PriceHistory.listingId priceHistory)
                              (PriceHistory.price priceHistory)
                              (PriceHistory.dateRecorded priceHistory)])
              (user_preferences (db s))) s).

Definition getUserPreferences : M (list UserPreferenceRecord.t) :=
  s <- get ;;
  ret (map (fun row => UserPreferenceRecord.mk (PreferenceRow.type row)
                         (PreferenceRow.value row) (PreferenceRow.created_at row))
           (user_preferences (db s))).

Definition addUserPreference (type : PreferenceType) (value : string) : M unit :=
  now <- new_Date ;;
  modify (fun s =>
    set_db (mkDatabase
              (vinyl_listings (db s))
              (price_history (db s))
              (user_preferences (db s) ++
                 [PreferenceRow.mk type (JS.trim (JS.toLowerCase value)) now])) s).

(* ---------------------------------------------------------------- *)
(** *** TelegramNotificationService and DiscogsService, as called *)

Definition telegram_call (c : TelegramCall) : M unit :=
  modify (fun s => set_telegram (telegram s ++ [c]) s).

Definition discogs_searchForArtist (artistName : string) : M (list VinylListing.t) :=
  fun s =>
    (discogs E (length (searched s)) artistName,
     set_searched (searched s ++ [artistName]) s).

(** [setTimeout] changes nothing that is modelled. *)
Definition delay (ms : Z) : M unit := ret tt.

(* ---------------------------------------------------------------- *)
(** *** src/index.ts *)

Definition of_type (t : PreferenceType) (p : UserPreferenceRecord.t) : bool :=
  PreferenceType_eqb (UserPreferenceRecord.type p) t.

Definition isRelevantListing (listing : VinylListing.t)
    (preferences : list UserPreferenceRecord.t) : bool :=
  let normalizedArtist := normalizeString (VinylListing.artist listing) in
  let normalizedTitle := normalizeString (VinylListing.title listing) in
  let artistMatches :=
    existsb (fun p => JS.includes normalizedArtist
                        (normalizeString (UserPreferenceRecord.value p)))
            (filter (of_type Artist) preferences) in
  let albumMatches :=
    existsb (fun p => JS.includes normalizedTitle
                        (normalizeString (UserPreferenceRecord.value p)))
            (filter (of_type Album) preferences) in
  artistMatches || albumMatches.

Definition note (listing : VinylListing.t) (o : Outcome) : M unit :=
  modify (fun s => set_outcomes (outcomes s ++ [(listing, o)]) s).

Definition push_newListings (listing : VinylListing.t) : M unit :=
  modify (fun s => set_newListings (newListings s ++ [listing]) s).

(** The body of the inner loop of [scrapeVinyl] (index.ts, lines 124-147). *)
Definition reconcile (preferences : list UserPreferenceRecord.t)
    (listing : VinylListing.t) : M unit :=
  if isRelevantListing listing preferences then
    existingListing <- getExistingListing (VinylListing.uniqueKey listing) ;;
    match existingListing with
    | None =>
        insertListing listing ;;
        dateRecorded <- new_Date ;;
        addPriceHistory (PriceHistory.mk (VinylListing.id listing)
                           (VinylListing.price listing) dateRecorded) ;;
        push_newListings listing ;;
        note listing New
    | Some existingListing =>
        updateListingLastSeen (VinylListing.uniqueKey listing) ;;
        if negb (VinylListing.price existingListing =? VinylListing.price listing)%Z
        then
          dateRecorded <- new_Date ;;
          addPriceHistory (PriceHistory.mk (VinylListing.id existingListing)
                             (VinylListing.price listing) dateRecorded) ;;
          note listing PriceChanged
        else note listing SeenAgain
    end
  else note listing Skipped.

(** The body of the outer loop (lines 119-157). *)
Definition scrapeArtist (delayBetweenRequests : Z)
    (preferences : list UserPreferenceRecord.t)
    (artistPref : UserPreferenceRecord.t) : M unit :=
  try_catch
    (listings <- discogs_searchForArtist (UserPreferenceRecord.value artistPref) ;;
     for_of listings (reconcile preferences) ;;
     delay delayBetweenRequests)
    (telegram_call
       (sendErrorNotification
          ("Failed to scrape artist: " ++ UserPreferenceRecord.value artistPref)
          "discogs")).

Definition scrapeVinyl (delayBetweenRequests : Z) : M unit :=
  try_catch
    (preferences <- getUserPreferences ;;
     let artistPrefs := filter (of_type Artist) preferences in
     modify (set_newListings []) ;;
     for_of artistPrefs (scrapeArtist delayBetweenRequests preferences) ;;
     s <- get ;;
     if (0 <? length (newListings s))%nat
     then telegram_call (sendBatchNotification (newListings s))
     else ret tt)
    (telegram_call
       (sendErrorNotification "General scraping error occurred" "system")).

(** [seedUserPreferences] *)
Definition seedUserPreferences (config : UserPreferences.t) : M unit :=
  existingPrefs <- getUserPreferences ;;
  if (0 <? length existingPrefs)%nat then ret tt
  else
    for_of (UserPreferences.artists config) (addUserPreference Artist) ;;
    for_of (UserPreferences.genres config) (addUserPreference Genre) ;;
    for_of (UserPreferences.albums config) (addUserPreference Album).

End Services.

(** The oracles of a run whose [discogs] is a [DiscogsService] on a network. *)
Definition discogs_env (clk : nat -> Time) (net : DiscogsService.Network) : Env :=
  mkEnv clk (fun n artistName => Some (DiscogsService.searchForArtist net n artistName)).

(* ================================================================== *)
(** ** Canonical strings: the image of [normalizeString] *)

Definition starts_ok (s : string) : bool :=
  match s with
  | EmptyString => true
  | String c _ => negb (JS.is_space c)
  end.

Fixpoint ends_ok (s : string) : bool :=
  match s with
  | EmptyString => true
  | String c r => if JS.is_empty r then negb (JS.is_space c) else ends_ok r
  end.

(** Every whitespace character is a space, followed by a non-whitespace
    character (or by nothing). *)
Fixpoint single_spaced (s : string) : bool :=
  match s with
  | EmptyString => true
  | String c r =>
      (if JS.is_space c then Ascii.eqb c " " && starts_ok r else true)
      && single_spaced r
  end.

Fixpoint lowered (s : string) : bool :=
  match s with
  | EmptyString => true
  | String c r => Ascii.eqb (JS.lower c) c && lowered r
  end.

(** No leading or trailing whitespace, whitespace only as single spaces
    between words, no capital letter. *)
Definition canonical (s : string) : Prop :=
  starts_ok s = true /\ ends_ok s = true /\
  single_spaced s = true /\ lowered s = true.

(** The characters of [s] that are not whitespace, in order. *)
Fixpoint non_space (s : string) : string :=
  match s with
  | EmptyString => EmptyString
  | String c r => if JS.is_space c then non_space r else String c (non_space r)
  end.


(** The maximal runs of non-whitespace characters of [s], in order. *)
Fixpoint words (s : string) : list string :=
  match s with
  | EmptyString => []
  | String c r =>
      if JS.is_space c then words r
      else if starts_ok r && negb (JS.is_empty r)
           then match words r with
                | w :: ws => String c w :: ws
                | [] => [String c EmptyString]
                end
           else String c EmptyString :: words r
  end.

(** Words joined by single spaces. *)
Fixpoint unwords (ws : list string) : string :=
  match ws with
  | [] => EmptyString
  | [w] => w
  | w :: rest => w ++ String " " (unwords rest)
  end.

(** The inverse transforms of [Buffer.from] and [toString('base64')]; only
    the proofs that the key encoding loses nothing use them. *)
Module Decode.

Fixpoint index_of (c : ascii) (s : string) : option nat :=
  match s with
  | EmptyString => None
  | String d r => if Ascii.eqb c d then Some 0%nat else option_map S (index_of c r)
  end.

Definition sextet := (bool * bool * bool * bool * bool * bool)%type.

(** The sextet of an alphabet character, most significant bit first. *)
Definition char_sextet (c : ascii) : option sextet :=
  match index_of c Buffer.alphabet with
  | Some i =>
      let n := N.of_nat i in
      Some (N.testbit n 5, N.testbit n 4, N.testbit n 3,
            N.testbit n 2, N.testbit n 1, N.testbit n 0)
  | None => None
  end.

Definition byte1 (s1 s2 : sextet) : Buffer.byte :=
  let '(a7, a6, a5, a4, a3, a2) := s1 in
  let '(a1, a0, _, _, _, _) := s2 in
  Ascii a0 a1 a2 a3 a4 a5 a6 a7.

Definition byte2 (s2 s3 : sextet) : Buffer.byte :=
  let '(_, _, b7, b6, b5, b4) := s2 in
  let '(b3, b2, b1, b0, _, _) := s3 in
  Ascii b0 b1 b2 b3 b4 b5 b6 b7.

Definition byte3 (s3 s4 : sextet) : Buffer.byte :=
  let '(_, _, _, _, c7, c6) := s3 in
  let '(c5, c4, c3, c2, c1, c0) := s4 in
  Ascii c0 c1 c2 c3 c4 c5 c6 c7.

Fixpoint from_base64 (s : string) : option (list Buffer.byte) :=
  match s with
  | EmptyString => Some []
  | String c1 (String c2 (String c3 (String c4 rest))) =>
      match char_sextet c1, char_sextet c2 with
      | Some s1, Some s2 =>
          match char_sextet c3, char_sextet c4 with
          | Some s3, Some s4 =>
              option_map (fun bs => byte1 s1 s2 :: byte2 s2 s3 :: byte3 s3 s4 :: bs)
                         (from_base64 rest)
          | Some s3, None =>
              if Ascii.eqb c4 Buffer.pad && JS.is_empty rest
              then Some [byte1 s1 s2; byte2 s2 s3] else None
          | None, _ =>
              if Ascii.eqb c3 Buffer.pad && Ascii.eqb c4 Buffer.pad && JS.is_empty rest
              then Some [byte1 s1 s2] else None
          end
      | _, _ => None
      end
  | _ => None
  end.

(** Decoding UTF-8 that only holds code points below U+0100. *)
Fixpoint toString_utf8 (fuel : nat) (bs : list Buffer.byte) : option string :=
  match fuel with
  | O => match bs with [] => Some EmptyString | _ => None end
  | S fuel =>
      match bs with
      | [] => Some EmptyString
      | b :: r =>
          if (N_of_ascii b <? 128)%N
          then option_map (String b) (toString_utf8 fuel r)
          else match r with
               | b2 :: r' =>
                   option_map
                     (String (ascii_of_N ((N_of_ascii b - 192) * 64
                                          + (N_of_ascii b2 - 128))))
                     (toString_utf8 fuel r')
               | [] => None
               end
      end
  end.

End Decode.

(* ================================================================== *)
(** ** Vocabulary of the statements about the engine *)

(** [sub] occurs in [s]. *)
Definition contains (s sub : string) : Prop :=
  exists pre post, s = pre ++ sub ++ post.

(** The identity keys held by the listing table. *)
Definition keys (s : State) : list string :=
  map ListingRow.unique_key (vinyl_listings (db s)).

(** The ids held by the listing table. *)
Definition ids (s : State) : list string :=
  map ListingRow.id (vinyl_listings (db s)).

(** No id is met twice: the ids of the candidates are pairwise distinct and
    none of them is the id of a stored row, as is the case when every id is
    a new draw of [randomUUID]. *)
Definition fresh_ids (s : State) (candidates : list VinylListing.t) : Prop :=
  NoDup (ids s ++ map VinylListing.id candidates).

(** The listings of a trace that were classified [New], in order. *)
Definition news_of (tr : list (VinylListing.t * Outcome)) : list VinylListing.t :=
  map fst (filter (fun x => Outcome_eqb (snd x) New) tr).

(** The configured artist terms, in the order of the preference table. *)
Definition artist_terms (s : State) : list string :=
  map PreferenceRow.value
      (filter (fun row => PreferenceType_eqb (PreferenceRow.type row) Artist)
              (user_preferences (db s))).

(** The preference records [getUserPreferences] reads from a state. *)
Definition preferences_of (s : State) : list UserPreferenceRecord.t :=
  map (fun row => UserPreferenceRecord.mk (PreferenceRow.type row)
                    (PreferenceRow.value row) (PreferenceRow.created_at row))
      (user_preferences (db s)).

(** The candidates discovered by searching [terms] one after the other, when
    [n] searches were made before: the answers, concatenated. *)
Fixpoint fetched (E : Env) (n : nat) (terms : list string) : list VinylListing.t :=
  match terms with
  | [] => []
  | term :: rest =>
      match discogs E n term with
      | Some listings => listings
      | None => []
      end ++ fetched E (S n) rest
  end.

(** The error notifications owed for the searches of [terms] that throw. *)
Fixpoint failures (E : Env) (n : nat) (terms : list string) : list TelegramCall :=
  match terms with
  | [] => []
  | term :: rest =>
      match discogs E n term with
      | Some _ => []
      | None => [sendErrorNotification ("Failed to scrape artist: " ++ term) "discogs"]
      end ++ failures E (S n) rest
  end.

(** The error notification for an artist term whose turn was cut short. *)
Definition scrape_error (term : string) : TelegramCall :=
  sendErrorNotification ("Failed to scrape artist: " ++ term) "discogs".

(** How the turn of one artist term can go, when [n] searches were made
    before: the candidates reconciled, in order, and the error
    notifications sent.  Either the search throws, which is reported; or
    every candidate of the answer is reconciled; or the candidates are
    reconciled up to one whose insert is rejected, which is reported, the
    candidates after it being dropped. *)
Inductive artist_log (E : Env) (n : nat) (term : string)
  : list VinylListing.t -> list TelegramCall -> Prop :=
| search_thrown :
    discogs E n term = None ->
    artist_log E n term [] [scrape_error term]
| all_reconciled : forall listings,
    discogs E n term = Some listings ->
    artist_log E n term listings []
| insert_rejected : forall done listing rest,
    discogs E n term = Some (done ++ listing :: rest)%list ->
    artist_log E n term done [scrape_error term].

(** The turns of the artist terms of a pass, one after the other. *)
Inductive pass_log (E : Env)
  : nat -> list string -> list VinylListing.t -> list TelegramCall -> Prop :=
| pass_done : forall n, pass_log E n [] [] []
| pass_turn : forall n term terms reconciled reported reconciled' reported',
    artist_log E n term reconciled reported ->
    pass_log E (S n) terms reconciled' reported' ->
    pass_log E n (term :: terms) (reconciled ++ reconciled')%list
             (reported ++ reported')%list.

(** The end-of-pass notification for a batch of new listings. *)
Definition batch (news : list VinylListing.t) : list TelegramCall :=
  match news with
  | [] => []
  | _ :: _ => [sendBatchNotification news]
  end.

(** The batches handed to [sendBatchNotification], one per call. *)
Fixpoint batches (calls : list TelegramCall) : list (list VinylListing.t) :=
  match calls with
  | [] => []
  | sendBatchNotification listings :: rest => listings :: batches rest
  | sendErrorNotification _ _ :: rest => batches rest
  end.


(** A row with the two columns that [updateListingLastSeen] writes blanked. *)
Definition frame (row : ListingRow.t) : ListingRow.t :=
  ListingRow.mk
    (ListingRow.id row) (ListingRow.title row) (ListingRow.title_display row)
    (ListingRow.artist row) (ListingRow.artist_display row) (ListingRow.price row)
    (ListingRow.currency row) (ListingRow.condition row) (ListingRow.shipping_fee row)
    (ListingRow.seller row) (ListingRow.seller_display row) (ListingRow.url row)
    (ListingRow.source row) (ListingRow.date_found row) 0%Z
    (ListingRow.ships_to_israel row) (ListingRow.unique_key row) false.

(** Is the type of a preference something else than [genre]? *)
Definition not_genre (p : UserPreferenceRecord.t) : bool :=
  negb (PreferenceType_eqb (UserPreferenceRecord.type p) Genre).

(** [s'] is reached from [s] by reconciling the listings of the trace [tr]:
    the trace and the new listings are appended, the preferences are kept,
    the table gains one row for each listing classified [New], holding its id
    and its key, and these listings carry pairwise distinct keys that were
    absent from [s]. *)
Definition pass_step (s s' : State) (tr : list (VinylListing.t * Outcome)) : Prop :=
  outcomes s' = (outcomes s ++ tr)%list /\
  newListings s' = (newListings s ++ news_of tr)%list /\
  user_preferences (db s') = user_preferences (db s) /\
  ids s' = (ids s ++ map VinylListing.id (news_of tr))%list /\
  keys s' = (keys s ++ map VinylListing.uniqueKey (news_of tr))%list /\
  (forall l, In l (news_of tr) -> ~ In (VinylListing.uniqueKey l) (keys s)) /\
  NoDup (map VinylListing.uniqueKey (news_of tr)).

(* ================================================================== *)
(** ** Characters, by name *)

(** The character classes that the statements about [normalizeString] speak
    of, written out as tables of the characters below U+0100. *)
Module Latin1.

(** White space: TAB, LF, VT, FF, CR, SPACE and the no-break space. *)
Definition white_space : list ascii :=
  ["009"; "010"; "011"; "012"; "013"; " "; "160"]%char.

(** The capital letters, A to Z and U+00C0 to U+00DE without the
    multiplication sign U+00D7, and the small letter of each. *)
Definition capitals : list ascii :=
  (list_ascii_of_string "ABCDEFGHIJKLMNOPQRSTUVWXYZ"
   ++ map ascii_of_nat (seq 192 23 ++ seq 216 7))%list.

Definition smalls : list ascii :=
  (list_ascii_of_string "abcdefghijklmnopqrstuvwxyz"
   ++ map ascii_of_nat (seq 224 23 ++ seq 248 7))%list.

Definition is_white (c : ascii) : bool := existsb (Ascii.eqb c) white_space.

Fixpoint position (c : ascii) (table : list ascii) : option nat :=
  match table with
  | [] => None
  | d :: rest => if Ascii.eqb c d then Some 0%nat else option_map S (position c rest)
  end.

(** The small letter of a capital; any other character is left alone. *)
Definition small (c : ascii) : ascii :=
  match position c capitals with
  | Some i => nth i smalls c
  | None => c
  end.

Fixpoint small_word (w : string) : string :=
  match w with
  | EmptyString => EmptyString
  | String c r => String (small c) (small_word r)
  end.

(** The words of a text: what is left between its white space. *)
Fixpoint tokens (s : string) : list string :=
  match s with
  | EmptyString => []
  | String c r =>
      if is_white c then tokens r
      else match r with
           | EmptyString => [String c EmptyString]
           | String d _ =>
               if is_white d then String c EmptyString :: tokens r
               else match tokens r with
                    | w :: ws => String c w :: ws
                    | [] => [String c EmptyString]
                    end
           end
  end.

End Latin1.

(* ================================================================== *)
(** ** Concrete runs *)

(** The user follows Pink Floyd; a seller offers The Wall. *)
Module Scenario.

Definition the_wall : DiscogsService.DiscogsMarketplaceListing :=
  DiscogsService.mkMarketplaceListing
    "/sell/item/1" (Some "Near Mint (NM)") "USD" (Some 50%Z) (Some 12%Z)
    (Some "RareVinyl") None "The Wall" ["Pink Floyd"].

(** The draws of the conversion made for the [n]-th search: a new id each
    time. *)
Definition stamp (n : nat) : DiscogsService.Stamp :=
  DiscogsService.mkStamp ("uuid-" ++ JS.number_to_string (1 + 10 * Z.of_nat n))
    (1000 + 10 * Z.of_nat n)%Z (1001 + 10 * Z.of_nat n)%Z.

Definition listing : VinylListing.t :=
  DiscogsService.convertToVinylListing the_wall (stamp 0).

(** The same offer, as the next search converts it. *)
Definition listing_again : VinylListing.t :=
  DiscogsService.convertToVinylListing the_wall (stamp 1).

Definition preferences : list UserPreferenceRecord.t :=
  [UserPreferenceRecord.mk Artist "pink floyd" 0%Z;
   UserPreferenceRecord.mk Genre "rock" 0%Z].

Definition tables (rows : list ListingRow.t) : Database :=
  mkDatabase rows []
    [PreferenceRow.mk Artist "pink floyd" 0%Z; PreferenceRow.mk Genre "rock" 0%Z].

(** Before the first pass, and before a second pass. *)
Definition fresh : State := mkState (tables []) [] [] 0 [] [].

Definition known : State := mkState (tables [row_of_listing listing]) [] [] 0 [] [].

Definition clk (n : nat) : Time := (2000 + Z.of_nat n)%Z.

(** A marketplace that offers [the_wall] for every release, and one whose
    search requests all fail. *)
Definition net_up : DiscogsService.Network :=
  DiscogsService.mkNetwork
    (fun _ _ => Some [DiscogsService.mkSearchResult 1%Z "Pink Floyd - The Wall"])
    (fun n _ _ => DiscogsService.Listings (Some [(the_wall, stamp n)])).

Definition net_down : DiscogsService.Network :=
  DiscogsService.mkNetwork
    (fun _ _ => None)
    (fun _ _ _ => DiscogsService.OtherError).

(** Two offers whose keys coincide although seller, price and title differ:
    both encode the text [a-100-120-b]. *)
Definition offer_100 : DiscogsService.DiscogsMarketplaceListing :=
  DiscogsService.mkMarketplaceListing
    "/sell/item/2" (Some "Mint (M)") "USD" (Some 100%Z) None
    (Some "a") None "120-b" ["Pink Floyd"].

Definition offer_120 : DiscogsService.DiscogsMarketplaceListing :=
  DiscogsService.mkMarketplaceListing
    "/sell/item/3" (Some "Mint (M)") "USD" (Some 120%Z) None
    (Some "a-100") None "b" ["Pink Floyd"].

Definition stored_100 : VinylListing.t :=
  DiscogsService.convertToVinylListing offer_100
    (DiscogsService.mkStamp "uuid-2" 1000%Z 1001%Z).

Definition candidate_120 : VinylListing.t :=
  DiscogsService.convertToVinylListing offer_120
    (DiscogsService.mkStamp "uuid-3" 1500%Z 1501%Z).

Definition holding_100 : State :=
  mkState (tables [row_of_listing stored_100]) [] [] 0 [] [].

(** Another offer that carries the id of [listing], and a marketplace that
    answers with it first. *)
Definition recycled : VinylListing.t :=
  DiscogsService.convertToVinylListing offer_100 (stamp 0).

Definition net_recycling : DiscogsService.Network :=
  DiscogsService.mkNetwork
    (fun _ _ => Some [DiscogsService.mkSearchResult 1%Z "Pink Floyd - The Wall"])
    (fun n _ _ =>
       DiscogsService.Listings (Some [(offer_100, stamp 0); (the_wall, stamp (S n))])).

(** Two artist terms, and a client whose first search throws. *)
Definition two_artists : State :=
  mkState
    (mkDatabase [] []
       [PreferenceRow.mk Artist "the doors" 0%Z; PreferenceRow.mk Album "the wall" 0%Z;
        PreferenceRow.mk Artist "pink floyd" 0%Z])
    [] [] 0 [] [].

Definition flaky : Env :=
  mkEnv clk (fun n artistName =>
               match n with
               | O => None
               | S _ => Some (DiscogsService.searchForArtist net_up n artistName)
               end).

End Scenario.

(* ================================================================== *)
(** ** DiscogsService.makeRequest: the retry loop *)

Module Http.

Section MakeRequest.

(** The type of parsed response bodies. *)
Variable Json : Type.

(** What one [fetch] does, and for a response that is [ok] what reading
    its body does: the body parsed, or the error of [response.json()]. *)
Inductive Answer :=
| RateLimited
| Failed (status : Z) (statusText : string)
| Success (json : Json)
| Unreadable (message : string)
| Rejected (message : string).

(** How [makeRequest] ends: it returns the body, falls out of the loop
    (and so returns [undefined]), or throws. *)
Inductive Result :=
| Returned (json : Json)
| Undefined
| Thrown (message : string).

(** The result, the number of [fetch] calls made and the waits, in order,
    in milliseconds. *)
Record Run := mkRun {
  result : Result;
  fetches : nat;
  delays : list Z
}.

Definition after_wait (waitTime : Z) (rest : Run) : Run :=
  mkRun (result rest) (S (fetches rest)) (waitTime :: delays rest).

(** The iterations [attempt], [attempt + 1], ... of the loop, [remaining] of
    them; [answer a] is what the fetch of attempt [a] does.  The promise of
    [response.json()] is returned without [await], so that its rejection is
    not caught by the [try] around it: it ends the loop at once. *)
Fixpoint attempts (remaining attempt retries : nat) (answer : nat -> Answer) : Run :=
  match remaining with
  | O => mkRun Undefined 0 []
  | S remaining' =>
      let next := attempts remaining' (S attempt) retries answer in
      match answer attempt with
      | RateLimited => after_wait (2 ^ Z.of_nat attempt * 1000)%Z next
      | Failed status statusText =>
          if (attempt =? retries)%nat
          then mkRun (Thrown ("Discogs API error: " ++ JS.number_to_string status
                                ++ " " ++ statusText)) 1 []
          else after_wait (1000 * Z.of_nat attempt)%Z next
      | Success json => mkRun (Returned json) 1 []
      | Unreadable message => mkRun (Thrown message) 1 []
      | Rejected message =>
          if (attempt =? retries)%nat
          then mkRun (Thrown message) 1 []
          else after_wait (1000 * Z.of_nat attempt)%Z next
      end
  end.

Definition makeRequest (retries : nat) (answer : nat -> Answer) : Run :=
  attempts retries 1 retries answer.

End MakeRequest.

Arguments RateLimited {Json}.
Arguments Failed {Json}.
Arguments Success {Json}.
Arguments Unreadable {Json}.
Arguments Rejected {Json}.
Arguments Returned {Json}.
Arguments Undefined {Json}.
Arguments Thrown {Json}.
Arguments result {Json}.
Arguments fetches {Json}.
Arguments delays {Json}.
Arguments attempts {Json}.
Arguments makeRequest {Json}.

(** [searchReleases]: the body is the [results] field, if any; reading it
    from [undefined] throws.  [None] stands for a throw. *)
Definition searchReleases
    (answer : nat -> Answer (option (list DiscogsService.DiscogsSearchResult)))
    : option (list DiscogsService.DiscogsSearchResult) :=
  match result (makeRequest 3 answer) with
  | Returned (Some results) => Some results
  | Returned None => Some []
  | Undefined => None
  | Thrown _ => None
  end.

(** What [getMarketplaceListings] makes of its request: the body is the
    [listings] field; an error whose message mentions 405 leads to the
    alternative method, given here by the answers to its own requests. *)
Definition marketplace_response
    (answer : nat -> Answer (option (list (DiscogsService.DiscogsMarketplaceListing
                                           * DiscogsService.Stamp))))
    (alternative : DiscogsService.Alternative)
    : DiscogsService.MarketplaceResponse :=
  match result (makeRequest 3 answer) with
  | Returned listings => DiscogsService.Listings listings
  | Undefined => DiscogsService.OtherError
  | Thrown message =>
      if JS.includes message "405"
      then DiscogsService.Error405 alternative
      else DiscogsService.OtherError
  end.

End Http.

(* ================================================================== *)
(** ** TelegramNotificationService.sendBatchNotification: the messages *)

Module TelegramBot.

(** The texts a batch is made of, over the code units [Unit16] of a
    message: [formatListingMessage(listing, compact)], the header of a batch
    of [n] listings, the separator line and the trailer for [n] further
    listings.  The rendered texts hold characters beyond U+00FF; the control
    flow only measures their lengths. *)
Record Rendering (Unit16 : Type) := mkRendering {
  formatListingMessage : VinylListing.t -> bool -> list Unit16;
  header : nat -> list Unit16;
  separator : list Unit16;
  more : nat -> list Unit16
}.

Arguments formatListingMessage {Unit16}.
Arguments header {Unit16}.
Arguments separator {Unit16}.
Arguments more {Unit16}.

(** The loop over [listings.slice(0, 10)]: the messages sent inside the loop
    and the message being built when it ends. *)
Fixpoint batch_loop {Unit16} (R : Rendering Unit16) (head : list Unit16)
    (listings : list VinylListing.t) (message : list Unit16)
    : list (list Unit16) * list Unit16 :=
  match listings with
  | [] => ([], message)
  | listing :: rest =>
      let listingText := formatListingMessage R listing true in
      if (4000 <? length (message ++ listingText)%list)%nat
      then let '(sent, final) := batch_loop R head rest (head ++ listingText)%list in
           (message :: sent, final)
      else batch_loop R head rest (message ++ listingText ++ separator R)%list
  end.

(** The texts passed to [bot.sendMessage], in order. *)
Definition sendBatchNotification_messages {Unit16} (R : Rendering Unit16)
    (listings : list VinylListing.t) : list (list Unit16) :=
  match listings with
  | [] => []
  | [listing] => [formatListingMessage R listing false]
  | _ =>
      let head := header R (length listings) in
      let '(sent, message) := batch_loop R head (firstn 10 listings) head in
      let message :=
        if (10 <? length listings)%nat
        then (message ++ more R (length listings - 10))%list
        else message in
      (sent ++ [message])%list
  end.

End TelegramBot.

(* ================================================================== *)
(** ** setup.js: the comma-separated answers *)

Module Setup.

(** [s.split(',')] *)
Fixpoint split (sep : ascii) (s : string) : list string :=
  match s with
  | EmptyString => [EmptyString]
  | String c r =>
      if Ascii.eqb c sep then EmptyString :: split sep r
      else match split sep r with
           | w :: ws => String c w :: ws
           | [] => [String c EmptyString]
           end
  end.

(** [input ? input.split(',').map(a => a.trim()) : defaults], where [input]
    is the trimmed answer of [askQuestion]. *)
Definition items (answer : string) (defaults : list string) : list string :=
  let input := JS.trim answer in
  if JS.is_empty input then defaults
  else map JS.trim (split "," input).

(** The [preferences] object of the configuration written by [setup]. *)
Definition preferences (artistsAnswer genresAnswer albumsAnswer : string)
    : UserPreferences.t :=
  UserPreferences.mk
    (items artistsAnswer ["Pink Floyd"; "The Beatles"])
    (items genresAnswer ["Rock"; "Jazz"])
    (items albumsAnswer ["The Dark Side of the Moon"]).

End Setup.

(* ================================================================== *)
(** ** src/index.ts: start-up *)

(** How [main] leaves the process: still scheduled, shut down after one
    pass, or [process.exit(1)]. *)
Inductive Exit := Scheduled | ShutDown | Exit1.

Section Startup.

Variable E : Env.

(** [initialize]: the tables exist in every [Database]; [telegramConnected]
    is the answer of [testConnection]. *)
Definition initialize (telegramConnected : bool) (config : UserPreferences.t) : M unit :=
  try_catch
    ((if telegramConnected then ret tt else throw) ;;
     seedUserPreferences E config)
    throw.

Definition runOnce (delayBetweenRequests : Z) : M unit :=
  scrapeVinyl E delayBetweenRequests.

(** [main], once the constructor has loaded the configuration. *)
Definition main (once telegramConnected : bool) (config : UserPreferences.t)
    (delayBetweenRequests : Z) : M Exit :=
  try_catch
    (initialize telegramConnected config ;;
     if once
     then runOnce delayBetweenRequests ;; ret ShutDown
     else runOnce delayBetweenRequests ;; ret Scheduled)
    (ret Exit1).

End Startup.

(* ================================================================== *)
(** ** Vocabulary of the further statements *)

(** A row without its [is_active] column. *)
Definition but_active (row : ListingRow.t) : ListingRow.t :=
  ListingRow.mk
    (ListingRow.id row) (ListingRow.title row) (ListingRow.title_display row)
    (ListingRow.artist row) (ListingRow.artist_display row) (ListingRow.price row)
    (ListingRow.currency row) (ListingRow.condition row) (ListingRow.shipping_fee row)
    (ListingRow.seller row) (ListingRow.seller_display row) (ListingRow.url row)
    (ListingRow.source row) (ListingRow.date_found row) (ListingRow.last_seen row)
    (ListingRow.ships_to_israel row) (ListingRow.unique_key row) false.

(** [r'] is [r] after sightings: only [last_seen] and [is_active] may
    differ, and an active row stays active. *)
Definition kept (r r' : ListingRow.t) : Prop :=
  frame r' = frame r /\
  (ListingRow.is_active r = true -> ListingRow.is_active r' = true).

(** The entries of a trace that append a price observation. *)
Definition observed (tr : list (VinylListing.t * Outcome)) : list (VinylListing.t * Outcome) :=
  filter (fun x => match snd x with New | PriceChanged => true | _ => false end) tr.

(** What a run of reconciliations does to the tables: the rows there before
    are kept, the rows added are those of the listings classified [New], in
    order, all of them relevant, and the price history gains one observation
    per [New] or [PriceChanged] listing, at that listing's price. *)
Definition grows (preferences : list UserPreferenceRecord.t) (s s' : State)
    (tr : list (VinylListing.t * Outcome)) : Prop :=
  outcomes s' = (outcomes s ++ tr)%list /\
  user_preferences (db s') = user_preferences (db s) /\
  (exists old added,
     vinyl_listings (db s') = (old ++ added)%list /\
     Forall2 kept (vinyl_listings (db s)) old /\
     map frame added = map (fun l => frame (row_of_listing l)) (news_of tr)) /\
  (exists obs,
     price_history (db s') = (price_history (db s) ++ obs)%list /\
     map PriceRow.price obs = map (fun x => VinylListing.price (fst x)) (observed tr)) /\
  (forall l o, In (l, o) tr ->
     (o = Skipped <-> isRelevantListing l preferences = false)).

(** The seven words [shipsToIsrael] looks for. *)
Definition shipping_words : list string :=
  ["israel"; "worldwide"; "international"; "everywhere"; "global";
   "all countries"; "world wide"].

(** A trimmed string: no whitespace at either end. *)
Definition trimmed (s : string) : Prop :=
  starts_ok s = true /\ ends_ok s = true.

(** The number of occurrences of [c] in [s]. *)
Fixpoint occurrences (c : ascii) (s : string) : nat :=
  match s with
  | EmptyString => 0
  | String d r => (if Ascii.eqb d c then 1 else 0) + occurrences c r
  end.

(** [l] occurs in [m] as a contiguous block. *)
Definition occurs_in {A} (l m : list A) : Prop :=
  exists pre post, m = (pre ++ l ++ post)%list.

(** Inputs of further concrete runs. *)
Module Scenario2.

Definition limited : nat -> Http.Answer (option (list DiscogsService.DiscogsSearchResult)) :=
  fun _ => Http.RateLimited.

Definition second_try : nat -> Http.Answer (option (list DiscogsService.DiscogsSearchResult)) :=
  fun attempt =>
    match attempt with
    | 2%nat => Http.Success (Some [DiscogsService.mkSearchResult 1%Z "Pink Floyd - The Wall"])
    | _ => Http.Rejected "socket hang up"
    end.

Definition garbled : nat -> Http.Answer (option (list DiscogsService.DiscogsSearchResult)) :=
  fun attempt =>
    match attempt with
    | 1%nat => Http.Failed 502 "Bad Gateway"
    | 2%nat => Http.Unreadable "Unexpected token < in JSON at position 0"
    | _ => Http.Success None
    end.

Definition config : UserPreferences.t :=
  UserPreferences.mk [" Pink Floyd"; "The  DOORS "] ["Rock"] ["The Wall"].

Definition empty : State := mkState (mkDatabase [] [] []) [] [] 0 [] [].

(** Message texts measured in characters of [ascii]. *)
Definition render (listing : VinylListing.t) (compact : bool) : list ascii :=
  list_ascii_of_string
    (if compact then VinylListing.titleDisplay listing
     else VinylListing.artistDisplay listing ++ " - " ++ VinylListing.titleDisplay listing).

Definition head (n : nat) : list ascii :=
  list_ascii_of_string (JS.number_to_string (Z.of_nat n) ++ " New Vinyl Listings Found!").

Definition line : list ascii := list_ascii_of_string "|".

Definition trailer (n : nat) : list ascii :=
  list_ascii_of_string ("... and " ++ JS.number_to_string (Z.of_nat n) ++ " more listings").

Definition rendering : TelegramBot.Rendering ascii :=
  TelegramBot.mkRendering ascii render head line trailer.

End Scenario2.

(** The rows [addUserPreference] appends for [values] of one type, when [n]
    dates were read before. *)
Fixpoint seeded (E : Env) (type : PreferenceType) (n : nat) (values : list string)
    : list PreferenceRow.t :=
  match values with
  | [] => []
  | value :: rest =>
      PreferenceRow.mk type (JS.trim (JS.toLowerCase value)) (clock E n)
        :: seeded E type (S n) rest
  end.

(** What the relevance test reads of a preference. *)
Definition signature (p : UserPreferenceRecord.t) : PreferenceType * string :=
  (UserPreferenceRecord.type p, normalizeString (UserPreferenceRecord.value p)).

(** A character of a base64 text: one of the alphabet, or the padding. *)
Definition base64_char (c : ascii) : bool :=
  match Decode.index_of c Buffer.alphabet with
  | Some _ => true
  | None => Ascii.eqb c Buffer.pad
  end.

Fixpoint all_chars (f : ascii -> bool) (s : string) : bool :=
  match s with
  | EmptyString => true
  | String c r => f c && all_chars f r
  end.

(** Decoding a key back to the text it stands for. *)
Definition decodeUniqueKey (key : string) : option string :=
  match Decode.from_base64 key with
  | Some bytes => Decode.toString_utf8 (length bytes) bytes
  | None => None
  end.
(* ================================================================== *)
(** * Properties *)

Module JSFacts.

Lemma is_space_lower c : JS.is_space (JS.lower c) = JS.is_space c.
Proof. destruct c as [[] [] [] [] [] [] [] []]; reflexivity. Qed.

Lemma lower_lower c : JS.lower (JS.lower c) = JS.lower c.
Proof. destruct c as [[] [] [] [] [] [] [] []]; reflexivity. Qed.

Lemma is_empty_true s : JS.is_empty s = true -> s = EmptyString.
Proof. destruct s; simpl; congruence. Qed.

Lemma trimStart_starts_ok s : starts_ok (JS.trimStart s) = true.
Proof.
  induction s as [|c r IH]; simpl; auto.
  destruct (JS.is_space c) eqn:Hc; auto. simpl. now rewrite Hc.
Qed.

Lemma trimEnd_starts_ok s :
  starts_ok s = true -> starts_ok (JS.trimEnd s) = true.
Proof.
  destruct s as [|c r]; simpl; auto. intros Hc.
  destruct (JS.is_space c) eqn:E; simpl in *; rewrite ?E; try discriminate; reflexivity.
Qed.

Lemma trimEnd_ends_ok s : ends_ok (JS.trimEnd s) = true.
Proof.
  induction s as [|c r IH]; simpl; auto.
  destruct (JS.is_space c) eqn:Hc; destruct (JS.trimEnd r) eqn:Hr;
    simpl in *; rewrite ?Hc; auto.
Qed.

Lemma toLowerCase_is_empty s : JS.is_empty (JS.toLowerCase s) = JS.is_empty s.
Proof. destruct s; reflexivity. Qed.

Lemma toLowerCase_starts_ok s : starts_ok (JS.toLowerCase s) = starts_ok s.
Proof. destruct s; simpl; auto. now rewrite is_space_lower. Qed.

Lemma toLowerCase_ends_ok s : ends_ok (JS.toLowerCase s) = ends_ok s.
Proof.
  induction s as [|c r IH]; simpl; auto.
  rewrite toLowerCase_is_empty, is_space_lower, IH. reflexivity.
Qed.

Lemma toLowerCase_lowered s : lowered (JS.toLowerCase s) = true.
Proof.
  induction s as [|c r IH]; simpl; auto.
  rewrite lower_lower, Ascii.eqb_refl. exact IH.
Qed.

Lemma replace_runs_starts_ok_run s : starts_ok (JS.replace_runs true s) = true.
Proof.
  induction s as [|c r IH]; simpl; auto.
  destruct (JS.is_space c) eqn:Hc; simpl; auto. now rewrite Hc.
Qed.

Lemma replace_runs_starts_ok b s :
  starts_ok s = true -> starts_ok (JS.replace_runs b s) = true.
Proof.
  destruct s as [|c r]; simpl; auto.
  destruct (JS.is_space c) eqn:Hc; simpl; try discriminate. now rewrite Hc.
Qed.

Lemma replace_runs_nonempty b s :
  ends_ok s = true -> JS.is_empty s = false ->
  JS.is_empty (JS.replace_runs b s) = false.
Proof.
  revert b. induction s as [|c r IH]; simpl; intros b He Hn; try discriminate.
  destruct (JS.is_empty r) eqn:Hr.
  - apply Bool.negb_true_iff in He. rewrite He. reflexivity.
  - destruct (JS.is_space c); [destruct b|]; simpl; auto.
Qed.

Lemma replace_runs_ends_ok b s :
  ends_ok s = true -> ends_ok (JS.replace_runs b s) = true.
Proof.
  revert b. induction s as [|c r IH]; simpl; intros b He; auto.
  destruct (JS.is_empty r) eqn:Hr.
  - apply is_empty_true in Hr. subst r.
    apply Bool.negb_true_iff in He. rewrite He. simpl. now rewrite He.
  - pose proof (replace_runs_nonempty true r He Hr) as Ht.
    pose proof (replace_runs_nonempty false r He Hr) as Hf.
    destruct (JS.is_space c); [destruct b|]; simpl; rewrite ?Ht, ?Hf; auto.
Qed.

Lemma replace_runs_single_spaced b s :
  single_spaced (JS.replace_runs b s) = true.
Proof.
  revert b. induction s as [|c r IH]; simpl; intros b; auto.
  destruct (JS.is_space c) eqn:Hc; [destruct b|]; simpl; rewrite ?Hc, ?IH; auto.
  now rewrite replace_runs_starts_ok_run.
Qed.

Lemma replace_runs_lowered b s :
  lowered s = true -> lowered (JS.replace_runs b s) = true.
Proof.
  revert b. induction s as [|c r IH]; simpl; intros b Hl; auto.
  apply Bool.andb_true_iff in Hl. destruct Hl as [Hc Hr].
  destruct (JS.is_space c); [destruct b|]; cbn [lowered]; rewrite ?Hc; auto;
    rewrite IH by assumption; reflexivity.
Qed.

(** The three passes leave a canonical string as it is. *)
Lemma trimStart_fix s : starts_ok s = true -> JS.trimStart s = s.
Proof.
  destruct s as [|c r]; simpl; auto.
  destruct (JS.is_space c); simpl; congruence.
Qed.

Lemma trimEnd_fix s : ends_ok s = true -> JS.trimEnd s = s.
Proof.
  induction s as [|c r IH]; simpl; auto.
  destruct (JS.is_empty r) eqn:Hr; intros He.
  - apply is_empty_true in Hr. subst r. simpl.
    apply Bool.negb_true_iff in He. now rewrite He.
  - rewrite (IH He), Hr, Bool.andb_false_r. reflexivity.
Qed.

Lemma toLowerCase_fix s : lowered s = true -> JS.toLowerCase s = s.
Proof.
  induction s as [|c r IH]; simpl; auto. intros Hl.
  apply Bool.andb_true_iff in Hl. destruct Hl as [Hc Hr].
  apply Ascii.eqb_eq in Hc. now rewrite Hc, (IH Hr).
Qed.

Lemma replace_runs_fix b s :
  (b = true -> starts_ok s = true) -> single_spaced s = true ->
  JS.replace_runs b s = s.
Proof.
  revert b. induction s as [|c r IH]; simpl; intros b Hb Hs; auto.
  apply Bool.andb_true_iff in Hs. destruct Hs as [Hc Hr].
  destruct (JS.is_space c) eqn:Hsp.
  - apply Bool.andb_true_iff in Hc. destruct Hc as [Hc Hst].
    apply Ascii.eqb_eq in Hc. subst c.
    destruct b; [specialize (Hb eq_refl); discriminate|].
    now rewrite (IH true (fun _ => Hst) Hr).
  - rewrite (IH false); auto. discriminate.
Qed.

Lemma non_space_toLowerCase s :
  non_space (JS.toLowerCase s) = JS.toLowerCase (non_space s).
Proof.
  induction s as [|c r IH]; simpl; auto.
  rewrite is_space_lower. destruct (JS.is_space c); simpl; now rewrite IH.
Qed.

Lemma non_space_trimStart s : non_space (JS.trimStart s) = non_space s.
Proof.
  induction s as [|c r IH]; simpl; auto.
  destruct (JS.is_space c) eqn:Hc; simpl; auto. now rewrite Hc.
Qed.

Lemma non_space_trimEnd s : non_space (JS.trimEnd s) = non_space s.
Proof.
  induction s as [|c r IH]; simpl; auto.
  destruct (JS.is_space c) eqn:Hc; simpl.
  - destruct (JS.is_empty (JS.trimEnd r)) eqn:Hr; simpl.
    + apply is_empty_true in Hr. now rewrite <- IH, Hr.
    + now rewrite Hc.
  - now rewrite Hc, IH.
Qed.

Lemma non_space_replace_runs b s : non_space (JS.replace_runs b s) = non_space s.
Proof.
  revert b. induction s as [|c r IH]; simpl; intros b; auto.
  destruct (JS.is_space c) eqn:Hc; [destruct b|]; simpl; rewrite ?Hc, ?IH; auto.
Qed.

End JSFacts.

Lemma normalizeString_canonical s : canonical (normalizeString s).
Proof.
  unfold normalizeString, JS.replace_ws_runs, JS.trim. repeat split.
  - apply JSFacts.replace_runs_starts_ok.
    rewrite JSFacts.toLowerCase_starts_ok.
    apply JSFacts.trimEnd_starts_ok, JSFacts.trimStart_starts_ok.
  - apply JSFacts.replace_runs_ends_ok.
    rewrite JSFacts.toLowerCase_ends_ok. apply JSFacts.trimEnd_ends_ok.
  - apply JSFacts.replace_runs_single_spaced.
  - apply JSFacts.replace_runs_lowered, JSFacts.toLowerCase_lowered.
Qed.

Lemma normalizeString_fix s : canonical s -> normalizeString s = s.
Proof.
  intros (Hs & He & Hsp & Hl).
  unfold normalizeString, JS.replace_ws_runs, JS.trim.
  rewrite (JSFacts.trimStart_fix s Hs), (JSFacts.trimEnd_fix s He),
    (JSFacts.toLowerCase_fix s Hl).
  apply JSFacts.replace_runs_fix; auto.
Qed.

Lemma normalizeString_idempotent s :
  normalizeString (normalizeString s) = normalizeString s.
Proof. apply normalizeString_fix, normalizeString_canonical. Qed.

Lemma normalizeString_non_space s :
  non_space (normalizeString s) = JS.toLowerCase (non_space s).
Proof.
  unfold normalizeString, JS.replace_ws_runs, JS.trim.
  now rewrite JSFacts.non_space_replace_runs, JSFacts.non_space_toLowerCase,
    JSFacts.non_space_trimEnd, JSFacts.non_space_trimStart.
Qed.

(* ================================================================== *)
(** ** [normalizeString] joins the lowered words by single spaces *)

Module WordsFacts.

Lemma words_space c r : JS.is_space c = true -> words (String c r) = words r.
Proof. intros H. cbn. now rewrite H. Qed.

Lemma words_char c r r' :
  JS.is_space c = false ->
  starts_ok r' && negb (JS.is_empty r') = starts_ok r && negb (JS.is_empty r) ->
  words r' = words r ->
  words (String c r') = words (String c r).
Proof. intros Hc Hs Hw. cbn. now rewrite Hc, Hs, Hw. Qed.

Lemma toLowerCase_words s : words (JS.toLowerCase s) = map JS.toLowerCase (words s).
Proof.
  induction s as [|c r IH]; [reflexivity|].
  cbn. rewrite JSFacts.is_space_lower, JSFacts.toLowerCase_starts_ok,
    JSFacts.toLowerCase_is_empty, IH.
  destruct (JS.is_space c); [reflexivity|].
  destruct (starts_ok r && negb (JS.is_empty r)); [|reflexivity].
  destruct (words r); reflexivity.
Qed.

Lemma trimStart_words s : words (JS.trimStart s) = words s.
Proof.
  induction s as [|c r IH]; [reflexivity|].
  cbn [JS.trimStart]. destruct (JS.is_space c) eqn:Hc; [|reflexivity].
  now rewrite words_space.
Qed.

Lemma trimEnd_first s :
  starts_ok (JS.trimEnd s) && negb (JS.is_empty (JS.trimEnd s))
  = starts_ok s && negb (JS.is_empty s).
Proof.
  destruct s as [|c r]; [reflexivity|]. cbn.
  destruct (JS.is_space c) eqn:Hc; cbn.
  - destruct (JS.is_empty (JS.trimEnd r)); cbn; rewrite ?Hc; reflexivity.
  - rewrite Hc. reflexivity.
Qed.

Lemma trimEnd_words s : words (JS.trimEnd s) = words s.
Proof.
  induction s as [|c r IH]; [reflexivity|].
  cbn [JS.trimEnd]. destruct (JS.is_space c) eqn:Hc; cbn [andb].
  - rewrite (words_space c r Hc).
    destruct (JS.is_empty (JS.trimEnd r)) eqn:He.
    + apply JSFacts.is_empty_true in He. now rewrite <- IH, He.
    + now rewrite words_space.
  - apply words_char; auto using trimEnd_first.
Qed.

Lemma replace_runs_first s :
  starts_ok (JS.replace_runs false s) && negb (JS.is_empty (JS.replace_runs false s))
  = starts_ok s && negb (JS.is_empty s).
Proof.
  destruct s as [|c r]; [reflexivity|]. cbn.
  destruct (JS.is_space c) eqn:Hc; cbn; rewrite ?Hc; reflexivity.
Qed.

Lemma replace_runs_words b s : words (JS.replace_runs b s) = words s.
Proof.
  revert b. induction s as [|c r IH]; intros b; [reflexivity|].
  cbn [JS.replace_runs]. destruct (JS.is_space c) eqn:Hc.
  - rewrite (words_space c r Hc). destruct b; [apply IH|].
    rewrite words_space by reflexivity. apply IH.
  - apply words_char; auto using replace_runs_first.
Qed.

Lemma unwords_char c w ws :
  unwords (String c w :: ws) = String c (unwords (w :: ws)).
Proof. destruct ws; reflexivity. Qed.

Lemma unwords_words s :
  single_spaced s = true -> ends_ok s = true ->
  JS.trimStart s = unwords (words s) /\ (JS.is_empty s = false -> words s <> []).
Proof.
  induction s as [|c r IH];
    [cbn; intros _ _; split; [reflexivity | discriminate]|].
  cbn [single_spaced ends_ok JS.trimStart]. intros Hs He.
  apply Bool.andb_true_iff in Hs. destruct Hs as [Hc Hs].
  destruct (JS.is_space c) eqn:Hsp.
  - rewrite (words_space c r Hsp).
    destruct (JS.is_empty r) eqn:Hr; [discriminate|].
    destruct (IH Hs He) as [IH1 IH2]. split; auto.
  - cbn [words]. rewrite Hsp.
    destruct r as [|d r']; [cbn; split; [reflexivity | discriminate]|].
    cbn [JS.is_empty] in He. destruct (IH Hs He) as [IH1 IH2].
    specialize (IH2 eq_refl).
    cbn [starts_ok JS.is_empty negb]. rewrite Bool.andb_true_r.
    destruct (words (String d r')) as [|w ws] eqn:Hw; [contradiction|].
    cbn [JS.trimStart] in IH1.
    destruct (JS.is_space d) eqn:Hd; cbn [negb].
    + split; [|discriminate].
      cbn [single_spaced] in Hs. rewrite Hd in Hs.
      apply Bool.andb_true_iff in Hs. destruct Hs as [Hs _].
      apply Bool.andb_true_iff in Hs. destruct Hs as [Hd' Hst].
      apply Ascii.eqb_eq in Hd'. subst d.
      rewrite (JSFacts.trimStart_fix r' Hst) in IH1.
      change (unwords (String c EmptyString :: w :: ws))
        with (String c (String " " (unwords (w :: ws)))).
      now rewrite <- IH1.
    + split; [|discriminate]. rewrite unwords_char, <- IH1. reflexivity.
Qed.

Lemma canonical_unwords s : canonical s -> s = unwords (words s).
Proof.
  intros (Hst & He & Hs & _).
  rewrite <- (JSFacts.trimStart_fix s Hst) at 1.
  now apply unwords_words.
Qed.

End WordsFacts.

Lemma normalizeString_words s :
  normalizeString s = unwords (map JS.toLowerCase (words s)).
Proof.
  rewrite (WordsFacts.canonical_unwords _ (normalizeString_canonical s)) at 1.
  f_equal. unfold normalizeString, JS.replace_ws_runs, JS.trim.
  now rewrite WordsFacts.replace_runs_words, WordsFacts.toLowerCase_words,
    WordsFacts.trimEnd_words, WordsFacts.trimStart_words.
Qed.

(* ================================================================== *)
(** ** The key encoding is reversible *)

Module BufferFacts.

Lemma char_sextet_char b5 b4 b3 b2 b1 b0 :
  Decode.char_sextet (Buffer.sextet_char b5 b4 b3 b2 b1 b0)
  = Some (b5, b4, b3, b2, b1, b0).
Proof. destruct b5, b4, b3, b2, b1, b0; reflexivity. Qed.

Lemma char_sextet_pad : Decode.char_sextet Buffer.pad = None.
Proof. reflexivity. Qed.

Lemma list_ind3 {A} (P : list A -> Prop) :
  P [] -> (forall a, P [a]) -> (forall a b, P [a; b]) ->
  (forall a b c r, P r -> P (a :: b :: c :: r)) ->
  forall l, P l.
Proof.
  intros H0 H1 H2 H3.
  fix go 1.
  intros [|a [|b [|c r]]];
    [exact H0 | apply H1 | apply H2 | apply H3; apply go].
Qed.

Ltac sextets :=
  unfold Buffer.enc1, Buffer.enc2, Buffer.enc3, Buffer.enc4;
  repeat match goal with
         | a : Buffer.byte |- _ => destruct a
         end;
  cbn [zero Decode.from_base64];
  rewrite ?char_sextet_char, ?char_sextet_pad.

Lemma from_base64_toString bs :
  Decode.from_base64 (Buffer.toString_base64 bs) = Some bs.
Proof.
  induction bs as [|a|a b|a b c r IH] using list_ind3.
  - reflexivity.
  - cbn [Buffer.toString_base64]. sextets. reflexivity.
  - cbn [Buffer.toString_base64]. sextets. reflexivity.
  - cbn [Buffer.toString_base64]. sextets. rewrite IH. reflexivity.
Qed.

Lemma toString_base64_inj bs bs' :
  Buffer.toString_base64 bs = Buffer.toString_base64 bs' -> bs = bs'.
Proof.
  intros H. apply (f_equal Decode.from_base64) in H.
  rewrite !from_base64_toString in H. congruence.
Qed.

Lemma utf8_unit_decode c fuel rest :
  Decode.toString_utf8 (S fuel) (Buffer.utf8_unit c ++ rest)%list
  = option_map (String c) (Decode.toString_utf8 fuel rest).
Proof. destruct c as [[] [] [] [] [] [] [] []]; reflexivity. Qed.

Lemma toString_utf8_from s :
  Decode.toString_utf8 (String.length s) (Buffer.from s) = Some s.
Proof.
  induction s as [|c r IH]; [reflexivity|].
  cbn [Buffer.from String.length]. rewrite utf8_unit_decode, IH. reflexivity.
Qed.

Lemma from_nonempty c r : Buffer.from (String c r) <> [].
Proof.
  cbn [Buffer.from]. unfold Buffer.utf8_unit.
  destruct (N_of_ascii c <? 128)%N; discriminate.
Qed.

Lemma utf8_unit_app_inj c l l' :
  (Buffer.utf8_unit c ++ l = Buffer.utf8_unit c ++ l')%list -> l = l'.
Proof. apply app_inv_head. Qed.

Lemma from_inj s s' : Buffer.from s = Buffer.from s' -> s = s'.
Proof.
  revert s'. induction s as [|c r IH]; intros [|c' r'] H.
  - reflexivity.
  - symmetry in H. now apply from_nonempty in H.
  - now apply from_nonempty in H.
  - cbn [Buffer.from] in H.
    assert (Hc : c = c').
    { apply (f_equal (Decode.toString_utf8 (S (String.length r)))) in H.
      rewrite !utf8_unit_decode, toString_utf8_from in H. simpl in H.
      destruct (Decode.toString_utf8 (String.length r) (Buffer.from r'));
        simpl in H; congruence. }
    subst c'. f_equal. apply IH. eapply utf8_unit_app_inj, H.
Qed.

End BufferFacts.

(* ================================================================== *)
(** ** [includes] is the substring test *)

Module IncludesFacts.

Lemma startsWith_spec s p :
  JS.startsWith s p = true <-> exists post, s = p ++ post.
Proof.
  revert s. induction p as [|a p IH]; intros s.
  - destruct s; simpl; split; eauto.
  - destruct s as [|b s]; simpl.
    + split; [discriminate | intros [post H]; discriminate].
    + rewrite Bool.andb_true_iff, Ascii.eqb_eq, IH. split.
      * intros [-> [post ->]]. eauto.
      * intros [post H]. injection H as -> ->. eauto.
Qed.

Lemma includes_spec s sub :
  JS.includes s sub = true <-> exists pre post, s = pre ++ sub ++ post.
Proof.
  split.
  - induction s as [|c r IH].
    + cbn [JS.includes]. rewrite Bool.orb_false_r. intros H.
      apply startsWith_spec in H. destruct H as [post H].
      exists EmptyString, post. exact H.
    + cbn [JS.includes]. intros H. apply Bool.orb_true_iff in H.
      destruct H as [H|H].
      * apply startsWith_spec in H. destruct H as [post H].
        exists EmptyString, post. exact H.
      * destruct (IH H) as (pre & post & ->).
        exists (String c pre), post. reflexivity.
  - intros (pre & post & ->). induction pre as [|c pre IH].
    + assert (H : JS.startsWith (sub ++ post) sub = true)
        by (apply startsWith_spec; eauto).
      simpl. destruct (sub ++ post); cbn [JS.includes]; rewrite H; reflexivity.
    + cbn [append JS.includes]. rewrite IH. apply Bool.orb_true_r.
Qed.

Lemma includes_empty s : JS.includes s EmptyString = true.
Proof. apply includes_spec. exists EmptyString, s. reflexivity. Qed.

End IncludesFacts.

(* ================================================================== *)
(** ** The identity key *)

Module KeyFacts.

Lemma list_of_append a b :
  list_ascii_of_string (a ++ b)
  = (list_ascii_of_string a ++ list_ascii_of_string b)%list.
Proof. induction a as [|c a IH]; simpl; [reflexivity | now rewrite IH]. Qed.

Lemma list_of_inj a b :
  list_ascii_of_string a = list_ascii_of_string b -> a = b.
Proof.
  intros H. apply (f_equal string_of_list_ascii) in H.
  now rewrite !string_of_list_ascii_of_string in H.
Qed.

Lemma append_inv_head a x y : a ++ x = a ++ y -> x = y.
Proof.
  intros H. apply list_of_inj.
  apply (f_equal list_ascii_of_string) in H. rewrite !list_of_append in H.
  eapply app_inv_head, H.
Qed.

Lemma append_inv_tail a x y : x ++ a = y ++ a -> x = y.
Proof.
  intros H. apply list_of_inj.
  apply (f_equal list_ascii_of_string) in H. rewrite !list_of_append in H.
  eapply app_inv_tail, H.
Qed.

Lemma createUniqueKey_inj s p t s' p' t' :
  createUniqueKey s p t = createUniqueKey s' p' t' ->
  normalizedData s p t = normalizedData s' p' t'.
Proof.
  unfold createUniqueKey. intros H.
  now apply BufferFacts.from_inj, BufferFacts.toString_base64_inj.
Qed.

End KeyFacts.

(* ================================================================== *)
(** ** The loop body of [scrapeVinyl], branch by branch *)

Section Reconcile.

Variable E : Env.
Variable preferences : list UserPreferenceRecord.t.

Lemma find_absent k rows :
  (forall row, In row rows -> ListingRow.unique_key row <> k) ->
  find (has_key k) rows = None.
Proof.
  induction rows as [|r rows IH]; intros H; simpl; [reflexivity|].
  unfold has_key at 1. destruct (String.eqb_spec (ListingRow.unique_key r) k) as [e|_].
  - exfalso. apply (H r); [now left | exact e].
  - apply IH. intros row Hin. apply H. now right.
Qed.

Lemma find_absent_keys k rows :
  ~ In k (map ListingRow.unique_key rows) -> find (has_key k) rows = None.
Proof.
  intros H. apply find_absent. intros row Hin <-.
  apply H, in_map, Hin.
Qed.

Lemma find_present k rows row :
  NoDup (map ListingRow.unique_key rows) ->
  In row rows -> ListingRow.unique_key row = k ->
  find (has_key k) rows = Some row.
Proof.
  induction rows as [|r rows IH]; intros Hnd Hin Hk; [contradiction|].
  simpl in *. inversion Hnd as [|? ? Hni Hnd']; subst.
  unfold has_key at 1.
  destruct (String.eqb_spec (ListingRow.unique_key r) (ListingRow.unique_key row)) as [e|ne].
  - destruct Hin as [->|Hin]; [reflexivity|].
    exfalso. apply Hni. rewrite e. apply in_map, Hin.
  - destruct Hin as [->|Hin]; [congruence|]. now apply IH.
Qed.

Lemma find_key k rows row :
  find (has_key k) rows = Some row -> In row rows /\ ListingRow.unique_key row = k.
Proof.
  intros H. apply find_some in H. destruct H as [Hin Hk].
  split; [exact Hin|]. now apply String.eqb_eq.
Qed.

Lemma getExistingListing_eq k s :
  getExistingListing k s
  = (Some (option_map listing_of_row (find (has_key k) (vinyl_listings (db s)))), s).
Proof. reflexivity. Qed.

Lemma reconcile_skipped listing s :
  isRelevantListing listing preferences = false ->
  reconcile E preferences listing s
  = (Some tt, set_outcomes (outcomes s ++ [(listing, Skipped)]) s).
Proof. intros H. unfold reconcile. rewrite H. reflexivity. Qed.

Lemma clashes_spec listing rows :
  existsb (clashes listing) rows = true <->
  In (VinylListing.id listing) (map ListingRow.id rows) \/
  In (VinylListing.uniqueKey listing) (map ListingRow.unique_key rows).
Proof.
  rewrite existsb_exists. unfold clashes, has_key. split.
  - intros (row & Hin & H). apply Bool.orb_true_iff in H.
    destruct H as [H|H]; apply String.eqb_eq in H; rewrite <- H;
      [left | right]; apply in_map, Hin.
  - intros [H|H]; apply in_map_iff in H; destruct H as (row & Heq & Hin);
      exists row; (split; [exact Hin|]); rewrite Heq, String.eqb_refl;
      [reflexivity | apply Bool.orb_true_r].
Qed.

Lemma clashes_none listing rows :
  ~ In (VinylListing.id listing) (map ListingRow.id rows) ->
  ~ In (VinylListing.uniqueKey listing) (map ListingRow.unique_key rows) ->
  existsb (clashes listing) rows = false.
Proof.
  intros Hid Hk. apply Bool.not_true_is_false. rewrite clashes_spec. tauto.
Qed.

Lemma insertListing_eq listing s :
  insertListing listing s
  = if existsb (clashes listing) (vinyl_listings (db s))
    then (None, s)
    else (Some tt,
          set_db (mkDatabase (vinyl_listings (db s) ++ [row_of_listing listing])
                             (price_history (db s))
                             (user_preferences (db s))) s).
Proof.
  unfold insertListing, bind, get. cbn.
  now destruct (existsb (clashes listing) (vinyl_listings (db s))).
Qed.

(** The branch of a relevant listing whose key is not stored: the insert
    decides. *)
Lemma reconcile_absent listing s :
  isRelevantListing listing preferences = true ->
  find (has_key (VinylListing.uniqueKey listing)) (vinyl_listings (db s)) = None ->
  reconcile E preferences listing s
  = if existsb (clashes listing) (vinyl_listings (db s))
    then (None, s)
    else
      (Some tt,
       mkState
         (mkDatabase
            (vinyl_listings (db s) ++ [row_of_listing listing])
            (price_history (db s) ++
               [PriceRow.mk (VinylListing.id listing) (VinylListing.price listing)
                            (clock E (date_reads s))])
            (user_preferences (db s)))
         (telegram s) (searched s) (S (date_reads s))
         (newListings s ++ [listing])
         (outcomes s ++ [(listing, New)])).
Proof.
  intros Hrel Hfind. unfold reconcile. rewrite Hrel.
  unfold bind at 1. rewrite getExistingListing_eq, Hfind.
  cbn [option_map]. unfold bind at 1. rewrite insertListing_eq.
  now destruct (existsb (clashes listing) (vinyl_listings (db s))).
Qed.

Lemma reconcile_new listing s :
  isRelevantListing listing preferences = true ->
  find (has_key (VinylListing.uniqueKey listing)) (vinyl_listings (db s)) = None ->
  ~ In (VinylListing.id listing) (ids s) ->
  reconcile E preferences listing s
  = (Some tt,
     mkState
       (mkDatabase
          (vinyl_listings (db s) ++ [row_of_listing listing])
          (price_history (db s) ++
             [PriceRow.mk (VinylListing.id listing) (VinylListing.price listing)
                          (clock E (date_reads s))])
          (user_preferences (db s)))
       (telegram s) (searched s) (S (date_reads s))
       (newListings s ++ [listing])
       (outcomes s ++ [(listing, New)])).
Proof.
  intros Hrel Hfind Hid. rewrite (reconcile_absent listing s Hrel Hfind).
  rewrite clashes_none; [reflexivity | exact Hid |].
  intros Hin. apply in_map_iff in Hin. destruct Hin as (row & Hk & Hin).
  pose proof (find_none _ _ Hfind row Hin) as Hf.
  unfold has_key in Hf. now rewrite Hk, String.eqb_refl in Hf.
Qed.

(** The insert of a listing whose id is stored is rejected: the loop body
    throws and has written nothing. *)
Lemma reconcile_rejected listing s :
  isRelevantListing listing preferences = true ->
  find (has_key (VinylListing.uniqueKey listing)) (vinyl_listings (db s)) = None ->
  In (VinylListing.id listing) (ids s) ->
  reconcile E preferences listing s = (None, s).
Proof.
  intros Hrel Hfind Hid. rewrite (reconcile_absent listing s Hrel Hfind).
  assert (H : existsb (clashes listing) (vinyl_listings (db s)) = true)
    by (apply clashes_spec; now left).
  now rewrite H.
Qed.

Lemma reconcile_seen listing s row :
  isRelevantListing listing preferences = true ->
  find (has_key (VinylListing.uniqueKey listing)) (vinyl_listings (db s)) = Some row ->
  ListingRow.price row = VinylListing.price listing ->
  reconcile E preferences listing s
  = (Some tt,
     mkState
       (mkDatabase
          (map (fun r => if has_key (VinylListing.uniqueKey listing) r
                         then ListingRow.seen (clock E (date_reads s)) r else r)
               (vinyl_listings (db s)))
          (price_history (db s))
          (user_preferences (db s)))
       (telegram s) (searched s) (S (date_reads s))
       (newListings s)
       (outcomes s ++ [(listing, SeenAgain)])).
Proof.
  intros Hrel Hfind Hp. unfold reconcile. rewrite Hrel.
  unfold bind at 1. rewrite getExistingListing_eq, Hfind.
  cbn. rewrite Hp, Z.eqb_refl. reflexivity.
Qed.

Lemma reconcile_changed listing s row :
  isRelevantListing listing preferences = true ->
  find (has_key (VinylListing.uniqueKey listing)) (vinyl_listings (db s)) = Some row ->
  ListingRow.price row <> VinylListing.price listing ->
  reconcile E preferences listing s
  = (Some tt,
     mkState
       (mkDatabase
          (map (fun r => if has_key (VinylListing.uniqueKey listing) r
                         then ListingRow.seen (clock E (date_reads s)) r else r)
               (vinyl_listings (db s)))
          (price_history (db s) ++
             [PriceRow.mk (ListingRow.id row) (VinylListing.price listing)
                          (clock E (S (date_reads s)))])
          (user_preferences (db s)))
       (telegram s) (searched s) (S (S (date_reads s)))
       (newListings s)
       (outcomes s ++ [(listing, PriceChanged)])).
Proof.
  intros Hrel Hfind Hp. unfold reconcile. rewrite Hrel.
  unfold bind at 1. rewrite getExistingListing_eq, Hfind.
  cbn. apply Z.eqb_neq in Hp. rewrite Hp. reflexivity.
Qed.

End Reconcile.

(* ================================================================== *)
(** ** A pass, step by step *)

Section Pass.

Variable E : Env.

Lemma news_of_app tr tr' : news_of (tr ++ tr') = (news_of tr ++ news_of tr')%list.
Proof. unfold news_of. now rewrite filter_app, map_app. Qed.

Lemma pass_step_ext s1 s2 s1' s2' tr :
  db s1 = db s2 -> outcomes s1 = outcomes s2 -> newListings s1 = newListings s2 ->
  db s1' = db s2' -> outcomes s1' = outcomes s2' -> newListings s1' = newListings s2' ->
  pass_step s1 s1' tr -> pass_step s2 s2' tr.
Proof.
  intros Hd Ho Hn Hd' Ho' Hn'. unfold pass_step, ids, keys.
  now rewrite Hd, Ho, Hn, Hd', Ho', Hn'.
Qed.

Lemma pass_step_refl s : pass_step s s [].
Proof.
  unfold pass_step. cbn. rewrite !app_nil_r.
  repeat split; auto using NoDup_nil.
Qed.

Lemma pass_step_trans s s' s'' tr tr' :
  pass_step s s' tr -> pass_step s' s'' tr' -> pass_step s s'' (tr ++ tr').
Proof.
  intros (Ho & Hn & Hp & Hi & Hk & Ha & Hd) (Ho' & Hn' & Hp' & Hi' & Hk' & Ha' & Hd').
  unfold pass_step. rewrite news_of_app, !map_app.
  refine (conj _ (conj _ (conj _ (conj _ (conj _ (conj _ _)))))).
  - rewrite Ho', Ho. now rewrite app_assoc.
  - rewrite Hn', Hn. now rewrite app_assoc.
  - congruence.
  - rewrite Hi', Hi. now rewrite app_assoc.
  - rewrite Hk', Hk. now rewrite app_assoc.
  - intros l H. apply in_app_or in H. destruct H as [H|H]; [now apply Ha|].
    intros Hin. apply (Ha' l H). rewrite Hk. apply in_or_app. now left.
  - apply NoDup_app; auto.
    intros k Hin Hin'.
    apply in_map_iff in Hin'. destruct Hin' as (l' & Heq & Hl').
    apply (Ha' l' Hl'). rewrite Heq, Hk. apply in_or_app. now right.
Qed.

(** The uniqueness constraint of [unique_key] survives. *)
Lemma pass_step_keys_unique s s' tr :
  pass_step s s' tr -> NoDup (keys s) -> NoDup (keys s').
Proof.
  intros (_ & _ & _ & _ & Hk & Ha & Hd) Hnd. rewrite Hk.
  apply NoDup_app; auto.
  intros k Hin Hin'. apply in_map_iff in Hin'. destruct Hin' as (l & <- & Hl).
  now apply (Ha l Hl).
Qed.

Lemma find_none_keys k rows :
  find (has_key k) rows = None -> ~ In k (map ListingRow.unique_key rows).
Proof.
  intros H Hin. apply in_map_iff in Hin. destruct Hin as (row & <- & Hin).
  pose proof (find_none _ _ H row Hin) as Hf.
  unfold has_key in Hf. now rewrite String.eqb_refl in Hf.
Qed.

Lemma keys_seen k now rows :
  map ListingRow.unique_key
      (map (fun r => if has_key k r then ListingRow.seen now r else r) rows)
  = map ListingRow.unique_key rows.
Proof.
  rewrite map_map. apply map_ext. intros r. now destruct (has_key k r).
Qed.

Lemma ids_seen k now rows :
  map ListingRow.id
      (map (fun r => if has_key k r then ListingRow.seen now r else r) rows)
  = map ListingRow.id rows.
Proof.
  rewrite map_map. apply map_ext. intros r. now destruct (has_key k r).
Qed.

(** One turn of the inner loop: the listing is classified, or its insert is
    rejected and nothing is written. *)
Lemma reconcile_step preferences listing s :
  (exists s' o,
     reconcile E preferences listing s = (Some tt, s') /\
     pass_step s s' [(listing, o)] /\
     telegram s' = telegram s /\ searched s' = searched s)
  \/
  (reconcile E preferences listing s = (None, s) /\
   isRelevantListing listing preferences = true /\
   ~ In (VinylListing.uniqueKey listing) (keys s) /\
   In (VinylListing.id listing) (ids s)).
Proof.
  destruct (isRelevantListing listing preferences) eqn:Hrel.
  - destruct (find (has_key (VinylListing.uniqueKey listing)) (vinyl_listings (db s)))
      as [row|] eqn:Hfind.
    + left.
      destruct (Z.eq_dec (ListingRow.price row) (VinylListing.price listing)) as [Hp|Hp];
        [ eexists; exists SeenAgain; split; [eapply reconcile_seen; eauto|]
        | eexists; exists PriceChanged; split; [eapply reconcile_changed; eauto|] ];
        (split; [|split; reflexivity]);
        unfold pass_step, ids, keys; cbn; rewrite keys_seen, ids_seen, !app_nil_r;
        repeat split; auto using NoDup_nil.
    + pose proof (find_none_keys _ _ Hfind) as Hk.
      destruct (in_dec string_dec (VinylListing.id listing) (ids s)) as [Hid|Hid].
      * right. split; [now apply reconcile_rejected | auto].
      * left. eexists; exists New; split; [eapply reconcile_new; eauto|].
        split; [|split; reflexivity].
        unfold pass_step, ids, keys; cbn. rewrite !map_app. cbn.
        repeat split; auto.
        -- intros l [<-|[]]. exact Hk.
        -- repeat constructor. intros [].
  - left. eexists; exists Skipped; split; [eapply reconcile_skipped; eauto|].
    split; [|split; reflexivity].
    unfold pass_step, ids, keys; cbn; rewrite !app_nil_r.
    repeat split; auto using NoDup_nil.
Qed.

(** A rejected insert is the only way for the loop body to throw, and it
    leaves the state as it was. *)
Lemma reconcile_throws preferences listing s s' :
  reconcile E preferences listing s = (None, s') -> s' = s.
Proof.
  intros H.
  destruct (reconcile_step preferences listing s) as [(s1 & o & Hr & _)|(Hr & _)];
    rewrite Hr in H; [discriminate | now injection H].
Qed.

Lemma ids_after_step s s' listing o later :
  ids s' = (ids s ++ map VinylListing.id (news_of [(listing, o)]))%list ->
  NoDup (ids s ++ VinylListing.id listing :: later) ->
  NoDup (ids s' ++ later).
Proof.
  intros -> Hnd. destruct o; cbn; rewrite ?app_nil_r;
    try (now apply NoDup_remove_1 in Hnd).
  now rewrite <- app_assoc.
Qed.

(** The inner loop: the listings are reconciled in order, to the end or up
    to the first whose insert is rejected.  When no id is met twice, none is
    rejected. *)
Lemma for_of_reconcile preferences listings :
  forall s, exists s' tr,
    pass_step s s' tr /\
    telegram s' = telegram s /\ searched s' = searched s /\
    ((for_of listings (reconcile E preferences) s = (Some tt, s') /\
      map fst tr = listings)
     \/
     (for_of listings (reconcile E preferences) s = (None, s') /\
      exists listing rest, listings = (map fst tr ++ listing :: rest)%list)) /\
    (forall later,
       NoDup (ids s ++ map VinylListing.id listings ++ later) ->
       for_of listings (reconcile E preferences) s = (Some tt, s') /\
       map fst tr = listings /\
       NoDup (ids s' ++ later)).
Proof.
  induction listings as [|l ls IH]; intros s.
  - exists s, []. pose proof (pass_step_refl s). cbn. auto 10.
  - destruct (reconcile_step preferences l s)
      as [(s1 & o & Hr & Hs & Ht & Hq)|(Hr & _ & _ & Hid)].
    + destruct (IH s1) as (s2 & tr & Hs' & Ht' & Hq' & Hcase & Hfresh).
      exists s2, ((l, o) :: tr).
      refine (conj _ (conj _ (conj _ (conj _ _)))).
      * apply (pass_step_trans s s1 s2 [(l, o)] tr); assumption.
      * congruence.
      * congruence.
      * cbn [for_of]. unfold bind. rewrite Hr.
        destruct Hcase as [(Hf & Hm)|(Hf & l' & rest & Hm)].
        -- left. cbn. now rewrite Hm.
        -- right. split; [exact Hf|]. exists l', rest. cbn. now rewrite <- Hm.
      * intros later Hnd. cbn [for_of]. unfold bind. rewrite Hr.
        destruct (Hfresh later) as (Hf & Hm & Hnd').
        { cbn [map app] in Hnd. apply (ids_after_step s s1 l o); [apply Hs | exact Hnd]. }
        cbn. now rewrite Hm.
    + exists s, []. pose proof (pass_step_refl s).
      refine (conj H (conj eq_refl (conj eq_refl (conj _ _)))).
      * right. cbn [for_of]. unfold bind. rewrite Hr.
        split; [reflexivity|]. now exists l, ls.
      * intros later Hnd. exfalso. cbn [map app] in Hnd.
        apply NoDup_remove_2 in Hnd. apply Hnd. apply in_or_app. now left.
Qed.

Lemma fetched_one n term :
  fetched E n [term]
  = match discogs E n term with Some listings => listings | None => [] end.
Proof. cbn. apply app_nil_r. Qed.

(** The turn of one artist term. *)
Lemma scrapeArtist_step delayBetweenRequests preferences artistPref s :
  let term := UserPreferenceRecord.value artistPref in
  let n := length (searched s) in
  exists s' tr errs,
    scrapeArtist E delayBetweenRequests preferences artistPref s = (Some tt, s') /\
    pass_step s s' tr /\
    artist_log E n term (map fst tr) errs /\
    telegram s' = (telegram s ++ errs)%list /\
    searched s' = (searched s ++ [term])%list /\
    (forall later,
       NoDup (ids s ++ map VinylListing.id (fetched E n [term]) ++ later) ->
       map fst tr = fetched E n [term] /\ errs = failures E n [term] /\
       NoDup (ids s' ++ later)).
Proof.
  intros term n. unfold scrapeArtist, try_catch.
  unfold bind at 1. unfold discogs_searchForArtist.
  rewrite fetched_one. cbn [failures]. fold term. fold n.
  destruct (discogs E n term) as [listings|] eqn:Hd.
  - destruct (for_of_reconcile preferences listings
                (set_searched (searched s ++ [term]) s))
      as (s' & tr & Hs & Ht & Hq & Hcase & Hfresh).
    destruct Hcase as [(Hf & Hm)|(Hf & l & rest & Hm)].
    + exists s', tr, []. unfold bind, delay, ret. rewrite Hf.
      rewrite !app_nil_r.
      refine (conj eq_refl (conj Hs (conj _ (conj Ht (conj Hq _))))).
      * rewrite Hm. now constructor.
      * intros later Hnd. destruct (Hfresh later Hnd) as (_ & _ & Hnd'). auto.
    + exists (set_telegram (telegram s' ++ [scrape_error term]) s'), tr, [scrape_error term].
      unfold bind. rewrite Hf.
      refine (conj eq_refl (conj _ (conj _ (conj _ (conj Hq _))))).
      * eapply pass_step_ext; [| | | | | |exact Hs]; reflexivity.
      * rewrite Hm in Hd. econstructor 3. exact Hd.
      * cbn. now rewrite Ht.
      * intros later Hnd. destruct (Hfresh later Hnd) as (Hf' & _).
        rewrite Hf in Hf'. discriminate.
  - exists (set_telegram (telegram s ++ [scrape_error term])
              (set_searched (searched s ++ [term]) s)), [], [scrape_error term].
    refine (conj eq_refl (conj _ (conj _ (conj eq_refl (conj eq_refl _))))).
    + eapply pass_step_ext; [| | | | | |apply (pass_step_refl s)]; reflexivity.
    + now constructor.
    + intros later Hnd. repeat split. exact Hnd.
Qed.

(** The outer loop. *)
Lemma for_of_scrapeArtist delayBetweenRequests preferences artistPrefs :
  forall s,
  let terms := map UserPreferenceRecord.value artistPrefs in
  let n := length (searched s) in
  exists s' tr errs,
    for_of artistPrefs (scrapeArtist E delayBetweenRequests preferences) s
      = (Some tt, s') /\
    pass_step s s' tr /\
    pass_log E n terms (map fst tr) errs /\
    telegram s' = (telegram s ++ errs)%list /\
    searched s' = (searched s ++ terms)%list /\
    (forall later,
       NoDup (ids s ++ map VinylListing.id (fetched E n terms) ++ later) ->
       map fst tr = fetched E n terms /\ errs = failures E n terms /\
       NoDup (ids s' ++ later)).
Proof.
  induction artistPrefs as [|p ps IH]; intros s; cbn zeta.
  - exists s, [], []. cbn. rewrite !app_nil_r.
    refine (conj eq_refl (conj (pass_step_refl s) (conj _ (conj eq_refl (conj eq_refl _))))).
    + constructor.
    + intros later Hnd. auto.
  - destruct (scrapeArtist_step delayBetweenRequests preferences p s)
      as (s1 & tr1 & e1 & Hr & Hs & Hl & Ht & Hq & Hfresh).
    destruct (IH s1) as (s2 & tr2 & e2 & Hr' & Hs' & Hl' & Ht' & Hq' & Hfresh').
    assert (Hlen : length (searched s1) = S (length (searched s)))
      by (rewrite Hq, length_app; cbn; lia).
    rewrite Hlen in *.
    exists s2, (tr1 ++ tr2)%list, (e1 ++ e2)%list.
    refine (conj _ (conj _ (conj _ (conj _ (conj _ _))))).
    + cbn [for_of]. unfold bind. now rewrite Hr.
    + eapply pass_step_trans; eauto.
    + rewrite map_app. cbn [map]. now constructor.
    + rewrite Ht', Ht. now rewrite app_assoc.
    + rewrite Hq', Hq. cbn. now rewrite <- app_assoc.
    + intros later Hnd.
      change (map UserPreferenceRecord.value (p :: ps))
        with (UserPreferenceRecord.value p :: map UserPreferenceRecord.value ps) in *.
      set (term := UserPreferenceRecord.value p) in *.
      set (terms := map UserPreferenceRecord.value ps) in *.
      assert (Hfe : fetched E (length (searched s)) (term :: terms)
                    = (fetched E (length (searched s)) [term]
                       ++ fetched E (S (length (searched s))) terms)%list)
        by (cbn; now rewrite app_nil_r).
      assert (Hfa : failures E (length (searched s)) (term :: terms)
                    = (failures E (length (searched s)) [term]
                       ++ failures E (S (length (searched s))) terms)%list)
        by (cbn; now rewrite app_nil_r).
      rewrite Hfe, Hfa. rewrite Hfe, map_app, <- app_assoc in Hnd.
      destruct (Hfresh _ Hnd) as (Hm1 & He1 & Hnd1).
      destruct (Hfresh' _ Hnd1) as (Hm2 & He2 & Hnd2).
      rewrite map_app, Hm1, Hm2, He1, He2. auto.
Qed.

(** What the error notifications of a pass are. *)
Lemma pass_log_batches n terms reconciled reported :
  pass_log E n terms reconciled reported -> batches reported = [].
Proof.
  induction 1 as [|n term terms v e v' e' Ha _ IH]; [reflexivity|].
  assert (He : batches e = []) by (destruct Ha; reflexivity).
  clear Ha. induction e as [|[l|err src] e IHe]; cbn in *; auto. discriminate.
Qed.

Lemma pass_log_incl n terms reconciled reported :
  pass_log E n terms reconciled reported -> incl reconciled (fetched E n terms).
Proof.
  induction 1 as [|n term terms v e v' e' Ha _ IH]; [apply incl_refl|].
  cbn [fetched]. apply incl_app.
  - apply incl_appl. destruct Ha as [H|listings H|done l rest H]; rewrite ?H.
    + apply incl_refl.
    + apply incl_refl.
    + apply incl_appl, incl_refl.
  - apply incl_appr, IH.
Qed.



End Pass.

Section ScrapeVinyl.

Variable E : Env.

Lemma artist_terms_preferences s :
  map UserPreferenceRecord.value (filter (of_type Artist) (preferences_of s))
  = artist_terms s.
Proof.
  unfold artist_terms, preferences_of.
  induction (user_preferences (db s)) as [|row rows IH]; [reflexivity|].
  cbn. unfold of_type at 1. cbn.
  destruct (PreferenceType_eqb (PreferenceRow.type row) Artist); cbn; now rewrite IH.
Qed.

Lemma length_pos_batch (news : list VinylListing.t) (s : State) :
  (if (0 <? length news)%nat
   then telegram_call (sendBatchNotification news)
   else ret tt) s
  = (Some tt, set_telegram (telegram s ++ batch news) s).
Proof.
  destruct news; cbn; [|reflexivity].
  rewrite app_nil_r. now destruct s.
Qed.

(** What one pass does, as a whole. *)
Lemma scrapeVinyl_run delayBetweenRequests s :
  let n := length (searched s) in
  let terms := artist_terms s in
  exists s' tr errs,
    scrapeVinyl E delayBetweenRequests s = (Some tt, s') /\
    pass_step (set_newListings [] s) s' tr /\
    pass_log E n terms (map fst tr) errs /\
    telegram s' = (telegram s ++ errs ++ batch (news_of tr))%list /\
    searched s' = (searched s ++ terms)%list /\
    (fresh_ids s (fetched E n terms) ->
     map fst tr = fetched E n terms /\ errs = failures E n terms).
Proof.
  intros n terms.
  destruct (for_of_scrapeArtist E delayBetweenRequests (preferences_of s)
              (filter (of_type Artist) (preferences_of s))
              (set_newListings [] s))
    as (s1 & tr & errs & Hr & Hs & Hl & Ht & Hq & Hfresh).
  cbn zeta in *. rewrite artist_terms_preferences in *.
  change (length (searched (set_newListings [] s))) with n in *.
  change (telegram (set_newListings [] s)) with (telegram s) in *.
  change (searched (set_newListings [] s)) with (searched s) in *.
  change (ids (set_newListings [] s)) with (ids s) in *.
  fold terms in Hl, Hq, Hfresh.
  assert (Hn : newListings s1 = news_of tr) by apply Hs.
  exists (set_telegram (telegram s1 ++ batch (newListings s1)) s1), tr, errs.
  refine (conj _ (conj _ (conj Hl (conj _ (conj Hq _))))).
  - unfold scrapeVinyl, try_catch.
    unfold bind at 1. unfold getUserPreferences, bind at 1, get, ret.
    fold (preferences_of s).
    unfold bind at 1, modify. unfold bind at 1. rewrite Hr.
    unfold bind, get. rewrite length_pos_batch. reflexivity.
  - eapply pass_step_ext; [| | | | | |exact Hs]; reflexivity.
  - cbn. rewrite Ht, Hn. now rewrite app_assoc.
  - intros Hnd. unfold fresh_ids in Hnd.
    destruct (Hfresh []) as (Hm & He & _); [now rewrite app_nil_r | auto].
Qed.

(** A pass over a preference table without artist terms only clears the
    local array. *)
Lemma scrapeVinyl_no_artist delayBetweenRequests s :
  artist_terms s = [] ->
  scrapeVinyl E delayBetweenRequests s = (Some tt, set_newListings [] s).
Proof.
  intros H. rewrite <- artist_terms_preferences in H.
  apply map_eq_nil in H.
  unfold scrapeVinyl, try_catch.
  unfold bind at 1. unfold getUserPreferences, bind at 1, get, ret.
  fold (preferences_of s). rewrite H. reflexivity.
Qed.

(** The uniqueness constraint of [unique_key] survives every pass. *)
Lemma scrapeVinyl_keeps_keys_unique delayBetweenRequests s :
  NoDup (keys s) -> NoDup (keys (exec (scrapeVinyl E delayBetweenRequests) s)).
Proof.
  intros H.
  destruct (scrapeVinyl_run delayBetweenRequests s) as (s' & tr & errs & Hr & Hs & _).
  unfold exec. rewrite Hr. cbn. now apply (pass_step_keys_unique _ _ _ Hs).
Qed.

End ScrapeVinyl.

(* ================================================================== *)
(** ** Relevance *)

Section Relevance.

Lemma PreferenceType_eqb_eq a b : PreferenceType_eqb a b = true <-> a = b.
Proof. destruct a, b; simpl; split; congruence. Qed.

Lemma existsb_filter {A} (f g : A -> bool) l :
  existsb f (filter g l) = true <->
  exists x, In x l /\ g x = true /\ f x = true.
Proof.
  rewrite existsb_exists. split.
  - intros (x & Hin & Hf). apply filter_In in Hin. destruct Hin. eauto.
  - intros (x & Hin & Hg & Hf). exists x. split; [|exact Hf].
    apply filter_In. auto.
Qed.

Lemma filter_weaken {A} (f g : A -> bool) l :
  (forall x, f x = true -> g x = true) ->
  filter f (filter g l) = filter f l.
Proof.
  intros H. induction l as [|x l IH]; [reflexivity|]. cbn.
  destruct (g x) eqn:Hg; cbn.
  - now rewrite IH.
  - destruct (f x) eqn:Hf; [|exact IH].
    apply H in Hf. congruence.
Qed.

Lemma isRelevantListing_spec listing preferences :
  isRelevantListing listing preferences = true <->
  (exists p, In p preferences /\ UserPreferenceRecord.type p = Artist /\
     contains (normalizeString (VinylListing.artist listing))
              (normalizeString (UserPreferenceRecord.value p)))
  \/
  (exists p, In p preferences /\ UserPreferenceRecord.type p = Album /\
     contains (normalizeString (VinylListing.title listing))
              (normalizeString (UserPreferenceRecord.value p))).
Proof.
  unfold isRelevantListing. cbn zeta.
  rewrite Bool.orb_true_iff, !existsb_filter. unfold of_type, contains.
  split; (intros [(p & Hin & Ht & Hs)|(p & Hin & Ht & Hs)]; [left|right];
          exists p; (split; [exact Hin|]); split);
    try (now apply PreferenceType_eqb_eq);
    now apply IncludesFacts.includes_spec.
Qed.

Lemma isRelevantListing_not_genre listing preferences :
  isRelevantListing listing (filter not_genre preferences)
  = isRelevantListing listing preferences.
Proof.
  unfold isRelevantListing. cbn zeta.
  rewrite !filter_weaken; [reflexivity| |];
    intros p; unfold of_type, not_genre;
    destruct (UserPreferenceRecord.type p); simpl; congruence.
Qed.

End Relevance.

(* ================================================================== *)
(** ** Main theorems *)

(** C1.  A candidate is relevant exactly when its normalized artist contains
    the normalized value of some artist preference, or its normalized title
    contains the normalized value of some album preference.  Preferences of
    type genre have no part in the decision: two preference lists that agree
    outside their genre entries give the same answer.  An irrelevant
    candidate changes neither the tables nor the batch of new listings nor
    the notifications; it is only recorded as skipped. *)
Theorem C1_relevance :
  forall (E : Env) (preferences preferences' : list UserPreferenceRecord.t)
         (listing : VinylListing.t) (s : State),
    (isRelevantListing listing preferences = true <->
       (exists p, In p preferences /\ UserPreferenceRecord.type p = Artist /\
          contains (normalizeString (VinylListing.artist listing))
                   (normalizeString (UserPreferenceRecord.value p)))
       \/
       (exists p, In p preferences /\ UserPreferenceRecord.type p = Album /\
          contains (normalizeString (VinylListing.title listing))
                   (normalizeString (UserPreferenceRecord.value p))))
    /\
    (filter not_genre preferences = filter not_genre preferences' ->
     isRelevantListing listing preferences = isRelevantListing listing preferences')
    /\
    (isRelevantListing listing preferences = false ->
     let s' := exec (reconcile E preferences listing) s in
     fst (reconcile E preferences listing s) = Some tt /\
     db s' = db s /\ newListings s' = newListings s /\
     telegram s' = telegram s /\ date_reads s' = date_reads s /\
     outcomes s' = (outcomes s ++ [(listing, Skipped)])%list).
Proof.
  intros E preferences preferences' listing s.
  split; [apply isRelevantListing_spec|]. split.
  - intros H.
    rewrite <- (isRelevantListing_not_genre listing preferences),
            <- (isRelevantListing_not_genre listing preferences').
    now rewrite H.
  - intros H. unfold exec. rewrite (reconcile_skipped E preferences listing s H).
    cbn. repeat split; reflexivity.
Qed.

Lemma C1_relevance_witness :
  let s' := exec (reconcile (discogs_env Scenario.clk Scenario.net_up)
                    [UserPreferenceRecord.mk Genre "pink floyd" 0%Z]
                    Scenario.listing) Scenario.fresh in
  db s' = db Scenario.fresh /\ newListings s' = [] /\ telegram s' = [].
Proof.
  destruct (C1_relevance (discogs_env Scenario.clk Scenario.net_up)
              [UserPreferenceRecord.mk Genre "pink floyd" 0%Z] []
              Scenario.listing Scenario.fresh) as (_ & _ & H).
  destruct (H eq_refl) as (_ & Hd & Hn & Ht & _). auto.
Defined.


Lemma client_listing_getMarketplaceListings r listing :
  In listing (DiscogsService.getMarketplaceListings r) ->
  DiscogsService.client_listing listing.
Proof.
  destruct r as [[ls|]|a|]; cbn; try contradiction; intros H.
  - apply in_map_iff in H. destruct H as ([raw st] & <- & Hin).
    apply filter_In in Hin. now constructor.
  - unfold DiscogsService.getListingsAlternative in H.
    destruct (DiscogsService.alt_release a) as [rd|]; [|contradiction].
    destruct (match DiscogsService.alt_in_marketplace a with
              | Some n0 => if (0 <? n0)%Z then (true, Z.to_nat (Z.min n0 3)) else (false, 1%nat)
              | None => (false, 1%nat)
              end) as [has count].
    destruct (has || DiscogsService.isPopularRelease rd); [|contradiction].
    unfold DiscogsService.createRealisticListings in H.
    apply in_map_iff in H. destruct H as (j & <- & _). constructor.
Qed.

Lemma client_listing_collectListings net n rs :
  forall i listing,
    In listing (DiscogsService.collectListings net n i rs) ->
    DiscogsService.client_listing listing.
Proof.
  induction rs as [|r rs IH]; intros i listing; cbn; [contradiction|].
  intros H. apply in_app_or in H. destruct H as [H|H].
  - eapply client_listing_getMarketplaceListings, H.
  - eapply IH, H.
Qed.

Lemma client_listing_searchForArtist net n artistName listing :
  In listing (DiscogsService.searchForArtist net n artistName) ->
  DiscogsService.client_listing listing.
Proof.
  unfold DiscogsService.searchForArtist.
  destruct (DiscogsService.searchReleases net n artistName) as [releases|].
  - apply client_listing_collectListings.
  - cbn. contradiction.
Qed.



(** C3.  When the table holds a row with the candidate's key at another
    price, reconciling the relevant candidate keeps the number of rows (no
    second insert), stamps that row with the time read and marks it active,
    leaves the rows of other keys alone, appends exactly one price
    observation at the candidate's price under the stored row's id, and does
    not add the candidate to the batch of new listings. *)
Theorem C3_price_changed :
  forall (E : Env) (preferences : list UserPreferenceRecord.t)
         (listing : VinylListing.t) (s : State) (row : ListingRow.t),
    NoDup (keys s) ->
    In row (vinyl_listings (db s)) ->
    ListingRow.unique_key row = VinylListing.uniqueKey listing ->
    ListingRow.price row <> VinylListing.price listing ->
    isRelevantListing listing preferences = true ->
    let s' := exec (reconcile E preferences listing) s in
    let now := clock E (date_reads s) in
    fst (reconcile E preferences listing s) = Some tt /\
    length (vinyl_listings (db s')) = length (vinyl_listings (db s)) /\
    find (has_key (VinylListing.uniqueKey listing)) (vinyl_listings (db s'))
      = Some (ListingRow.seen now row) /\
    ListingRow.last_seen (ListingRow.seen now row) = now /\
    ListingRow.is_active (ListingRow.seen now row) = true /\
    (forall r, In r (vinyl_listings (db s)) ->
       ListingRow.unique_key r <> VinylListing.uniqueKey listing ->
       In r (vinyl_listings (db s'))) /\
    price_history (db s') =
      (price_history (db s) ++
         [PriceRow.mk (ListingRow.id row) (VinylListing.price listing)
                      (clock E (S (date_reads s)))])%list /\
    newListings s' = newListings s /\
    outcomes s' = (outcomes s ++ [(listing, PriceChanged)])%list.
Proof.
  intros E preferences listing s row Hnd Hin Hk Hp Hrel.
  pose proof (find_present _ _ _ Hnd Hin Hk) as Hfind.
  unfold exec. rewrite (reconcile_changed E preferences listing s row Hrel Hfind Hp).
  cbn.
  refine (conj eq_refl (conj _ (conj _ (conj eq_refl (conj eq_refl
            (conj _ (conj eq_refl (conj eq_refl eq_refl)))))))).
  - apply length_map.
  - apply find_present.
    + unfold keys in Hnd. now rewrite keys_seen.
    + apply in_map_iff. exists row. split; [|exact Hin].
      unfold has_key. rewrite Hk, String.eqb_refl. reflexivity.
    + exact Hk.
  - intros r Hr Hne. apply in_map_iff. exists r. split; [|exact Hr].
    unfold has_key. now apply String.eqb_neq in Hne as ->.
Qed.

Lemma C3_price_changed_witness :
  let E := discogs_env Scenario.clk Scenario.net_up in
  let s' := exec (reconcile E Scenario.preferences Scenario.candidate_120)
                 Scenario.holding_100 in
  length (vinyl_listings (db s')) = 1%nat /\
  price_history (db s') = [PriceRow.mk "uuid-2" 120%Z 2001%Z] /\
  newListings s' = [].
Proof.
  destruct (C3_price_changed (discogs_env Scenario.clk Scenario.net_up)
              Scenario.preferences Scenario.candidate_120 Scenario.holding_100
              (row_of_listing Scenario.stored_100))
    as (_ & Hlen & _ & _ & _ & _ & Hph & Hnew & _).
  - repeat constructor. simpl. tauto.
  - simpl. left. reflexivity.
  - vm_compute. reflexivity.
  - vm_compute. discriminate.
  - vm_compute. reflexivity.
  - auto.
Defined.

(* ------------------------------------------------------------------ *)
(** *** Sighting a listing again at another price *)

Section PriceDiffers.

Variable E : Env.
Variable preferences : list UserPreferenceRecord.t.

Lemma find_seen k now rows :
  find (has_key k)
       (map (fun r => if has_key k r then ListingRow.seen now r else r) rows)
  = option_map (ListingRow.seen now) (find (has_key k) rows).
Proof.
  induction rows as [|r rows IH]; [reflexivity|]. cbn.
  destruct (has_key k r) eqn:Hk.
  - change (has_key k (ListingRow.seen now r)) with (has_key k r).
    rewrite Hk. reflexivity.
  - rewrite Hk. exact IH.
Qed.

Lemma frame_seen k now rows :
  map frame (map (fun r => if has_key k r then ListingRow.seen now r else r) rows)
  = map frame rows.
Proof.
  rewrite map_map. apply map_ext. intros r. now destruct (has_key k r).
Qed.

Lemma reconcile_changed_repeat listing n :
  isRelevantListing listing preferences = true ->
  forall s row,
    find (has_key (VinylListing.uniqueKey listing)) (vinyl_listings (db s)) = Some row ->
    ListingRow.price row <> VinylListing.price listing ->
    let s' := exec (for_of (repeat listing n) (reconcile E preferences)) s in
    map frame (vinyl_listings (db s')) = map frame (vinyl_listings (db s)) /\
    price_history (db s') =
      (price_history (db s) ++
         map (fun i => PriceRow.mk (ListingRow.id row) (VinylListing.price listing)
                         (clock E (2 * i + S (date_reads s))))
             (seq 0 n))%list /\
    outcomes s' = (outcomes s ++ repeat (listing, PriceChanged) n)%list /\
    newListings s' = newListings s /\
    exists row',
      find (has_key (VinylListing.uniqueKey listing)) (vinyl_listings (db s')) = Some row' /\
      frame row' = frame row.
Proof.
  intros Hrel. induction n as [|n IH]; intros s row Hfind Hp.
  - cbn. rewrite !app_nil_r. eauto 10.
  - cbn [repeat for_of]. unfold exec, bind.
    rewrite (reconcile_changed E preferences listing s row Hrel Hfind Hp).
    match goal with |- context [for_of _ _ ?st] => set (s1 := st) end.
    specialize (IH s1 (ListingRow.seen (clock E (date_reads s)) row)).
    destruct IH as (Hf & Hh & Ho & Hn & row' & Hfind' & Hfr).
    + subst s1. cbn. now rewrite find_seen, Hfind.
    + exact Hp.
    + unfold exec in *. cbn zeta.
      refine (conj _ (conj _ (conj _ (conj _ _)))).
      * rewrite Hf. subst s1. cbn. apply frame_seen.
      * rewrite Hh. subst s1. cbn. rewrite <- app_assoc. f_equal. cbn. f_equal.
        rewrite <- seq_shift, map_map. apply map_ext. intros i.
        do 2 f_equal. lia.
      * rewrite Ho. subst s1. cbn. now rewrite <- app_assoc.
      * rewrite Hn. reflexivity.
      * exists row'. split; [exact Hfind'|]. rewrite Hfr. reflexivity.
Qed.

End PriceDiffers.

(** C9.  On the price-differs path every column of every stored row other
    than [last_seen] and [is_active] keeps its value, the price among them,
    and no row is added or removed; only [price_history] grows.  So however
    often the candidate is seen again at its new price, the comparison is
    made against the old stored price each time and each sighting appends
    one more observation. *)
Theorem C9_stored_price_frozen :
  forall (E : Env) (preferences : list UserPreferenceRecord.t)
         (listing : VinylListing.t) (s : State) (row : ListingRow.t) (n : nat),
    NoDup (keys s) ->
    In row (vinyl_listings (db s)) ->
    ListingRow.unique_key row = VinylListing.uniqueKey listing ->
    ListingRow.price row <> VinylListing.price listing ->
    isRelevantListing listing preferences = true ->
    let s' := exec (for_of (repeat listing n) (reconcile E preferences)) s in
    map frame (vinyl_listings (db s')) = map frame (vinyl_listings (db s)) /\
    (exists row',
       find (has_key (VinylListing.uniqueKey listing)) (vinyl_listings (db s')) = Some row' /\
       frame row' = frame row /\ ListingRow.price row' = ListingRow.price row) /\
    price_history (db s') =
      (price_history (db s) ++
         map (fun i => PriceRow.mk (ListingRow.id row) (VinylListing.price listing)
                         (clock E (2 * i + S (date_reads s))))
             (seq 0 n))%list /\
    outcomes s' = (outcomes s ++ repeat (listing, PriceChanged) n)%list.
Proof.
  intros E preferences listing s row n Hnd Hin Hk Hp Hrel.
  pose proof (find_present _ _ _ Hnd Hin Hk) as Hfind.
  destruct (reconcile_changed_repeat E preferences listing n Hrel s row Hfind Hp)
    as (Hf & Hh & Ho & _ & row' & Hfind' & Hfr).
  cbn zeta. refine (conj Hf (conj _ (conj Hh Ho))).
  exists row'. refine (conj Hfind' (conj Hfr _)).
  change (ListingRow.price (frame row') = ListingRow.price (frame row)).
  now rewrite Hfr.
Qed.

Lemma C9_stored_price_frozen_witness :
  let E := discogs_env Scenario.clk Scenario.net_up in
  let s' := exec (for_of (repeat Scenario.candidate_120 3)
                         (reconcile E Scenario.preferences)) Scenario.holding_100 in
  price_history (db s') =
    [PriceRow.mk "uuid-2" 120%Z 2001%Z; PriceRow.mk "uuid-2" 120%Z 2003%Z;
     PriceRow.mk "uuid-2" 120%Z 2005%Z] /\
  outcomes s' = repeat (Scenario.candidate_120, PriceChanged) 3.
Proof.
  destruct (C9_stored_price_frozen (discogs_env Scenario.clk Scenario.net_up)
              Scenario.preferences Scenario.candidate_120 Scenario.holding_100
              (row_of_listing Scenario.stored_100) 3)
    as (_ & _ & Hph & Ho).
  - repeat constructor. simpl. tauto.
  - simpl. left. reflexivity.
  - vm_compute. reflexivity.
  - vm_compute. discriminate.
  - vm_compute. reflexivity.
  - auto.
Defined.

(* ------------------------------------------------------------------ *)
(** *** Whole passes *)

Lemma find_app_new k (rows : list ListingRow.t) row :
  find (has_key k) rows = None -> ListingRow.unique_key row = k ->
  find (has_key k) (rows ++ [row]) = Some row.
Proof.
  intros Hnone Hk. induction rows as [|r rows IH]; cbn in *.
  - unfold has_key. rewrite Hk, String.eqb_refl. reflexivity.
  - destruct (has_key k r); [discriminate | auto].
Qed.

Lemma batches_app a b : batches (a ++ b) = (batches a ++ batches b)%list.
Proof.
  induction a as [|[l|e src] a IH]; cbn; [reflexivity| |]; now rewrite IH.
Qed.



Lemma batches_failures E n terms : batches (failures E n terms) = [].
Proof.
  revert n. induction terms as [|t ts IH]; intros n; cbn; [reflexivity|].
  rewrite batches_app, IH. now destruct (discogs E n t).
Qed.

Lemma batches_batch news :
  batches (batch news) = match news with [] => [] | _ :: _ => [news] end.
Proof. now destruct news. Qed.


Lemma failures_discogs_env clk net n terms :
  failures (discogs_env clk net) n terms = [].
Proof. revert n. induction terms as [|t ts IH]; intros n; cbn; auto. Qed.

Lemma in_artist_terms s term :
  In term (artist_terms s) <->
  exists row, In row (user_preferences (db s)) /\
              PreferenceRow.type row = Artist /\ PreferenceRow.value row = term.
Proof.
  unfold artist_terms. rewrite in_map_iff. split.
  - intros (row & Hv & Hin). apply filter_In in Hin. destruct Hin as [Hin Ht].
    apply PreferenceType_eqb_eq in Ht. eauto.
  - intros (row & Hin & Ht & Hv). exists row. split; [exact Hv|].
    apply filter_In. split; [exact Hin|]. now apply PreferenceType_eqb_eq.
Qed.

(** C6.  Two relevant candidates with the same key, absent from the table,
    reconciled one after the other: the first is classified [New], the
    second [SeenAgain], or [PriceChanged] when their prices differ, for the
    row of the first is in the table when the second is looked up.  One row
    is added, that of the first; the first alone joins the batch of new
    listings; the price history gains the observation of the first and, only
    when the prices differ, one for the second under the id of the first.
    In every pass the listings classified [New] are the batch of new
    listings and the rows added, and they carry pairwise distinct keys, none
    of which the table held before: no key is classified [New] twice. *)
Theorem C6_new_once :
  forall (E : Env) (delayBetweenRequests : Z)
         (preferences : list UserPreferenceRecord.t)
         (first second : VinylListing.t) (s : State),
    (isRelevantListing first preferences = true ->
     isRelevantListing second preferences = true ->
     VinylListing.uniqueKey second = VinylListing.uniqueKey first ->
     ~ In (VinylListing.uniqueKey first) (keys s) ->
     ~ In (VinylListing.id first) (ids s) ->
     let same := (VinylListing.price first =? VinylListing.price second)%Z in
     let s' := exec (for_of [first; second] (reconcile E preferences)) s in
     fst (for_of [first; second] (reconcile E preferences) s) = Some tt /\
     outcomes s' =
       (outcomes s ++
          [(first, New); (second, if same then SeenAgain else PriceChanged)])%list /\
     newListings s' = (newListings s ++ [first])%list /\
     keys s' = (keys s ++ [VinylListing.uniqueKey first])%list /\
     ids s' = (ids s ++ [VinylListing.id first])%list /\
     price_history (db s') =
       (price_history (db s) ++
          PriceRow.mk (VinylListing.id first) (VinylListing.price first)
                      (clock E (date_reads s))
          :: (if same then []
              else [PriceRow.mk (VinylListing.id first) (VinylListing.price second)
                                (clock E (S (S (date_reads s))))]))%list)
    /\
    (exists tr errs,
       let s' := exec (scrapeVinyl E delayBetweenRequests) s in
       outcomes s' = (outcomes s ++ tr)%list /\
       pass_log E (length (searched s)) (artist_terms s) (map fst tr) errs /\
       newListings s' = news_of tr /\
       keys s' = (keys s ++ map VinylListing.uniqueKey (newListings s'))%list /\
       NoDup (map VinylListing.uniqueKey (newListings s')) /\
       (forall l, In l (newListings s') -> ~ In (VinylListing.uniqueKey l) (keys s)) /\
       (fresh_ids s (fetched E (length (searched s)) (artist_terms s)) ->
        map fst tr = fetched E (length (searched s)) (artist_terms s))).
Proof.
  intros E d preferences first second s. split.
  - intros Hrel Hrel' Hk Habs Hid. apply find_absent_keys in Habs.
    cbn zeta. cbn [for_of]. unfold exec, bind.
    rewrite (reconcile_new E preferences first s Hrel Habs Hid).
    match goal with |- context [reconcile _ _ _ ?st] => set (s1 := st) end.
    assert (Hfind : find (has_key (VinylListing.uniqueKey second)) (vinyl_listings (db s1))
                    = Some (row_of_listing first)).
    { subst s1. cbn. rewrite Hk. now apply find_app_new. }
    destruct (Z.eqb_spec (VinylListing.price first) (VinylListing.price second)) as [Hp|Hp].
    + rewrite (reconcile_seen E preferences second s1 (row_of_listing first) Hrel' Hfind Hp).
      unfold ids, keys. cbn. rewrite keys_seen, ids_seen, !map_app, <- !app_assoc.
      repeat split; reflexivity.
    + rewrite (reconcile_changed E preferences second s1 (row_of_listing first) Hrel' Hfind Hp).
      unfold ids, keys. cbn. rewrite keys_seen, ids_seen, !map_app, <- !app_assoc.
      repeat split; reflexivity.
  - destruct (scrapeVinyl_run E d s) as (s' & tr & errs & Hr & Hs & Hl & _ & _ & Hf).
    destruct Hs as (Ho & Hn & _ & _ & Hk & Ha & Hd).
    exists tr, errs. unfold exec. rewrite Hr. cbn [snd].
    cbn in Hn. rewrite Hn.
    refine (conj Ho (conj Hl (conj eq_refl (conj Hk (conj Hd (conj Ha _)))))).
    intros Hfresh. now apply Hf.
Qed.

Lemma C6_new_once_witness :
  let E := discogs_env Scenario.clk Scenario.net_up in
  let s' := exec (for_of [Scenario.listing; Scenario.listing_again]
                         (reconcile E Scenario.preferences)) Scenario.fresh in
  (outcomes s' = [(Scenario.listing, New); (Scenario.listing_again, SeenAgain)] /\
   newListings s' = [Scenario.listing] /\
   ids s' = ["uuid-1"] /\
   price_history (db s') = [PriceRow.mk "uuid-1" 50%Z 2000%Z]) /\
  (exists tr,
     outcomes (exec (scrapeVinyl E 0) Scenario.holding_100) = tr /\
     map fst tr = [Scenario.listing]).
Proof.
  destruct (C6_new_once (discogs_env Scenario.clk Scenario.net_up) 0
              Scenario.preferences Scenario.listing Scenario.listing_again
              Scenario.fresh) as (Htwice & _).
  destruct (C6_new_once (discogs_env Scenario.clk Scenario.net_up) 0
              Scenario.preferences Scenario.listing Scenario.listing_again
              Scenario.holding_100) as (_ & tr & errs & Ho & _ & _ & _ & _ & _ & Hf).
  split.
  - destruct Htwice as (_ & Ho' & Hn & _ & Hi & Hp).
    + reflexivity.
    + reflexivity.
    + reflexivity.
    + simpl. tauto.
    + simpl. tauto.
    + auto.
  - exists tr. split; [exact Ho|]. apply Hf.
    repeat constructor; simpl; intuition discriminate.
Defined.

(** C5, as the code has it.  The listings a pass classifies [New] are kept in
    one sequence, in the order in which they were discovered: the artist
    terms are taken in order, and the candidates of each in the order of the
    answer, to its end or up to a candidate whose insert the table rejects.
    When that sequence is not empty it is handed to [sendBatchNotification]
    exactly once, as the last call of the pass, after the error
    notifications; when it is empty the notifier is not handed anything.
    When no id is met twice, every candidate fetched is reconciled and the
    only errors reported are the searches that threw. *)
Theorem C5_batch_once_if_any :
  forall (E : Env) (delayBetweenRequests : Z) (s : State),
  exists tr errs,
    let s' := exec (scrapeVinyl E delayBetweenRequests) s in
    let n := length (searched s) in
    let terms := artist_terms s in
    outcomes s' = (outcomes s ++ tr)%list /\
    pass_log E n terms (map fst tr) errs /\
    newListings s' = news_of tr /\
    batches (telegram s') =
      (batches (telegram s) ++
         match newListings s' with [] => [] | _ :: _ => [newListings s'] end)%list /\
    telegram s' = (telegram s ++ errs ++ batch (newListings s'))%list /\
    (fresh_ids s (fetched E n terms) ->
     map fst tr = fetched E n terms /\ errs = failures E n terms).
Proof.
  intros E d s.
  destruct (scrapeVinyl_run E d s) as (s' & tr & errs & Hr & Hs & Hl & Ht & _ & Hf).
  destruct Hs as (Ho & Hn & _).
  exists tr, errs. unfold exec. rewrite Hr. cbn [snd]. cbn in Hn. rewrite Hn.
  refine (conj Ho (conj Hl (conj eq_refl (conj _ (conj Ht Hf))))).
  rewrite Ht, !batches_app, (pass_log_batches E _ _ _ _ Hl), batches_batch. reflexivity.
Qed.

Lemma C5_batch_once_if_any_witness :
  let E := discogs_env Scenario.clk Scenario.net_up in
  exists tr : list (VinylListing.t * Outcome),
    map fst tr = [Scenario.listing] /\
    telegram (exec (scrapeVinyl E 0) Scenario.fresh)
    = batch (newListings (exec (scrapeVinyl E 0) Scenario.fresh)).
Proof.
  destruct (C5_batch_once_if_any (discogs_env Scenario.clk Scenario.net_up) 0 Scenario.fresh)
    as (tr & errs & _ & _ & _ & _ & Ht & Hf).
  destruct Hf as (Hm & He).
  - repeat constructor. simpl. tauto.
  - exists tr. split; [exact Hm|]. rewrite Ht, He. reflexivity.
Defined.

(** C5 as stated fails: a pass that only meets a listing it already holds
    hands nothing to the notifier, not one batch. *)
Lemma C5_no_batch_when_nothing_new :
  let E := discogs_env Scenario.clk Scenario.net_up in
  let s' := exec (scrapeVinyl E 0) Scenario.known in
  outcomes s' = [(Scenario.listing, SeenAgain)] /\
  length (batches (telegram s')) = 0%nat /\
  length (batches (telegram s')) <> 1%nat.
Proof. vm_compute. repeat split. discriminate. Qed.



(** C10.  A pass searches the marketplace for the values of the artist
    preferences, in table order, and for nothing else: every searched term is
    the value of a preference row of type artist.  With no artist term the
    pass makes no search, classifies nothing, and leaves the tables and the
    notifier untouched. *)
Theorem C10_only_artists_searched :
  forall (E : Env) (delayBetweenRequests : Z) (s : State),
    let s' := exec (scrapeVinyl E delayBetweenRequests) s in
    searched s' = (searched s ++ artist_terms s)%list /\
    (forall term, In term (artist_terms s) <->
       exists row, In row (user_preferences (db s)) /\
                   PreferenceRow.type row = Artist /\
                   PreferenceRow.value row = term) /\
    (artist_terms s = [] ->
     searched s' = searched s /\ outcomes s' = outcomes s /\
     db s' = db s /\ telegram s' = telegram s /\ newListings s' = []).
Proof.
  intros E d s. cbn zeta. split; [|split].
  - destruct (scrapeVinyl_run E d s) as (s' & tr & errs & Hr & _ & _ & _ & Hq & _).
    unfold exec. now rewrite Hr.
  - apply in_artist_terms.
  - intros H. unfold exec. rewrite (scrapeVinyl_no_artist E d s H). cbn.
    repeat split; reflexivity.
Qed.

Lemma C10_only_artists_searched_witness :
  let E := discogs_env Scenario.clk Scenario.net_up in
  let s := mkState (mkDatabase [] [] [PreferenceRow.mk Album "the wall" 0%Z;
                                      PreferenceRow.mk Genre "rock" 0%Z])
                   [] [] 0 [] [] in
  let s' := exec (scrapeVinyl E 0) s in
  searched s' = [] /\ outcomes s' = [] /\ db s' = db s /\ telegram s' = [].
Proof.
  destruct (C10_only_artists_searched (discogs_env Scenario.clk Scenario.net_up) 0
              (mkState (mkDatabase [] [] [PreferenceRow.mk Album "the wall" 0%Z;
                                          PreferenceRow.mk Genre "rock" 0%Z])
                       [] [] 0 [] [])) as (_ & _ & H).
  destruct (H eq_refl) as (Hq & Ho & Hd & Ht & _). auto.
Defined.

(** C4, as the code has it.  The key is a function of the normalized seller,
    the price and the normalized title.  Two keys are equal exactly when the
    texts [seller-price-title] they encode are equal, for the encoding is
    reversible.  With the price fixed, changing the seller alone or the
    title alone gives the same key only when normalization maps the two
    sellers, or the two titles, to the same string. *)
Theorem C4_identity_key :
  forall (seller seller' : string) (price price' : Z) (title title' : string),
    (normalizeString seller = normalizeString seller' ->
     price = price' ->
     normalizeString title = normalizeString title' ->
     createUniqueKey seller price title = createUniqueKey seller' price' title')
    /\
    (createUniqueKey seller price title = createUniqueKey seller' price' title' <->
     normalizedData seller price title = normalizedData seller' price' title')
    /\
    (createUniqueKey seller price title = createUniqueKey seller' price title ->
     normalizeString seller = normalizeString seller')
    /\
    (createUniqueKey seller price title = createUniqueKey seller price title' ->
     normalizeString title = normalizeString title').
Proof.
  intros seller seller' price price' title title'.
  refine (conj _ (conj _ (conj _ _))).
  - intros Hs Hp Ht. unfold createUniqueKey, normalizedData.
    now rewrite Hs, Hp, Ht.
  - split; [apply KeyFacts.createUniqueKey_inj|].
    intros H. unfold createUniqueKey. now rewrite H.
  - intros H. apply KeyFacts.createUniqueKey_inj in H.
    unfold normalizedData in H. eapply KeyFacts.append_inv_tail, H.
  - intros H. apply KeyFacts.createUniqueKey_inj in H.
    unfold normalizedData in H.
    now repeat apply KeyFacts.append_inv_head in H.
Qed.

Lemma C4_identity_key_witness :
  createUniqueKey "  RareVinyl " 50 "The   WALL" = createUniqueKey "rarevinyl" 50 "the wall"
  /\ normalizeString "The Wall" = normalizeString "the  wall".
Proof.
  destruct (C4_identity_key "  RareVinyl " "rarevinyl" 50 50 "The   WALL" "the wall")
    as (Hdet & _).
  destruct (C4_identity_key "a" "a" 7 7 "The Wall" "the  wall") as (_ & _ & _ & Ht).
  split.
  - apply Hdet; reflexivity.
  - apply Ht. vm_compute. reflexivity.
Defined.

(** C4 as stated fails: seller and title both differ, also after
    normalization, and the keys are the same, since both encode [a-5-5-b]. *)
Lemma C4_key_collision :
  createUniqueKey "a" 5 "5-b" = createUniqueKey "a-5" 5 "b" /\
  normalizeString "a" <> normalizeString "a-5" /\
  normalizeString "5-b" <> normalizeString "b".
Proof. vm_compute. repeat split; discriminate. Qed.

Module Latin1Facts.

Lemma is_white_is_space c : Latin1.is_white c = JS.is_space c.
Proof. destruct c as [[] [] [] [] [] [] [] []]; reflexivity. Qed.

Lemma small_lower c : Latin1.small c = JS.lower c.
Proof. destruct c as [[] [] [] [] [] [] [] []]; reflexivity. Qed.

Lemma capital_moves c :
  existsb (Ascii.eqb c) Latin1.capitals = true -> Ascii.eqb (Latin1.small c) c = false.
Proof. destruct c as [[] [] [] [] [] [] [] []]; vm_compute; congruence. Qed.

Lemma white_space_spec c : In c Latin1.white_space <-> JS.is_space c = true.
Proof.
  rewrite <- is_white_is_space. unfold Latin1.is_white. rewrite existsb_exists. split.
  - intros H. exists c. split; [exact H | apply Ascii.eqb_refl].
  - intros (d & Hin & Hd). apply Ascii.eqb_eq in Hd. now subst.
Qed.

Lemma small_word_toLowerCase w : Latin1.small_word w = JS.toLowerCase w.
Proof. induction w as [|c r IH]; cbn; [reflexivity|]. now rewrite small_lower, IH. Qed.

Lemma tokens_words s : Latin1.tokens s = words s.
Proof.
  induction s as [|c r IH]; [reflexivity|].
  cbn [Latin1.tokens words]. rewrite is_white_is_space.
  destruct (JS.is_space c); [exact IH|].
  destruct r as [|d r']; [reflexivity|].
  rewrite IH. cbn [starts_ok JS.is_empty negb]. rewrite is_white_is_space, Bool.andb_true_r.
  now destruct (JS.is_space d).
Qed.

(** The shape of a canonical string, character by character. *)
Lemma lowered_no_capital s c :
  lowered s = true -> In c (list_ascii_of_string s) -> ~ In c Latin1.capitals.
Proof.
  induction s as [|d r IH]; cbn; [contradiction|].
  intros H [<-|Hin] Hc; apply Bool.andb_true_iff in H; destruct H as [Hd Hr].
  - assert (Hm : existsb (Ascii.eqb d) Latin1.capitals = true).
    { apply existsb_exists. exists d. split; [exact Hc | apply Ascii.eqb_refl]. }
    apply capital_moves in Hm. rewrite small_lower in Hm. congruence.
  - now apply (IH Hr Hin).
Qed.

Lemma single_spaced_white s c :
  single_spaced s = true -> In c (list_ascii_of_string s) ->
  In c Latin1.white_space -> c = " "%char.
Proof.
  induction s as [|d r IH]; cbn; [contradiction|].
  intros H [<-|Hin] Hc; apply Bool.andb_true_iff in H; destruct H as [Hd Hr].
  - apply white_space_spec in Hc. rewrite Hc in Hd.
    apply Bool.andb_true_iff in Hd. now apply Ascii.eqb_eq.
  - now apply (IH Hr Hin).
Qed.

Lemma single_spaced_no_run s :
  single_spaced s = true -> ~ contains s "  ".
Proof.
  intros H (pre & post & ->). induction pre as [|c pre IH]; cbn in H.
  - discriminate.
  - apply Bool.andb_true_iff in H. now apply IH.
Qed.

Lemma ends_ok_no_space s r : ends_ok s = true -> s <> r ++ " ".
Proof.
  intros H ->. induction r as [|c r IH]; cbn in H; [discriminate|].
  destruct r; cbn in *; auto.
Qed.

End Latin1Facts.

(** C8.  [normalizeString] is defined on every string, the empty one
    included.  Its result is made of the words of the input, that is of what
    stands between its white space (TAB, LF, VT, FF, CR, SPACE, NBSP), each
    capital letter replaced by its small letter, joined by single spaces.
    So the result holds no capital letter and no white space but the space,
    does not begin or end with a space, and has no two spaces in a row:
    the input is trimmed, lowercased and its runs of white space are
    collapsed.  Normalizing twice is normalizing once. *)
Theorem C8_normalize_idempotent :
  forall x : string,
    normalizeString x = unwords (map Latin1.small_word (Latin1.tokens x)) /\
    (forall c, In c (list_ascii_of_string (normalizeString x)) ->
       ~ In c Latin1.capitals /\ (In c Latin1.white_space -> c = " "%char)) /\
    (forall r, normalizeString x <> String " " r) /\
    (forall r, normalizeString x <> r ++ " ") /\
    ~ contains (normalizeString x) "  " /\
    normalizeString (normalizeString x) = normalizeString x /\
    normalizeString EmptyString = EmptyString.
Proof.
  intros x.
  destruct (normalizeString_canonical x) as (Hs & He & Hss & Hl).
  refine (conj _ (conj _ (conj _ (conj _ (conj _ (conj _ eq_refl)))))).
  - rewrite normalizeString_words, Latin1Facts.tokens_words.
    f_equal. apply map_ext. intros w. symmetry. apply Latin1Facts.small_word_toLowerCase.
  - intros c Hin. split.
    + now apply (Latin1Facts.lowered_no_capital (normalizeString x)).
    + now apply (Latin1Facts.single_spaced_white (normalizeString x)).
  - intros r Hr. rewrite Hr in Hs. discriminate.
  - intros r. now apply Latin1Facts.ends_ok_no_space.
  - now apply Latin1Facts.single_spaced_no_run.
  - apply normalizeString_idempotent.
Qed.

Lemma C8_normalize_idempotent_witness :
  normalizeString ("  Pink " ++ String "009"%char " FLOYD ") = "pink floyd" /\
  ~ In "p"%char Latin1.capitals.
Proof.
  destruct (C8_normalize_idempotent ("  Pink " ++ String "009"%char " FLOYD "))
    as (Hw & Hc & _).
  split.
  - rewrite Hw. reflexivity.
  - apply (Hc "p"%char). simpl. tauto.
Defined.

(* ================================================================== *)
(** ** The scenario, run *)

Example scenario_key :
  VinylListing.uniqueKey Scenario.listing = "cmFyZXZpbnlsLTUwLXRoZSB3YWxs"
  /\ createUniqueKey "RareVinyl" 50 "The Wall" = createUniqueKey "rarevinyl" 50 "the wall".
Proof. split; reflexivity. Qed.

Example scenario_relevant :
  isRelevantListing Scenario.listing Scenario.preferences = true.
Proof. reflexivity. Qed.

Example scenario_first_pass :
  let E := discogs_env Scenario.clk Scenario.net_up in
  let s' := exec (scrapeVinyl E 1000) Scenario.fresh in
  outcomes s' = [(Scenario.listing, New)] /\
  telegram s' = [sendBatchNotification [Scenario.listing]] /\
  searched s' = ["pink floyd"] /\
  keys s' = ["cmFyZXZpbnlsLTUwLXRoZSB3YWxs"].
Proof. vm_compute. repeat split. Qed.

Example scenario_second_pass :
  let E := discogs_env Scenario.clk Scenario.net_up in
  let s1 := exec (scrapeVinyl E 1000) Scenario.fresh in
  let s2 := exec (scrapeVinyl E 1000) s1 in
  outcomes s2 = [(Scenario.listing, New); (Scenario.listing_again, SeenAgain)] /\
  telegram s2 = [sendBatchNotification [Scenario.listing]] /\
  length (vinyl_listings (db s2)) = 1%nat /\
  length (price_history (db s2)) = 1%nat.
Proof. vm_compute. repeat split. Qed.

Example scenario_throwing_client :
  let s' := exec (scrapeVinyl Scenario.flaky 1000) Scenario.two_artists in
  searched s' = ["the doors"; "pink floyd"] /\
  telegram s' =
    [sendErrorNotification "Failed to scrape artist: the doors" "discogs";
     sendBatchNotification [Scenario.listing_again]] /\
  outcomes s' = [(Scenario.listing_again, New)].
Proof. vm_compute. repeat split. Qed.

(** The marketplace client answers a failed request by an empty list, so
    that a pass on a network that is down reports nothing. *)
Example scenario_network_down :
  let E := discogs_env Scenario.clk Scenario.net_down in
  let s' := exec (scrapeVinyl E 0) Scenario.fresh in
  DiscogsService.searchReleases Scenario.net_down 0 "pink floyd" = None /\
  searched s' = ["pink floyd"] /\
  telegram s' = [].
Proof. vm_compute. repeat split. Qed.

(** An offer under an id that the table holds already: its insert is
    rejected, the offer after it is not looked at, and the failure is
    reported. *)
Example scenario_rejected_insert :
  let E := discogs_env Scenario.clk Scenario.net_recycling in
  let s' := exec (scrapeVinyl E 0) Scenario.known in
  fetched E 0 ["pink floyd"]
  = [Scenario.recycled; Scenario.listing_again] /\
  outcomes s' = [] /\
  db s' = db Scenario.known /\
  telegram s' = [scrape_error "pink floyd"].
Proof. vm_compute. repeat split. Qed.

Example scenario_collision :
  VinylListing.uniqueKey Scenario.stored_100 = VinylListing.uniqueKey Scenario.candidate_120
  /\ VinylListing.price Scenario.stored_100 = 100%Z
  /\ VinylListing.price Scenario.candidate_120 = 120%Z.
Proof. vm_compute. repeat split. Qed.

Example normalizeString_examples :
  normalizeString "  Pink   FLOYD " = "pink floyd" /\
  normalizeString EmptyString = EmptyString /\
  words "  Pink   FLOYD " = ["Pink"; "FLOYD"].
Proof. repeat split. Qed.

(* ================================================================== *)
(** * Further properties *)

(** ** The listing table *)

Lemma listing_of_row_of_listing listing :
  VinylListing.shippingFee listing <> Some 0%Z ->
  listing_of_row (row_of_listing listing) = listing.
Proof.
  destruct listing as [? ? ? ? ? ? ? ? fee ? ? ? ? ? ? ? ? ?]. cbn. intros H.
  unfold listing_of_row, row_of_listing. cbn.
  destruct fee as [fee|]; [|reflexivity].
  assert (Hf : (fee =? 0)%Z = false) by (apply Z.eqb_neq; congruence).
  now rewrite Hf.
Qed.

Lemma find_app_other k (rows : list ListingRow.t) row :
  ListingRow.unique_key row <> k ->
  find (has_key k) (rows ++ [row]) = find (has_key k) rows.
Proof.
  intros Hk. induction rows as [|r rows IH]; cbn.
  - unfold has_key. apply String.eqb_neq in Hk. now rewrite Hk.
  - now destruct (has_key k r).
Qed.

(** X1.  [insertListing] is rejected exactly when a stored row carries the
    id or the key of the listing, and then nothing is written.  Otherwise
    the listing is appended and found again by its key: what is read back
    is the listing itself, but for a shipping fee of zero, which reads back
    as absent; the lookups of all other keys answer as before the insert. *)
Theorem insertListing_getExistingListing :
  forall (listing : VinylListing.t) (s : State),
    let s' := exec (insertListing listing) s in
    (fst (insertListing listing s) = None <->
     In (VinylListing.id listing) (ids s) \/ In (VinylListing.uniqueKey listing) (keys s)) /\
    (fst (insertListing listing s) = None -> s' = s) /\
    (~ In (VinylListing.id listing) (ids s) ->
     ~ In (VinylListing.uniqueKey listing) (keys s) ->
     fst (insertListing listing s) = Some tt /\
     vinyl_listings (db s') = (vinyl_listings (db s) ++ [row_of_listing listing])%list /\
     (exists found,
        fst (getExistingListing (VinylListing.uniqueKey listing) s') = Some (Some found) /\
        (VinylListing.shippingFee listing <> Some 0%Z -> found = listing) /\
        (VinylListing.shippingFee listing = Some 0%Z ->
         VinylListing.shippingFee found = None /\
         VinylListing.id found = VinylListing.id listing /\
         VinylListing.price found = VinylListing.price listing /\
         VinylListing.uniqueKey found = VinylListing.uniqueKey listing)) /\
     (forall k, k <> VinylListing.uniqueKey listing ->
        fst (getExistingListing k s') = fst (getExistingListing k s))).
Proof.
  intros listing s. cbn zeta. unfold exec. rewrite insertListing_eq.
  pose proof (clashes_spec listing (vinyl_listings (db s))) as Hc.
  fold (ids s) in Hc. fold (keys s) in Hc.
  destruct (existsb (clashes listing) (vinyl_listings (db s))).
  - cbn [fst snd]. refine (conj _ (conj (fun _ => eq_refl) _)).
    + split; [intros _; now apply Hc | reflexivity].
    + intros Hid Hk. exfalso. destruct (proj1 Hc eq_refl); contradiction.
  - cbn [fst snd]. refine (conj _ (conj _ _)).
    + split; [discriminate | intros H; apply Hc in H; discriminate].
    + discriminate.
    + intros _ Habs. apply find_absent_keys in Habs.
      refine (conj eq_refl (conj eq_refl (conj _ _))).
      * exists (listing_of_row (row_of_listing listing)). cbn.
        rewrite (find_app_new _ _ (row_of_listing listing) Habs eq_refl). cbn.
        refine (conj eq_refl (conj (listing_of_row_of_listing listing) _)).
        intros Hfee. destruct listing. cbn in *. subst. cbn. auto.
      * intros k Hk. cbn. rewrite find_app_other; [reflexivity|].
        cbn. congruence.
Qed.

Lemma insertListing_getExistingListing_witness :
  fst (getExistingListing (VinylListing.uniqueKey Scenario.listing)
         (exec (insertListing Scenario.listing) Scenario.fresh))
  = Some (Some Scenario.listing) /\
  exec (insertListing Scenario.recycled) Scenario.known = Scenario.known.
Proof.
  destruct (insertListing_getExistingListing Scenario.listing Scenario.fresh)
    as (_ & _ & Hok).
  destruct (insertListing_getExistingListing Scenario.recycled Scenario.known)
    as (Hiff & Hsame & _).
  split.
  - destruct Hok as (_ & _ & (found & Hf & Heq & _) & _).
    + simpl. tauto.
    + simpl. tauto.
    + rewrite Hf. rewrite Heq; [reflexivity|]. vm_compute. discriminate.
  - apply Hsame. apply Hiff. left. simpl. left. reflexivity.
Defined.

Lemma map_id_when {A} (f : A -> A) (l : list A) :
  (forall x, In x l -> f x = x) -> map f l = l.
Proof.
  intros H. induction l as [|x l IH]; cbn; [reflexivity|].
  rewrite H by now left. f_equal. apply IH. intros y Hy. apply H. now right.
Qed.

(** X2.  [updateListingLastSeen] writes nothing but [last_seen] and
    [is_active], and only in rows that hold the key: it keeps the number of
    rows, stamps every row of that key with the time read and marks it
    active, and leaves each other row as it is.  With a key that no row
    holds the tables are unchanged. *)
Theorem updateListingLastSeen_touches_one_key :
  forall (E : Env) (uniqueKey : string) (s : State),
    let s' := exec (updateListingLastSeen E uniqueKey) s in
    let now := clock E (date_reads s) in
    length (vinyl_listings (db s')) = length (vinyl_listings (db s)) /\
    (forall i row, nth_error (vinyl_listings (db s)) i = Some row ->
       nth_error (vinyl_listings (db s')) i
       = Some (if String.eqb (ListingRow.unique_key row) uniqueKey
               then ListingRow.seen now row else row)) /\
    (forall row, frame (ListingRow.seen now row) = frame row /\
                 ListingRow.last_seen (ListingRow.seen now row) = now /\
                 ListingRow.is_active (ListingRow.seen now row) = true) /\
    price_history (db s') = price_history (db s) /\
    user_preferences (db s') = user_preferences (db s) /\
    (~ In uniqueKey (keys s) -> db s' = db s).
Proof.
  intros E uniqueKey s. cbn zeta. unfold exec. cbn.
  refine (conj _ (conj _ (conj _ (conj eq_refl (conj eq_refl _))))).
  - apply length_map.
  - intros i row H. rewrite nth_error_map, H. reflexivity.
  - intros row. repeat split.
  - intros Habs. rewrite map_id_when; [now destruct (db s)|].
    intros row Hin. unfold has_key.
    destruct (String.eqb_spec (ListingRow.unique_key row) uniqueKey) as [e|]; [|reflexivity].
    exfalso. apply Habs. rewrite <- e. apply in_map, Hin.
Qed.

Lemma updateListingLastSeen_touches_one_key_witness :
  db (exec (updateListingLastSeen (discogs_env Scenario.clk Scenario.net_up)
              "no such key") Scenario.known) = db Scenario.known.
Proof.
  apply (updateListingLastSeen_touches_one_key
           (discogs_env Scenario.clk Scenario.net_up) "no such key" Scenario.known).
  vm_compute. intros [H|[]]. discriminate.
Defined.

Lemma existsb_eqb_In k ks :
  existsb (String.eqb k) ks = true <-> In k ks.
Proof.
  rewrite existsb_exists. split.
  - intros (x & Hin & Hx). apply String.eqb_eq in Hx. now subst.
  - intros H. exists k. split; [exact H | apply String.eqb_refl].
Qed.

(** X3.  The sweep [markInactiveListings] keeps every row whose key is
    listed exactly as it is (it does not activate it), clears [is_active] in
    every other row and changes no other column; it adds and removes no row
    and leaves the other tables alone.  With an empty list it deactivates
    every row. *)
Theorem markInactiveListings_sweep :
  forall (activeUniqueKeys : list string) (s : State),
    let s' := exec (markInactiveListings activeUniqueKeys) s in
    length (vinyl_listings (db s')) = length (vinyl_listings (db s)) /\
    (forall i row, nth_error (vinyl_listings (db s)) i = Some row ->
       exists row',
         nth_error (vinyl_listings (db s')) i = Some row' /\
         but_active row' = but_active row /\
         (In (ListingRow.unique_key row) activeUniqueKeys -> row' = row) /\
         (~ In (ListingRow.unique_key row) activeUniqueKeys ->
          ListingRow.is_active row' = false)) /\
    (activeUniqueKeys = [] ->
     forall row', In row' (vinyl_listings (db s')) -> ListingRow.is_active row' = false) /\
    price_history (db s') = price_history (db s) /\
    user_preferences (db s') = user_preferences (db s) /\
    keys s' = keys s.
Proof.
  intros ks s. cbn zeta. unfold exec, keys. cbn.
  refine (conj _ (conj _ (conj _ (conj eq_refl (conj eq_refl _))))).
  - apply length_map.
  - intros i row H. rewrite nth_error_map, H. cbn.
    destruct (existsb (String.eqb (ListingRow.unique_key row)) ks) eqn:Hk.
    + exists row. apply existsb_eqb_In in Hk.
      refine (conj eq_refl (conj eq_refl (conj (fun _ => eq_refl) _))).
      intros Hn. contradiction.
    + eexists. refine (conj eq_refl (conj eq_refl (conj _ (fun _ => eq_refl)))).
      intros Hin. apply existsb_eqb_In in Hin. congruence.
  - intros -> row' Hin. apply in_map_iff in Hin.
    destruct Hin as (row & <- & _). reflexivity.
  - rewrite map_map. apply map_ext. intros row.
    now destruct (existsb (String.eqb (ListingRow.unique_key row)) ks).
Qed.

Lemma markInactiveListings_sweep_witness :
  Forall (fun row' => ListingRow.is_active row' = false)
         (vinyl_listings (db (exec (markInactiveListings []) Scenario.known))).
Proof.
  apply Forall_forall.
  apply (markInactiveListings_sweep [] Scenario.known). reflexivity.
Defined.

(** X4.  Two sweeps in a row amount to one sweep with the keys that are in
    both lists; so sweeps commute, and a sweep repeated changes nothing
    more. *)
Theorem markInactiveListings_twice :
  forall (ks ks' : list string) (s : State),
    exec (markInactiveListings ks ;; markInactiveListings ks') s
    = exec (markInactiveListings (filter (fun k => existsb (String.eqb k) ks') ks)) s
    /\
    exec (markInactiveListings ks ;; markInactiveListings ks') s
    = exec (markInactiveListings ks' ;; markInactiveListings ks) s
    /\
    exec (markInactiveListings ks ;; markInactiveListings ks) s
    = exec (markInactiveListings ks) s.
Proof.
  assert (Hrow : forall ks ks' (row : ListingRow.t),
    existsb (String.eqb (ListingRow.unique_key row))
            (filter (fun k => existsb (String.eqb k) ks') ks)
    = existsb (String.eqb (ListingRow.unique_key row)) ks
      && existsb (String.eqb (ListingRow.unique_key row)) ks').
  { intros ks ks' row. apply Bool.eq_true_iff_eq.
    rewrite Bool.andb_true_iff, !existsb_eqb_In, filter_In, existsb_eqb_In.
    reflexivity. }
  assert (Hone : forall ks ks' s,
    exec (markInactiveListings ks ;; markInactiveListings ks') s
    = exec (markInactiveListings (filter (fun k => existsb (String.eqb k) ks') ks)) s).
  { intros ks ks' s. unfold exec. cbn. unfold set_db. cbn. do 2 f_equal.
    rewrite map_map. apply map_ext. intros row. rewrite Hrow.
    destruct (existsb (String.eqb (ListingRow.unique_key row)) ks); cbn;
      destruct (existsb (String.eqb (ListingRow.unique_key row)) ks'); reflexivity. }
  assert (Hmap : forall ks1 ks2 s,
    (forall row : ListingRow.t,
       existsb (String.eqb (ListingRow.unique_key row)) ks1
       = existsb (String.eqb (ListingRow.unique_key row)) ks2) ->
    exec (markInactiveListings ks1) s = exec (markInactiveListings ks2) s).
  { intros ks1 ks2 s H. unfold exec. cbn. unfold set_db. cbn. do 2 f_equal.
    apply map_ext. intros row. now rewrite H. }
  intros ks ks' s. refine (conj (Hone ks ks' s) (conj _ _)).
  - rewrite !Hone. apply Hmap. intros row. rewrite !Hrow. apply Bool.andb_comm.
  - rewrite Hone. apply Hmap. intros row. rewrite Hrow. apply Bool.andb_diag.
Qed.

(* ------------------------------------------------------------------ *)
(** ** Sightings of stored listings *)

Lemma find_map_key k (g : ListingRow.t -> ListingRow.t) rows :
  (forall r, ListingRow.unique_key (g r) = ListingRow.unique_key r) ->
  find (has_key k) (map g rows) = option_map g (find (has_key k) rows).
Proof.
  intros Hg. induction rows as [|r rows IH]; [reflexivity|]. cbn.
  unfold has_key at 1 3. rewrite Hg.
  destruct (String.eqb (ListingRow.unique_key r) k); [reflexivity | exact IH].
Qed.

(** X5.  A stored listing seen again at its stored price is neither
    inserted again nor announced: the number of rows, the price history, the
    batch of new listings and the notifier are as before; the row is stamped
    with the time read and marked active, and the listing is classified
    [SeenAgain]. *)
Theorem reconcile_seen_again :
  forall (E : Env) (preferences : list UserPreferenceRecord.t)
         (listing : VinylListing.t) (s : State) (row : ListingRow.t),
    NoDup (keys s) ->
    In row (vinyl_listings (db s)) ->
    ListingRow.unique_key row = VinylListing.uniqueKey listing ->
    ListingRow.price row = VinylListing.price listing ->
    isRelevantListing listing preferences = true ->
    let s' := exec (reconcile E preferences listing) s in
    let now := clock E (date_reads s) in
    fst (reconcile E preferences listing s) = Some tt /\
    length (vinyl_listings (db s')) = length (vinyl_listings (db s)) /\
    find (has_key (VinylListing.uniqueKey listing)) (vinyl_listings (db s'))
      = Some (ListingRow.seen now row) /\
    map frame (vinyl_listings (db s')) = map frame (vinyl_listings (db s)) /\
    price_history (db s') = price_history (db s) /\
    newListings s' = newListings s /\
    telegram s' = telegram s /\
    date_reads s' = S (date_reads s) /\
    outcomes s' = (outcomes s ++ [(listing, SeenAgain)])%list.
Proof.
  intros E preferences listing s row Hnd Hin Hk Hp Hrel.
  pose proof (find_present _ _ _ Hnd Hin Hk) as Hfind.
  unfold exec. rewrite (reconcile_seen E preferences listing s row Hrel Hfind Hp).
  cbn.
  refine (conj eq_refl (conj _ (conj _ (conj _ (conj eq_refl (conj eq_refl
            (conj eq_refl (conj eq_refl eq_refl)))))))).
  - apply length_map.
  - now rewrite find_seen, Hfind.
  - apply frame_seen.
Qed.

Lemma reconcile_seen_again_witness :
  let s' := exec (reconcile (discogs_env Scenario.clk Scenario.net_up)
                    Scenario.preferences Scenario.listing) Scenario.known in
  price_history (db s') = [] /\ newListings s' = [] /\
  outcomes s' = [(Scenario.listing, SeenAgain)].
Proof.
  destruct (reconcile_seen_again (discogs_env Scenario.clk Scenario.net_up)
              Scenario.preferences Scenario.listing Scenario.known
              (row_of_listing Scenario.listing))
    as (_ & _ & _ & _ & Hph & Hn & _ & _ & Ho).
  - repeat constructor. simpl. tauto.
  - simpl. left. reflexivity.
  - reflexivity.
  - reflexivity.
  - reflexivity.
  - auto.
Defined.

(** X6.  The sweep is a soft delete.  A listing that was swept is still
    found by its key, so when the marketplace offers it again it is not
    inserted a second time and not put in the batch of new listings: it is
    classified [SeenAgain] or [PriceChanged], and its row is active again. *)
Theorem swept_listing_returns :
  forall (E : Env) (preferences : list UserPreferenceRecord.t)
         (activeUniqueKeys : list string) (listing : VinylListing.t)
         (s : State) (row : ListingRow.t),
    NoDup (keys s) ->
    In row (vinyl_listings (db s)) ->
    ListingRow.unique_key row = VinylListing.uniqueKey listing ->
    isRelevantListing listing preferences = true ->
    let s1 := exec (markInactiveListings activeUniqueKeys) s in
    let s2 := exec (reconcile E preferences listing) s1 in
    (exists found,
       fst (getExistingListing (VinylListing.uniqueKey listing) s1) = Some (Some found) /\
       VinylListing.id found = ListingRow.id row /\
       VinylListing.price found = ListingRow.price row) /\
    length (vinyl_listings (db s2)) = length (vinyl_listings (db s)) /\
    newListings s2 = newListings s /\
    (exists row2,
       find (has_key (VinylListing.uniqueKey listing)) (vinyl_listings (db s2)) = Some row2 /\
       ListingRow.is_active row2 = true /\ frame row2 = frame row) /\
    (outcomes s2 = (outcomes s ++ [(listing, SeenAgain)])%list \/
     outcomes s2 = (outcomes s ++ [(listing, PriceChanged)])%list).
Proof.
  intros E preferences ks listing s row Hnd Hin Hk Hrel. cbn zeta.
  pose proof (find_present _ _ _ Hnd Hin Hk) as Hfind.
  set (sweep := fun r : ListingRow.t =>
         if existsb (String.eqb (ListingRow.unique_key r)) ks then r
         else ListingRow.mk
                (ListingRow.id r) (ListingRow.title r) (ListingRow.title_display r)
                (ListingRow.artist r) (ListingRow.artist_display r) (ListingRow.price r)
                (ListingRow.currency r) (ListingRow.condition r) (ListingRow.shipping_fee r)
                (ListingRow.seller r) (ListingRow.seller_display r) (ListingRow.url r)
                (ListingRow.source r) (ListingRow.date_found r) (ListingRow.last_seen r)
                (ListingRow.ships_to_israel r) (ListingRow.unique_key r) false).
  assert (Hsk : forall r, ListingRow.unique_key (sweep r) = ListingRow.unique_key r)
    by (intros r; unfold sweep; now destruct (existsb _ ks)).
  assert (Hsf : forall r, frame (sweep r) = frame r)
    by (intros r; unfold sweep; now destruct (existsb _ ks)).
  assert (Hsp : forall r, ListingRow.price (sweep r) = ListingRow.price r)
    by (intros r; unfold sweep; now destruct (existsb _ ks)).
  assert (Hsi : forall r, ListingRow.id (sweep r) = ListingRow.id r)
    by (intros r; unfold sweep; now destruct (existsb _ ks)).
  set (s1 := exec (markInactiveListings ks) s).
  assert (Hrows : vinyl_listings (db s1) = map sweep (vinyl_listings (db s)))
    by reflexivity.
  assert (Hfind1 : find (has_key (VinylListing.uniqueKey listing)) (vinyl_listings (db s1))
                   = Some (sweep row))
    by (rewrite Hrows, (find_map_key _ sweep _ Hsk), Hfind; reflexivity).
  assert (Ho1 : outcomes s1 = outcomes s) by reflexivity.
  assert (Hn1 : newListings s1 = newListings s) by reflexivity.
  split.
  - exists (listing_of_row (sweep row)).
    rewrite getExistingListing_eq. cbn [fst]. rewrite Hfind1. cbn.
    rewrite Hsi, Hsp. auto.
  - destruct (Z.eq_dec (ListingRow.price (sweep row)) (VinylListing.price listing)) as [Hp|Hp].
    + unfold exec.
      rewrite (reconcile_seen E preferences listing s1 (sweep row) Hrel Hfind1 Hp).
      cbn [snd db vinyl_listings newListings outcomes].
      rewrite length_map, Hrows, length_map, find_seen, <- Hrows, Hfind1, Ho1, Hn1.
      refine (conj eq_refl (conj eq_refl (conj _ (or_introl eq_refl)))).
      eexists. refine (conj eq_refl (conj eq_refl _)).
      change (frame (sweep row) = frame row). apply Hsf.
    + unfold exec.
      rewrite (reconcile_changed E preferences listing s1 (sweep row) Hrel Hfind1 Hp).
      cbn [snd db vinyl_listings newListings outcomes].
      rewrite length_map, Hrows, length_map, find_seen, <- Hrows, Hfind1, Ho1, Hn1.
      refine (conj eq_refl (conj eq_refl (conj _ (or_intror eq_refl)))).
      eexists. refine (conj eq_refl (conj eq_refl _)).
      change (frame (sweep row) = frame row). apply Hsf.
Qed.

Lemma swept_listing_returns_witness :
  let s1 := exec (markInactiveListings []) Scenario.known in
  let s2 := exec (reconcile (discogs_env Scenario.clk Scenario.net_up)
                    Scenario.preferences Scenario.listing) s1 in
  length (vinyl_listings (db s2)) = 1%nat /\ newListings s2 = [].
Proof.
  destruct (swept_listing_returns (discogs_env Scenario.clk Scenario.net_up)
              Scenario.preferences [] Scenario.listing Scenario.known
              (row_of_listing Scenario.listing))
    as (_ & Hlen & Hn & _).
  - repeat constructor. simpl. tauto.
  - simpl. left. reflexivity.
  - reflexivity.
  - reflexivity.
  - auto.
Defined.

(* ------------------------------------------------------------------ *)
(** ** What a pass does to the tables *)

Section PassInduction.

Variable E : Env.

(** A relation between the states before and after, and the trace between
    them, that only looks at the tables and the trace. *)
Variable R : list UserPreferenceRecord.t -> State -> State ->
             list (VinylListing.t * Outcome) -> Prop.

Hypothesis R_ext : forall p s1 s2 s1' s2' tr,
  db s1 = db s2 -> outcomes s1 = outcomes s2 ->
  db s1' = db s2' -> outcomes s1' = outcomes s2' ->
  R p s1 s1' tr -> R p s2 s2' tr.

Hypothesis R_refl : forall p s, R p s s [].

Hypothesis R_trans : forall p s s' s'' tr tr',
  R p s s' tr -> R p s' s'' tr' -> R p s s'' (tr ++ tr').

Hypothesis R_step : forall p listing s s',
  reconcile E p listing s = (Some tt, s') ->
  exists o, R p s s' [(listing, o)].

Lemma exec_bind_ok {A B} (m : M A) (k : A -> M B) s a s' :
  m s = (Some a, s') -> exec (bind m k) s = exec (k a) s'.
Proof. intros H. unfold exec, bind. now rewrite H. Qed.

Lemma lift_for_of p listings :
  forall s, exists tr, R p s (exec (for_of listings (reconcile E p)) s) tr.
Proof.
  induction listings as [|l ls IH]; intros s.
  - exists []. apply R_refl.
  - destruct (reconcile E p l s) as [[[]|] s1] eqn:Hr.
    + destruct (R_step p l s s1 Hr) as (o & Ho).
      destruct (IH s1) as (tr & Htr).
      exists ((l, o) :: tr). cbn [for_of].
      rewrite (exec_bind_ok _ _ s tt s1 Hr).
      apply (R_trans p s s1 _ [(l, o)] tr); assumption.
    + exists []. cbn [for_of]. unfold exec, bind. rewrite Hr. cbn [snd].
      rewrite (reconcile_throws E p l s s1 Hr). apply R_refl.
Qed.

Lemma lift_scrapeArtist d p artistPref s :
  exists tr, R p s (exec (scrapeArtist E d p artistPref) s) tr.
Proof.
  unfold scrapeArtist, exec, try_catch.
  unfold bind at 1. unfold discogs_searchForArtist.
  destruct (discogs E (length (searched s)) (UserPreferenceRecord.value artistPref))
    as [listings|].
  - set (s0 := set_searched _ s).
    destruct (lift_for_of p listings s0) as (tr & Htr).
    exists tr. unfold bind, delay, ret. unfold exec in Htr.
    destruct (for_of listings (reconcile E p) s0) as [[[]|] s'];
      cbn [snd] in *; (eapply R_ext; [| | | |exact Htr]; reflexivity).
  - exists []. cbn. eapply R_ext; [| | | |apply (R_refl p s)]; reflexivity.
Qed.

Lemma lift_for_of_scrapeArtist d p artistPrefs :
  forall s, exists tr, R p s (exec (for_of artistPrefs (scrapeArtist E d p)) s) tr.
Proof.
  induction artistPrefs as [|a aps IH]; intros s.
  - exists []. apply R_refl.
  - destruct (scrapeArtist_step E d p a s) as (s1 & tr' & e' & Hr & _).
    destruct (lift_scrapeArtist d p a s) as (tr1 & H1).
    destruct (IH s1) as (tr2 & H2).
    exists (tr1 ++ tr2)%list. cbn [for_of].
    rewrite (exec_bind_ok _ _ s tt s1 Hr).
    apply (R_trans p s s1 _ tr1 tr2); [|exact H2].
    unfold exec in H1. now rewrite Hr in H1.
Qed.

Lemma scrapeVinyl_shape d s :
  let s1 := exec (for_of (filter (of_type Artist) (preferences_of s))
                         (scrapeArtist E d (preferences_of s)))
                 (set_newListings [] s) in
  scrapeVinyl E d s
  = (Some tt, set_telegram (telegram s1 ++ batch (newListings s1)) s1).
Proof.
  cbn zeta.
  destruct (for_of_scrapeArtist E d (preferences_of s)
              (filter (of_type Artist) (preferences_of s))
              (set_newListings [] s))
    as (s1 & tr & errs & Hr & _).
  unfold exec. rewrite Hr. cbn [snd].
  unfold scrapeVinyl, try_catch.
  unfold bind at 1. unfold getUserPreferences, bind at 1, get, ret.
  fold (preferences_of s).
  unfold bind at 1, modify. unfold bind at 1. rewrite Hr.
  unfold bind, get. rewrite length_pos_batch. reflexivity.
Qed.

Lemma lift_scrapeVinyl d s :
  exists tr, R (preferences_of s) s (exec (scrapeVinyl E d) s) tr.
Proof.
  destruct (lift_for_of_scrapeArtist d (preferences_of s)
              (filter (of_type Artist) (preferences_of s))
              (set_newListings [] s)) as (tr & Htr).
  exists tr. unfold exec at 1. rewrite scrapeVinyl_shape. cbn [snd].
  eapply R_ext; [| | | |exact Htr]; reflexivity.
Qed.

End PassInduction.

Module GrowsFacts.

Lemma kept_refl r : kept r r.
Proof. split; auto. Qed.

Lemma kept_trans r r' r'' : kept r r' -> kept r' r'' -> kept r r''.
Proof. intros [Hf Ha] [Hf' Ha']. split; [congruence | auto]. Qed.

Lemma Forall2_kept_refl rows : Forall2 kept rows rows.
Proof. induction rows; constructor; auto using kept_refl. Qed.

Lemma Forall2_kept_trans a b c :
  Forall2 kept a b -> Forall2 kept b c -> Forall2 kept a c.
Proof.
  intros H. revert c. induction H as [|x y a b Hxy Hab IH]; intros c Hc.
  - inversion Hc. constructor.
  - inversion Hc as [|y' z b' c' Hyz Hbc]; subst. constructor.
    + eapply kept_trans; eauto.
    + apply IH, Hbc.
Qed.

Lemma Forall2_kept_frame a b : Forall2 kept a b -> map frame b = map frame a.
Proof.
  induction 1 as [|x y a b [Hf _] _ IH]; [reflexivity|]. cbn. now rewrite Hf, IH.
Qed.

Lemma Forall2_kept_seen k now rows :
  Forall2 kept rows
    (map (fun r => if has_key k r then ListingRow.seen now r else r) rows).
Proof.
  induction rows as [|r rows IH]; cbn; constructor; [|exact IH].
  destruct (has_key k r); [|apply kept_refl]. split; [reflexivity | auto].
Qed.

Lemma observed_app tr tr' : observed (tr ++ tr') = (observed tr ++ observed tr')%list.
Proof. apply filter_app. Qed.

Lemma grows_ext p s1 s2 s1' s2' tr :
  db s1 = db s2 -> outcomes s1 = outcomes s2 ->
  db s1' = db s2' -> outcomes s1' = outcomes s2' ->
  grows p s1 s1' tr -> grows p s2 s2' tr.
Proof.
  intros Hd Ho Hd' Ho'. unfold grows. now rewrite Hd, Ho, Hd', Ho'.
Qed.

Lemma grows_refl p s : grows p s s [].
Proof.
  unfold grows. rewrite app_nil_r.
  refine (conj eq_refl (conj eq_refl (conj _ (conj _ _)))).
  - exists (vinyl_listings (db s)), []. rewrite app_nil_r.
    auto using Forall2_kept_refl.
  - exists []. now rewrite app_nil_r.
  - intros l o [].
Qed.

Lemma grows_trans p s s' s'' tr tr' :
  grows p s s' tr -> grows p s' s'' tr' -> grows p s s'' (tr ++ tr').
Proof.
  intros (Ho & Hp & (old & added & Hrows & Hold & Hadd) & (obs & Hph & Hobs) & Hrel)
         (Ho' & Hp' & (old' & added' & Hrows' & Hold' & Hadd') & (obs' & Hph' & Hobs') & Hrel').
  unfold grows.
  refine (conj _ (conj _ (conj _ (conj _ _)))).
  - rewrite Ho', Ho. now rewrite app_assoc.
  - congruence.
  - rewrite Hrows in Hold'. apply Forall2_app_inv_l in Hold'.
    destruct Hold' as (o1 & o2 & H1 & H2 & ->).
    exists o1, (o2 ++ added')%list.
    refine (conj _ (conj _ _)).
    + rewrite Hrows'. now rewrite app_assoc.
    + eapply Forall2_kept_trans; eauto.
    + rewrite news_of_app, !map_app, Hadd', (Forall2_kept_frame _ _ H2), Hadd.
      reflexivity.
  - exists (obs ++ obs')%list. split.
    + rewrite Hph', Hph. now rewrite app_assoc.
    + rewrite observed_app, !map_app. congruence.
  - intros l o Hin. apply in_app_or in Hin. destruct Hin; auto.
Qed.

Lemma grows_step E p listing s s' :
  reconcile E p listing s = (Some tt, s') ->
  exists o, grows p s s' [(listing, o)].
Proof.
  destruct (isRelevantListing listing p) eqn:Hrel.
  - destruct (find (has_key (VinylListing.uniqueKey listing)) (vinyl_listings (db s)))
      as [row|] eqn:Hfind.
    + destruct (Z.eq_dec (ListingRow.price row) (VinylListing.price listing)) as [Hp|Hp].
      * rewrite (reconcile_seen E p listing s row Hrel Hfind Hp). intros [= <-].
        exists SeenAgain. unfold grows. cbn.
        refine (conj eq_refl (conj eq_refl (conj _ (conj _ _)))).
        -- eexists. exists []. rewrite app_nil_r.
           refine (conj eq_refl (conj (Forall2_kept_seen _ _ _) eq_refl)).
        -- exists []. now rewrite app_nil_r.
        -- intros l o [[= <- <-]|[]]. split; [discriminate | congruence].
      * rewrite (reconcile_changed E p listing s row Hrel Hfind Hp). intros [= <-].
        exists PriceChanged. unfold grows. cbn.
        refine (conj eq_refl (conj eq_refl (conj _ (conj _ _)))).
        -- eexists. exists []. rewrite app_nil_r.
           refine (conj eq_refl (conj (Forall2_kept_seen _ _ _) eq_refl)).
        -- eexists. split; reflexivity.
        -- intros l o [[= <- <-]|[]]. split; [discriminate | congruence].
    + rewrite (reconcile_absent E p listing s Hrel Hfind).
      destruct (existsb (clashes listing) (vinyl_listings (db s))); [discriminate|].
      intros [= <-]. exists New. unfold grows. cbn.
      refine (conj eq_refl (conj eq_refl (conj _ (conj _ _)))).
      * eexists. eexists.
        refine (conj eq_refl (conj (Forall2_kept_refl _) eq_refl)).
      * eexists. split; reflexivity.
      * intros l o [[= <- <-]|[]]. split; [discriminate | congruence].
  - rewrite (reconcile_skipped E p listing s Hrel). intros [= <-].
    exists Skipped. unfold grows. cbn.
    refine (conj eq_refl (conj eq_refl (conj _ (conj _ _)))).
    + eexists. exists []. rewrite app_nil_r.
      refine (conj eq_refl (conj (Forall2_kept_refl _) eq_refl)).
    + exists []. now rewrite app_nil_r.
    + intros l o [[= <- <-]|[]]. split; auto.
Qed.

End GrowsFacts.

Lemma scrapeVinyl_grows_trace (E : Env) (delayBetweenRequests : Z) (s : State) :
  exists s' tr errs,
    scrapeVinyl E delayBetweenRequests s = (Some tt, s') /\
    grows (preferences_of s) s s' tr /\
    pass_step (set_newListings [] s) s' tr /\
    pass_log E (length (searched s)) (artist_terms s) (map fst tr) errs /\
    telegram s' = (telegram s ++ errs ++ batch (news_of tr))%list /\
    (fresh_ids s (fetched E (length (searched s)) (artist_terms s)) ->
     map fst tr = fetched E (length (searched s)) (artist_terms s)).
Proof.
  destruct (lift_scrapeVinyl E grows GrowsFacts.grows_ext GrowsFacts.grows_refl
              GrowsFacts.grows_trans (GrowsFacts.grows_step E) delayBetweenRequests s)
    as (tr & Hg).
  destruct (scrapeVinyl_run E delayBetweenRequests s)
    as (s' & tr' & errs & Hr & Hs & Hl & Ht & _ & Hf).
  unfold exec in Hg. rewrite Hr in Hg. cbn [snd] in Hg.
  assert (tr' = tr).
  { destruct Hg as (Ho & _). destruct Hs as (Ho' & _). cbn in Ho'.
    rewrite Ho' in Ho. now apply app_inv_head in Ho. }
  subst tr'. exists s', tr, errs.
  refine (conj Hr (conj Hg (conj Hs (conj Hl (conj Ht _))))).
  intros Hfresh. now apply Hf.
Qed.



(** X8.  A pass in which every candidate found carries a key that the table
    already holds is silent: it adds no row, hands the notifier no batch and
    leaves the batch of new listings empty. *)
Theorem scrapeVinyl_nothing_new :
  forall (E : Env) (delayBetweenRequests : Z) (s : State),
    (forall l, In l (fetched E (length (searched s)) (artist_terms s)) ->
               In (VinylListing.uniqueKey l) (keys s)) ->
    let s' := exec (scrapeVinyl E delayBetweenRequests) s in
    length (vinyl_listings (db s')) = length (vinyl_listings (db s)) /\
    batches (telegram s') = batches (telegram s) /\
    newListings s' = [].
Proof.
  intros E d s Hall. cbn zeta.
  destruct (scrapeVinyl_grows_trace E d s)
    as (s' & tr & errs & Hr & Hg & Hs & Hl & Ht & _).
  assert (Hnews : news_of tr = []).
  { destruct (news_of tr) as [|l ls] eqn:Hn; [reflexivity|]. exfalso.
    destruct Hs as (_ & _ & _ & _ & _ & Hk & _).
    assert (Hin : In l (news_of tr)) by (rewrite Hn; now left).
    apply (Hk l Hin). apply Hall. apply (pass_log_incl E _ _ _ _ Hl).
    unfold news_of in Hin. apply in_map_iff in Hin. destruct Hin as (x & <- & Hx).
    apply filter_In in Hx. apply in_map, Hx. }
  destruct Hg as (_ & _ & (old & added & Hrows & Hold & Hadd) & _).
  rewrite Hnews in Hadd. cbn in Hadd. apply map_eq_nil in Hadd. subst added.
  rewrite app_nil_r in Hrows.
  unfold exec. rewrite Hr. cbn [snd].
  refine (conj _ (conj _ _)).
  - rewrite Hrows. symmetry. eapply Forall2_length, Hold.
  - rewrite Ht, Hnews.
    rewrite !batches_app, (pass_log_batches E _ _ _ _ Hl). cbn. now rewrite !app_nil_r.
  - destruct Hs as (_ & Hn & _). rewrite Hn, Hnews. reflexivity.
Qed.

Lemma scrapeVinyl_nothing_new_witness :
  let s' := exec (scrapeVinyl (discogs_env Scenario.clk Scenario.net_up) 1000) Scenario.known in
  length (vinyl_listings (db s')) = 1%nat /\ batches (telegram s') = [] /\
  newListings s' = [].
Proof.
  apply (scrapeVinyl_nothing_new (discogs_env Scenario.clk Scenario.net_up) 1000
           Scenario.known).
  vm_compute. intros l [<-|[]]. left. reflexivity.
Defined.

(* ------------------------------------------------------------------ *)
(** ** Preferences: seeding and matching *)

Module SeedFacts.

Lemma for_of_addUserPreference E type values :
  forall s,
    for_of values (addUserPreference E type) s
    = (Some tt,
       mkState
         (mkDatabase (vinyl_listings (db s)) (price_history (db s))
            (user_preferences (db s) ++ seeded E type (date_reads s) values))
         (telegram s) (searched s) (date_reads s + length values)
         (newListings s) (outcomes s)).
Proof.
  induction values as [|v vs IH]; intros s.
  - cbn. rewrite app_nil_r, Nat.add_0_r. now destruct s as [[? ? ?] ? ? ? ? ?].
  - cbn [for_of]. unfold bind at 1.
    change (addUserPreference E type v s) with
      (Some tt,
       mkState
         (mkDatabase (vinyl_listings (db s)) (price_history (db s))
            (user_preferences (db s)
               ++ [PreferenceRow.mk type (JS.trim (JS.toLowerCase v)) (clock E (date_reads s))]))
         (telegram s) (searched s) (S (date_reads s)) (newListings s) (outcomes s)).
    cbv beta iota. rewrite IH. cbn. rewrite <- app_assoc, Nat.add_succ_r. reflexivity.
Qed.

Lemma seeded_length E type n values : length (seeded E type n values) = length values.
Proof. revert n. induction values; intros n; cbn; auto. Qed.

Lemma seedUserPreferences_nonempty E config s :
  user_preferences (db s) <> [] -> seedUserPreferences E config s = (Some tt, s).
Proof.
  intros H. unfold seedUserPreferences.
  unfold bind at 1. unfold getUserPreferences, bind at 1, get, ret.
  rewrite length_map.
  destruct (user_preferences (db s)); [contradiction | reflexivity].
Qed.

Lemma seedUserPreferences_empty E config s :
  user_preferences (db s) = [] ->
  seedUserPreferences E config s
  = (Some tt,
     let n := date_reads s in
     let a := UserPreferences.artists config in
     let g := UserPreferences.genres config in
     let b := UserPreferences.albums config in
     mkState
       (mkDatabase (vinyl_listings (db s)) (price_history (db s))
          (seeded E Artist n a ++ seeded E Genre (n + length a) g
             ++ seeded E Album (n + length a + length g) b))
       (telegram s) (searched s) (n + length a + length g + length b)
       (newListings s) (outcomes s)).
Proof.
  intros H. unfold seedUserPreferences.
  unfold bind at 1. unfold getUserPreferences, bind at 1, get, ret.
  rewrite H. cbn [map length Nat.ltb Nat.leb].
  unfold bind. rewrite !for_of_addUserPreference. cbn. rewrite H. cbn.
  now rewrite <- app_assoc.
Qed.

End SeedFacts.

(** X9.  [seedUserPreferences] writes the preference table only when it is
    empty.  Then it appends the configured artists, then the genres, then the
    albums, each in the order of the configuration, each value lowered and
    trimmed and dated with the time read for it; the other tables are not
    touched.  When the table holds a row, seeding changes nothing at all.
    Hence seeding twice is seeding once. *)
Theorem seedUserPreferences_once :
  forall (E : Env) (config : UserPreferences.t) (s : State),
    let s' := exec (seedUserPreferences E config) s in
    let n := date_reads s in
    let a := UserPreferences.artists config in
    let g := UserPreferences.genres config in
    let b := UserPreferences.albums config in
    fst (seedUserPreferences E config s) = Some tt /\
    (user_preferences (db s) <> [] -> s' = s) /\
    (user_preferences (db s) = [] ->
     user_preferences (db s') =
       (seeded E Artist n a ++ seeded E Genre (n + length a) g
          ++ seeded E Album (n + length a + length g) b)%list /\
     artist_terms s' = map (fun v => JS.trim (JS.toLowerCase v)) a) /\
    vinyl_listings (db s') = vinyl_listings (db s) /\
    price_history (db s') = price_history (db s) /\
    exec (seedUserPreferences E config ;; seedUserPreferences E config) s = s'.
Proof.
  intros E config s. cbn zeta. unfold exec.
  destruct (user_preferences (db s)) as [|p ps] eqn:Hp.
  - rewrite (SeedFacts.seedUserPreferences_empty E config s Hp). cbn.
    refine (conj eq_refl (conj _ (conj _ (conj eq_refl (conj eq_refl _))))).
    + intros H. contradiction.
    + intros _. split; [reflexivity|].
      unfold artist_terms. cbn.
      assert (Hs : forall ty n vs,
        map PreferenceRow.value
            (filter (fun row => PreferenceType_eqb (PreferenceRow.type row) Artist)
                    (seeded E ty n vs))
        = if PreferenceType_eqb ty Artist
          then map (fun v => JS.trim (JS.toLowerCase v)) vs else []).
      { intros ty n0 vs. revert n0.
        destruct ty; induction vs as [|v vs IH]; intros n0; cbn;
          rewrite ?IH; reflexivity. }
      rewrite !filter_app, !map_app, !Hs. cbn. now rewrite app_nil_r.
    + unfold bind. rewrite (SeedFacts.seedUserPreferences_empty E config s Hp).
      cbn zeta.
      match goal with |- snd (seedUserPreferences E config ?st) = _ => set (s1 := st) end.
      destruct (user_preferences (db s1)) as [|q qs] eqn:Hq.
      * subst s1. cbn in Hq.
        apply app_eq_nil in Hq. destruct Hq as [Ha Hq].
        apply app_eq_nil in Hq. destruct Hq as [Hg Hb].
        apply (f_equal (@length _)) in Ha, Hg, Hb.
        rewrite SeedFacts.seeded_length in Ha, Hg, Hb. cbn in Ha, Hg, Hb.
        apply length_zero_iff_nil in Ha, Hg, Hb.
        rewrite SeedFacts.seedUserPreferences_empty by (cbn; now rewrite Ha, Hg, Hb).
        cbn. rewrite Ha, Hg, Hb. cbn. rewrite !Nat.add_0_r. reflexivity.
      * rewrite SeedFacts.seedUserPreferences_nonempty; [reflexivity|].
        rewrite Hq. discriminate.
  - assert (Hne : user_preferences (db s) <> []) by (rewrite Hp; discriminate).
    rewrite (SeedFacts.seedUserPreferences_nonempty E config s Hne). cbn.
    refine (conj eq_refl (conj (fun _ => eq_refl) (conj _ (conj eq_refl (conj eq_refl _))))).
    + intros H. discriminate.
    + unfold bind. rewrite (SeedFacts.seedUserPreferences_nonempty E config s Hne).
      now rewrite (SeedFacts.seedUserPreferences_nonempty E config s Hne).
Qed.

Lemma seedUserPreferences_once_witness :
  artist_terms (exec (seedUserPreferences (discogs_env Scenario.clk Scenario.net_up)
                        Scenario2.config) Scenario2.empty)
  = ["pink floyd"; "the  doors"]
  /\ exec (seedUserPreferences (discogs_env Scenario.clk Scenario.net_up)
             Scenario2.config) Scenario.fresh = Scenario.fresh.
Proof.
  destruct (seedUserPreferences_once (discogs_env Scenario.clk Scenario.net_up)
              Scenario2.config Scenario2.empty) as (_ & _ & He & _).
  destruct (seedUserPreferences_once (discogs_env Scenario.clk Scenario.net_up)
              Scenario2.config Scenario.fresh) as (_ & Hn & _).
  split.
  - apply (He eq_refl).
  - apply Hn. simpl. discriminate.
Defined.

Module MatchFacts.

Lemma toLowerCase_idempotent s : JS.toLowerCase (JS.toLowerCase s) = JS.toLowerCase s.
Proof.
  induction s as [|c r IH]; [reflexivity|]. cbn.
  now rewrite JSFacts.lower_lower, IH.
Qed.

Lemma normalizeString_stored v :
  normalizeString (JS.trim (JS.toLowerCase v)) = normalizeString v.
Proof.
  rewrite !normalizeString_words. f_equal. unfold JS.trim.
  rewrite WordsFacts.trimEnd_words, WordsFacts.trimStart_words,
    WordsFacts.toLowerCase_words, map_map.
  apply map_ext, toLowerCase_idempotent.
Qed.

Lemma existsb_signature listing_text type prefs prefs' :
  map signature prefs = map signature prefs' ->
  existsb (fun p => JS.includes listing_text
                      (normalizeString (UserPreferenceRecord.value p)))
          (filter (of_type type) prefs)
  = existsb (fun p => JS.includes listing_text
                        (normalizeString (UserPreferenceRecord.value p)))
            (filter (of_type type) prefs').
Proof.
  revert prefs'. induction prefs as [|p ps IH]; intros [|p' ps'] H;
    try discriminate; [reflexivity|].
  cbn [map] in H. unfold signature at 1 3 in H. injection H as Ht Hv Hs.
  assert (Hot : of_type type p = of_type type p')
    by (unfold of_type; now rewrite Ht).
  cbn [filter]. rewrite Hot. destruct (of_type type p').
  - cbn [existsb]. now rewrite Hv, (IH ps' Hs).
  - apply IH, Hs.
Qed.

Lemma non_space_empty_trimStart s :
  non_space s = EmptyString -> JS.trimStart s = EmptyString.
Proof.
  induction s as [|c r IH]; [reflexivity|]. cbn.
  destruct (JS.is_space c); [exact IH | discriminate].
Qed.

Lemma toLowerCase_empty s : JS.toLowerCase s = EmptyString -> s = EmptyString.
Proof. destruct s; [reflexivity | discriminate]. Qed.

Lemma normalizeString_blank v :
  normalizeString v = EmptyString <-> non_space v = EmptyString.
Proof.
  split.
  - intros H. apply toLowerCase_empty.
    rewrite <- normalizeString_non_space, H. reflexivity.
  - intros H. unfold normalizeString, JS.trim.
    now rewrite (non_space_empty_trimStart v H).
Qed.

End MatchFacts.

(** X10.  Relevance only reads the type and the normalized value of each
    preference.  The value [addUserPreference] stores (lowered, trimmed) has
    the same normal form as the configured text, so a listing is relevant to
    the stored preferences exactly when it is relevant to the preferences as
    configured, whatever their capitals and their spacing. *)
Theorem relevance_reads_normal_forms :
  forall (listing : VinylListing.t) (preferences preferences' : list UserPreferenceRecord.t),
    (forall v, normalizeString (JS.trim (JS.toLowerCase v)) = normalizeString v) /\
    (map signature preferences = map signature preferences' ->
     isRelevantListing listing preferences = isRelevantListing listing preferences') /\
    isRelevantListing listing
      (map (fun p => UserPreferenceRecord.mk (UserPreferenceRecord.type p)
                       (JS.trim (JS.toLowerCase (UserPreferenceRecord.value p)))
                       (UserPreferenceRecord.createdAt p))
           preferences)
    = isRelevantListing listing preferences.
Proof.
  intros listing preferences preferences'.
  assert (Hsig : forall ps ps', map signature ps = map signature ps' ->
            isRelevantListing listing ps = isRelevantListing listing ps').
  { intros ps ps' H. unfold isRelevantListing. cbn zeta.
    now rewrite (MatchFacts.existsb_signature _ Artist ps ps' H),
                (MatchFacts.existsb_signature _ Album ps ps' H). }
  refine (conj MatchFacts.normalizeString_stored (conj (Hsig _ _) _)).
  apply Hsig. rewrite map_map. apply map_ext. intros p. unfold signature.
  cbn [UserPreferenceRecord.type UserPreferenceRecord.value].
  now rewrite MatchFacts.normalizeString_stored.
Qed.

Lemma relevance_reads_normal_forms_witness :
  isRelevantListing Scenario.listing [UserPreferenceRecord.mk Artist "  PINK   Floyd " 7%Z]
  = isRelevantListing Scenario.listing [UserPreferenceRecord.mk Artist "pink floyd" 0%Z].
Proof.
  destruct (relevance_reads_normal_forms Scenario.listing
              [UserPreferenceRecord.mk Artist "  PINK   Floyd " 7%Z]
              [UserPreferenceRecord.mk Artist "pink floyd" 0%Z]) as (_ & H & _).
  apply H. reflexivity.
Defined.

(** X11.  A preference of type artist or album whose value is empty or all
    whitespace matches every listing: with it in the table each candidate is
    relevant.  A value normalizes to the empty string exactly when it has no
    non-whitespace character. *)
Theorem blank_preference_matches_all :
  forall (preferences : list UserPreferenceRecord.t) (p : UserPreferenceRecord.t),
    In p preferences ->
    UserPreferenceRecord.type p <> Genre ->
    non_space (UserPreferenceRecord.value p) = EmptyString ->
    normalizeString (UserPreferenceRecord.value p) = EmptyString /\
    forall listing, isRelevantListing listing preferences = true.
Proof.
  intros preferences p Hin Ht Hv.
  apply MatchFacts.normalizeString_blank in Hv. split; [exact Hv|].
  intros listing. apply isRelevantListing_spec.
  destruct (UserPreferenceRecord.type p) eqn:Hty; [left| contradiction |right];
    exists p; (split; [exact Hin|]); (split; [exact Hty|]);
    rewrite Hv; apply IncludesFacts.includes_spec, IncludesFacts.includes_empty.
Qed.

Lemma blank_preference_matches_all_witness :
  isRelevantListing Scenario.listing
    [UserPreferenceRecord.mk Genre "rock" 0%Z; UserPreferenceRecord.mk Album "  " 0%Z]
  = true.
Proof.
  assert (H : In (UserPreferenceRecord.mk Album "  " 0%Z)
                 [UserPreferenceRecord.mk Genre "rock" 0%Z;
                  UserPreferenceRecord.mk Album "  " 0%Z])
    by (simpl; right; left; reflexivity).
  assert (Ht : UserPreferenceRecord.type (UserPreferenceRecord.mk Album "  " 0%Z) <> Genre)
    by (simpl; discriminate).
  exact (proj2 (blank_preference_matches_all _ _ H Ht eq_refl) Scenario.listing).
Defined.

(** X12.  Relevance is monotone in the preferences and blind to their order:
    a listing relevant to some preferences is relevant to every list that
    holds them all.  Without a preference of type artist or album no listing
    is relevant. *)
Theorem relevance_monotone :
  forall (listing : VinylListing.t) (preferences preferences' : list UserPreferenceRecord.t),
    (incl preferences preferences' ->
     isRelevantListing listing preferences = true ->
     isRelevantListing listing preferences' = true) /\
    ((forall p, In p preferences -> UserPreferenceRecord.type p = Genre) ->
     isRelevantListing listing preferences = false).
Proof.
  intros listing preferences preferences'. split.
  - intros Hincl H. apply isRelevantListing_spec in H. apply isRelevantListing_spec.
    destruct H as [(p & Hin & H)|(p & Hin & H)]; [left|right]; exists p; auto.
  - intros Hall. apply Bool.not_true_is_false. intros H.
    apply isRelevantListing_spec in H.
    destruct H as [(p & Hin & Ht & _)|(p & Hin & Ht & _)];
      rewrite (Hall p Hin) in Ht; discriminate.
Qed.

Lemma relevance_monotone_witness :
  isRelevantListing Scenario.listing
    (UserPreferenceRecord.mk Album "abbey road" 0%Z :: Scenario.preferences) = true
  /\ isRelevantListing Scenario.listing [UserPreferenceRecord.mk Genre "pink floyd" 0%Z] = false.
Proof.
  split.
  - apply (proj1 (relevance_monotone Scenario.listing Scenario.preferences
                    (UserPreferenceRecord.mk Album "abbey road" 0%Z :: Scenario.preferences))).
    + simpl. intros p H. right. exact H.
    + reflexivity.
  - apply (proj2 (relevance_monotone Scenario.listing
                    [UserPreferenceRecord.mk Genre "pink floyd" 0%Z] [])).
    simpl. intros p [<-|[]]. reflexivity.
Defined.

(* ------------------------------------------------------------------ *)
(** ** DiscogsService: the candidates *)

Module ClientFacts.

Lemma createUniqueKey_normalized seller price title :
  createUniqueKey (normalizeString seller) price (normalizeString title)
  = createUniqueKey seller price title.
Proof.
  unfold createUniqueKey, normalizedData.
  now rewrite !normalizeString_idempotent.
Qed.

Lemma getListingsAlternative_length a :
  (length (DiscogsService.getListingsAlternative a) <= 3)%nat.
Proof.
  unfold DiscogsService.getListingsAlternative.
  destruct (DiscogsService.alt_release a) as [rd|]; [|cbn; lia].
  destruct (DiscogsService.alt_in_marketplace a) as [n|].
  - destruct (Z.ltb_spec 0 n).
    + cbn. unfold DiscogsService.createRealisticListings.
      rewrite length_map, length_seq. lia.
    + destruct (false || DiscogsService.isPopularRelease rd); cbn; lia.
  - destruct (false || DiscogsService.isPopularRelease rd); cbn; lia.
Qed.

Lemma collectListings_length net n k rs :
  (forall i id, length (DiscogsService.getMarketplaceListings
                          (DiscogsService.marketplace net n i id)) <= k)%nat ->
  forall i, (length (DiscogsService.collectListings net n i rs) <= length rs * k)%nat.
Proof.
  intros Hk. induction rs as [|r rs IH]; intros i; cbn; [lia|].
  rewrite length_app. specialize (IH (S i)).
  specialize (Hk i (DiscogsService.result_id r)). lia.
Qed.

End ClientFacts.

(** X13.  Every candidate [searchForArtist] returns is well formed: its
    title, artist and seller are the normal forms of the displayed ones, and
    normalizing them again changes nothing; its key is the key of its
    displayed seller, price and title, which is also the key of its stored
    seller, price and title; it is active, marked as shipping to Israel,
    and its source is [discogs]. *)
Theorem searchForArtist_well_formed :
  forall (net : DiscogsService.Network) (n : nat) (artistName : string)
         (listing : VinylListing.t),
    In listing (DiscogsService.searchForArtist net n artistName) ->
    VinylListing.title listing = normalizeString (VinylListing.titleDisplay listing) /\
    VinylListing.artist listing = normalizeString (VinylListing.artistDisplay listing) /\
    VinylListing.seller listing = normalizeString (VinylListing.sellerDisplay listing) /\
    normalizeString (VinylListing.title listing) = VinylListing.title listing /\
    normalizeString (VinylListing.artist listing) = VinylListing.artist listing /\
    VinylListing.uniqueKey listing
      = createUniqueKey (VinylListing.sellerDisplay listing) (VinylListing.price listing)
                        (VinylListing.titleDisplay listing) /\
    VinylListing.uniqueKey listing
      = createUniqueKey (VinylListing.seller listing) (VinylListing.price listing)
                        (VinylListing.title listing) /\
    VinylListing.isActive listing = true /\
    VinylListing.isShipsToIsrael listing = true /\
    VinylListing.source listing = "discogs".
Proof.
  intros net n artistName listing Hin.
  apply client_listing_searchForArtist in Hin.
  destruct Hin as [raw st Hv|rd d];
    unfold DiscogsService.convertToVinylListing, DiscogsService.realisticListing;
    cbn [VinylListing.title VinylListing.titleDisplay VinylListing.artist
         VinylListing.artistDisplay VinylListing.seller VinylListing.sellerDisplay
         VinylListing.uniqueKey VinylListing.price VinylListing.isActive
         VinylListing.isShipsToIsrael VinylListing.source];
    rewrite !normalizeString_idempotent, ClientFacts.createUniqueKey_normalized;
    repeat split; reflexivity.
Qed.

Lemma searchForArtist_well_formed_witness :
  VinylListing.uniqueKey Scenario.listing = createUniqueKey "rarevinyl" 50 "the wall".
Proof.
  apply (searchForArtist_well_formed Scenario.net_up 0 "pink floyd" Scenario.listing).
  simpl. left. reflexivity.
Defined.

(** X14.  The alternative method never builds more than three listings: as
    many as the marketplace statistic says, capped at three, when that
    statistic is positive; otherwise one listing if the release is popular
    and none if it is not.  It builds none when the release cannot be
    read. *)
Theorem getListingsAlternative_bounded :
  forall (a : DiscogsService.Alternative),
    (length (DiscogsService.getListingsAlternative a) <= 3)%nat /\
    (DiscogsService.alt_release a = None ->
     DiscogsService.getListingsAlternative a = []) /\
    (forall rd n,
       DiscogsService.alt_release a = Some rd ->
       DiscogsService.alt_in_marketplace a = Some n -> (0 < n)%Z ->
       length (DiscogsService.getListingsAlternative a) = Z.to_nat (Z.min n 3)) /\
    (forall rd,
       DiscogsService.alt_release a = Some rd ->
       (forall n, DiscogsService.alt_in_marketplace a = Some n -> (n <= 0)%Z) ->
       length (DiscogsService.getListingsAlternative a)
       = if DiscogsService.isPopularRelease rd then 1%nat else 0%nat).
Proof.
  intros a. refine (conj (ClientFacts.getListingsAlternative_length a) (conj _ (conj _ _))).
  - intros H. unfold DiscogsService.getListingsAlternative. now rewrite H.
  - intros rd n Hr Hn Hpos. unfold DiscogsService.getListingsAlternative.
    rewrite Hr, Hn. apply Z.ltb_lt in Hpos. rewrite Hpos. cbn.
    unfold DiscogsService.createRealisticListings. now rewrite length_map, length_seq.
  - intros rd Hr Hn. unfold DiscogsService.getListingsAlternative. rewrite Hr.
    destruct (DiscogsService.alt_in_marketplace a) as [n|].
    + specialize (Hn n eq_refl). apply Z.ltb_ge in Hn. rewrite Hn. cbn.
      destruct (DiscogsService.isPopularRelease rd); reflexivity.
    + cbn. destruct (DiscogsService.isPopularRelease rd); reflexivity.
Qed.

Lemma getListingsAlternative_bounded_witness :
  DiscogsService.getListingsAlternative
    (DiscogsService.mkAlternative None (Some 7%Z)
       (fun _ => DiscogsService.mkDraw 30 "Mint (M)" 1 9 (DiscogsService.mkStamp "u" 0%Z 1%Z)))
  = [].
Proof.
  apply (getListingsAlternative_bounded
           (DiscogsService.mkAlternative None (Some 7%Z)
              (fun _ => DiscogsService.mkDraw 30 "Mint (M)" 1 9 (DiscogsService.mkStamp "u" 0%Z 1%Z)))).
  reflexivity.
Defined.

(** X15.  [searchForArtist] asks the marketplace about the first five
    releases only and never fails: if no answer holds more than [k]
    listings it returns at most [5 * k] candidates, and it returns none when
    the search request throws or finds no release. *)
Theorem searchForArtist_bounded :
  forall (net : DiscogsService.Network) (n k : nat) (artistName : string),
    (forall i id, length (DiscogsService.getMarketplaceListings
                            (DiscogsService.marketplace net n i id)) <= k)%nat ->
    (length (DiscogsService.searchForArtist net n artistName) <= 5 * k)%nat /\
    (DiscogsService.searchReleases net n artistName = None ->
     DiscogsService.searchForArtist net n artistName = []) /\
    (DiscogsService.searchReleases net n artistName = Some [] ->
     DiscogsService.searchForArtist net n artistName = []).
Proof.
  intros net n k artistName Hk. unfold DiscogsService.searchForArtist.
  destruct (DiscogsService.searchReleases net n artistName) as [releases|].
  - refine (conj _ (conj _ _)).
    + pose proof (ClientFacts.collectListings_length net n k (firstn 5 releases) Hk 0) as H.
      pose proof (firstn_le_length 5 releases) as Hl.
      assert (length (firstn 5 releases) <= 5)%nat by (rewrite length_firstn; lia).
      nia.
    + discriminate.
    + intros [= ->]. reflexivity.
  - cbn. repeat split; lia.
Qed.

Lemma searchForArtist_bounded_witness :
  (length (DiscogsService.searchForArtist Scenario.net_up 0 "pink floyd") <= 5 * 1)%nat.
Proof.
  apply (searchForArtist_bounded Scenario.net_up 0 1 "pink floyd").
  intros i id. vm_compute. lia.
Defined.

(** X16.  A marketplace listing is kept exactly when it has a price, a
    seller and a non-empty condition and, unless its seller states no
    shipping destination at all, one of the stated destinations contains, in
    any capitalization, one of the seven shipping words.  The listings
    [getMarketplaceListings] returns are the conversions of the listings
    kept, so they are never more than the listings received. *)
Theorem isValidListing_spec :
  forall (listing : DiscogsService.DiscogsMarketplaceListing)
         (received : list (DiscogsService.DiscogsMarketplaceListing * DiscogsService.Stamp)),
    (DiscogsService.isValidListing listing = true <->
     DiscogsService.price_value listing <> None /\
     DiscogsService.seller_username listing <> None /\
     (exists c, DiscogsService.condition listing = Some c /\ c <> EmptyString) /\
     (DiscogsService.ships_to listing = None \/
      DiscogsService.ships_to listing = Some [] \/
      exists countries country word,
        DiscogsService.ships_to listing = Some countries /\
        In country countries /\ In word shipping_words /\
        contains (JS.toLowerCase country) word)) /\
    (length (DiscogsService.getMarketplaceListings
               (DiscogsService.Listings (Some received))) <= length received)%nat /\
    (forall l, In l (DiscogsService.getMarketplaceListings
                       (DiscogsService.Listings (Some received))) <->
       exists raw st, In (raw, st) received /\
                      DiscogsService.isValidListing raw = true /\
                      l = DiscogsService.convertToVinylListing raw st).
Proof.
  intros listing received. refine (conj _ (conj _ _)).
  - assert (Hship : DiscogsService.shipsToIsrael listing = true <->
      (DiscogsService.ships_to listing = None \/
       DiscogsService.ships_to listing = Some [] \/
       exists countries country word,
         DiscogsService.ships_to listing = Some countries /\
         In country countries /\ In word shipping_words /\
         contains (JS.toLowerCase country) word)).
    { unfold DiscogsService.shipsToIsrael.
      destruct (DiscogsService.ships_to listing) as [[|c cs]|].
      - split; auto.
      - rewrite existsb_exists. split.
        + intros (country & Hin & H). right. right.
          repeat (apply Bool.orb_true_iff in H; destruct H as [H|H]);
            apply IncludesFacts.includes_spec in H;
            eexists; exists country; eexists;
            (split; [reflexivity|]); (split; [exact Hin|]);
            (split; [|exact H]); cbn; tauto.
        + intros [H|[H|(countries & country & word & [= <-] & Hin & Hw & Hc)]];
            try discriminate.
          exists country. split; [exact Hin|].
          apply IncludesFacts.includes_spec in Hc.
          cbn in Hw. repeat (destruct Hw as [<-|Hw]; [rewrite Hc; cbn;
            rewrite ?Bool.orb_true_r; reflexivity|]). contradiction.
      - split; auto. }
    rewrite <- Hship. unfold DiscogsService.isValidListing.
    destruct (DiscogsService.price_value listing) as [v|];
      destruct (DiscogsService.seller_username listing) as [u|];
      destruct (DiscogsService.condition listing) as [[|c0 c]|]; cbn;
      split; try discriminate; try tauto;
      try (intros (Hp & Hs & (c' & Hc & Hne) & _); congruence).
    intros H. repeat split; try discriminate; try exact H.
    eexists. split; [reflexivity | discriminate].
  - cbn. rewrite length_map. apply filter_length_le.
  - intros l. cbn. rewrite in_map_iff. split.
    + intros ([raw st] & <- & Hin). apply filter_In in Hin. destruct Hin.
      exists raw, st. auto.
    + intros (raw & st & Hin & Hv & ->). exists (raw, st). split; [reflexivity|].
      apply filter_In. auto.
Qed.

Lemma isValidListing_spec_witness :
  DiscogsService.isValidListing
    (DiscogsService.mkMarketplaceListing "/sell/item/9" (Some "Mint (M)") "EUR"
       (Some 20%Z) None (Some "shop") (Some ["Germany"; "ISRAEL and Cyprus"])
       "Meddle" ["Pink Floyd"]) = true.
Proof.
  apply (isValidListing_spec
           (DiscogsService.mkMarketplaceListing "/sell/item/9" (Some "Mint (M)") "EUR"
              (Some 20%Z) None (Some "shop") (Some ["Germany"; "ISRAEL and Cyprus"])
              "Meddle" ["Pink Floyd"]) []).
  repeat split; try discriminate.
  - exists "Mint (M)". split; [reflexivity | discriminate].
  - right. right. exists ["Germany"; "ISRAEL and Cyprus"], "ISRAEL and Cyprus", "israel".
    repeat split.
    + simpl. right. left. reflexivity.
    + simpl. left. reflexivity.
    + exists EmptyString, " and cyprus". reflexivity.
Defined.

(* ------------------------------------------------------------------ *)
(** ** DiscogsService.makeRequest *)

Module HttpFacts.

Section Attempts.

Variable Json : Type.
Variable retries : nat.
Variable answer : nat -> Http.Answer Json.

Lemma wait_le_backoff attempt : (1000 * Z.of_nat attempt <= 2 ^ Z.of_nat attempt * 1000)%Z.
Proof.
  assert (H : (Z.of_nat attempt <= 2 ^ Z.of_nat attempt)%Z).
  { induction attempt as [|a IH]; [cbn; lia|].
    rewrite Nat2Z.inj_succ, Z.pow_succ_r by lia. lia. }
  lia.
Qed.

(** Counting and bounding, from any iteration on. *)
Lemma attempts_bounds remaining :
  forall attempt,
    let run := Http.attempts remaining attempt retries answer in
    (Http.fetches run <= remaining)%nat /\
    (length (Http.delays run) <= Http.fetches run)%nat /\
    (fold_right Z.add 0 (Http.delays run)
     <= (2 ^ Z.of_nat (attempt + remaining) - 2 ^ Z.of_nat attempt) * 1000)%Z /\
    Forall (fun d => 0 <= d)%Z (Http.delays run).
Proof.
  induction remaining as [|rem IH]; intros attempt; cbn zeta.
  - cbn. rewrite Nat.add_0_r. repeat split; auto; lia.
  - specialize (IH (S attempt)). cbn zeta in IH.
    destruct IH as (Hf & Hl & Hs & Hp).
    assert (Hpow : (2 ^ Z.of_nat (S attempt) = 2 * 2 ^ Z.of_nat attempt)%Z)
      by (rewrite Nat2Z.inj_succ, Z.pow_succ_r by lia; reflexivity).
    assert (Hmono : (2 ^ Z.of_nat (S attempt) <= 2 ^ Z.of_nat (attempt + S rem))%Z)
      by (apply Z.pow_le_mono_r; lia).
    assert (Hpos : (0 < 2 ^ Z.of_nat attempt)%Z) by (apply Z.pow_pos_nonneg; lia).
    replace (S attempt + rem)%nat with (attempt + S rem)%nat in Hs by lia.
    pose proof (wait_le_backoff attempt) as Hw.
    cbn [Http.attempts].
    destruct (answer attempt) as [|status text|json|message|message];
      try destruct (attempt =? retries)%nat; unfold Http.after_wait;
      cbn [Http.result Http.fetches Http.delays fold_right length];
      repeat split; try lia; try (constructor; [lia | assumption]); auto.
Qed.

(** The first success ends the loop. *)
Lemma attempts_success remaining :
  forall attempt k json,
    (attempt + remaining = S retries)%nat ->
    (attempt <= k)%nat -> (k <= retries)%nat ->
    answer k = Http.Success json ->
    (forall a j, (attempt <= a < k)%nat -> answer a <> Http.Success j) ->
    (forall a m, (attempt <= a < k)%nat -> answer a <> Http.Unreadable m) ->
    let run := Http.attempts remaining attempt retries answer in
    Http.result run = Http.Returned json /\
    Http.fetches run = (k - attempt + 1)%nat.
Proof.
  induction remaining as [|rem IH];
    intros attempt k json Hsum Hle Hk Hans Hbefore Hread;
    cbn zeta; [lia|].
  cbn [Http.attempts].
  destruct (Nat.eq_dec attempt k) as [->|Hne].
  - rewrite Hans. cbn. split; [reflexivity | lia].
  - assert (Hnr : (attempt =? retries)%nat = false) by (apply Nat.eqb_neq; lia).
    destruct (IH (S attempt) k json) as (Hr & Hf); try lia; auto.
    { intros a j Ha. apply Hbefore. lia. }
    { intros a m Ha. apply Hread. lia. }
    cbn zeta in Hr, Hf.
    destruct (answer attempt) as [|status text|j|m|message] eqn:Ha; rewrite ?Hnr; cbn.
    + split; [exact Hr | lia].
    + split; [exact Hr | lia].
    + exfalso. apply (Hbefore attempt j); [lia | exact Ha].
    + exfalso. apply (Hread attempt m); [lia | exact Ha].
    + split; [exact Hr | lia].
Qed.

(** What is thrown, and when: the error of the last attempt, after all the
    attempts, or the error of reading a body, at once. *)
Lemma attempts_thrown remaining :
  forall attempt message,
    (attempt + remaining = S retries)%nat ->
    let run := Http.attempts remaining attempt retries answer in
    Http.result run = Http.Thrown message ->
    (Http.fetches run = remaining /\
     (answer retries = Http.Rejected message \/
      exists status text,
        answer retries = Http.Failed status text /\
        message = "Discogs API error: " ++ JS.number_to_string status ++ " " ++ text))
    \/
    (exists k,
       (attempt <= k <= retries)%nat /\
       answer k = Http.Unreadable message /\
       Http.fetches run = (k - attempt + 1)%nat).
Proof.
  induction remaining as [|rem IH]; intros attempt message Hsum; cbn zeta;
    [cbn; discriminate|].
  cbn [Http.attempts].
  specialize (IH (S attempt) message). cbn zeta in IH.
  set (next := Http.attempts rem (S attempt) retries answer) in *.
  assert (Hnext :
    Http.result next = Http.Thrown message ->
    (S (Http.fetches next) = S rem /\
     (answer retries = Http.Rejected message \/
      exists status text,
        answer retries = Http.Failed status text /\
        message = "Discogs API error: " ++ JS.number_to_string status ++ " " ++ text))
    \/
    (exists k,
       (attempt <= k <= retries)%nat /\
       answer k = Http.Unreadable message /\
       S (Http.fetches next) = (k - attempt + 1)%nat)).
  { intros H. destruct IH as [(Hf & Hl)|(k & Hk & Ha & Hf)]; [lia | exact H | |].
    - left. split; [lia | exact Hl].
    - right. exists k. split; [lia|]. split; [exact Ha | lia]. }
  destruct (answer attempt) as [|status text|j|m|msg] eqn:Ha.
  - cbn. intros H. exact (Hnext H).
  - destruct (Nat.eqb_spec attempt retries) as [->|Hne]; cbn.
    + intros [= <-]. left. split; [lia|]. right. eauto.
    + intros H. exact (Hnext H).
  - cbn. discriminate.
  - cbn. intros [= <-]. right. exists attempt. split; [lia|]. split; [exact Ha | lia].
  - destruct (Nat.eqb_spec attempt retries) as [->|Hne]; cbn.
    + intros [= <-]. left. split; [lia|]. left. exact Ha.
    + intros H. exact (Hnext H).
Qed.

(** Rate-limited all the way. *)
Lemma attempts_limited remaining :
  forall attempt,
    (forall a, (attempt <= a < attempt + remaining)%nat -> answer a = Http.RateLimited) ->
    Http.attempts remaining attempt retries answer
    = Http.mkRun Json Http.Undefined remaining
        (map (fun a => 2 ^ Z.of_nat a * 1000)%Z (seq attempt remaining)).
Proof.
  induction remaining as [|rem IH]; intros attempt Hall; [reflexivity|].
  cbn [Http.attempts seq map]. rewrite (Hall attempt) by lia.
  rewrite IH by (intros a Ha; apply Hall; lia). reflexivity.
Qed.

End Attempts.

Lemma sum_nonneg (l : list Z) :
  Forall (fun d => 0 <= d)%Z l -> (0 <= fold_right Z.add 0 l)%Z.
Proof. induction 1; cbn; lia. Qed.

End HttpFacts.

(** X17.  [makeRequest] is bounded: it makes at most [retries] requests,
    waits at most once per request made, and waits no longer in total than
    the full exponential backoff, [(2 ^ (retries + 1) - 2)] seconds, which
    is fourteen seconds for the three attempts the service uses. *)
Theorem makeRequest_bounded :
  forall (Json : Type) (retries : nat) (answer : nat -> Http.Answer Json),
    let run := Http.makeRequest retries answer in
    (Http.fetches run <= retries)%nat /\
    (length (Http.delays run) <= Http.fetches run)%nat /\
    (0 <= fold_right Z.add 0 (Http.delays run)
     <= (2 ^ Z.of_nat (retries + 1) - 2) * 1000)%Z /\
    (retries = 3%nat -> fold_right Z.add 0 (Http.delays run) <= 14000)%Z.
Proof.
  intros Json retries answer. cbn zeta. unfold Http.makeRequest.
  destruct (HttpFacts.attempts_bounds Json retries answer retries 1) as (Hf & Hl & Hs & Hp).
  cbn zeta in *.
  assert (Hnn : (0 <= fold_right Z.add 0
                        (Http.delays (Http.attempts retries 1 retries answer)))%Z).
  { apply HttpFacts.sum_nonneg, Hp. }
  replace (1 + retries)%nat with (retries + 1)%nat in Hs by lia.
  change (2 ^ Z.of_nat 1)%Z with 2%Z in Hs.
  refine (conj Hf (conj Hl (conj (conj Hnn Hs) _))).
  intros ->.
  change ((2 ^ Z.of_nat (3 + 1) - 2) * 1000)%Z with 14000%Z in Hs. exact Hs.
Qed.

Lemma makeRequest_bounded_witness :
  (fold_right Z.add 0 (Http.delays (Http.makeRequest 3 Scenario2.second_try)) <= 14000)%Z.
Proof.
  apply (makeRequest_bounded _ 3 Scenario2.second_try). reflexivity.
Defined.

(** X18.  [makeRequest] returns the body of the first successful attempt,
    provided that attempt is within the [retries] allowed: every earlier
    attempt, whether it was rate-limited, answered an error status or failed
    to connect, is retried, and the number of requests made is the number of
    that attempt.  (An earlier answer whose body cannot be read is not
    retried: see the next statement.) *)
Theorem makeRequest_first_success :
  forall (Json : Type) (retries : nat) (answer : nat -> Http.Answer Json)
         (k : nat) (json : Json),
    (1 <= k)%nat -> (k <= retries)%nat ->
    answer k = Http.Success json ->
    (forall a j, (1 <= a < k)%nat -> answer a <> Http.Success j) ->
    (forall a m, (1 <= a < k)%nat -> answer a <> Http.Unreadable m) ->
    Http.result (Http.makeRequest retries answer) = Http.Returned json /\
    Http.fetches (Http.makeRequest retries answer) = k.
Proof.
  intros Json retries answer k json H1 Hk Hans Hbefore Hread.
  destruct (HttpFacts.attempts_success Json retries answer retries 1 k json)
    as (Hr & Hf); try lia; auto.
  unfold Http.makeRequest. cbn zeta in Hr, Hf. split; [exact Hr | lia].
Qed.

Lemma makeRequest_first_success_witness :
  Http.result (Http.makeRequest 3 Scenario2.second_try)
  = Http.Returned (Some [DiscogsService.mkSearchResult 1%Z "Pink Floyd - The Wall"]) /\
  Http.fetches (Http.makeRequest 3 Scenario2.second_try) = 2%nat.
Proof.
  apply (makeRequest_first_success _ 3 Scenario2.second_try 2).
  - lia.
  - lia.
  - reflexivity.
  - intros a j Ha. assert (a = 1%nat) as -> by lia. simpl. discriminate.
  - intros a m Ha. assert (a = 1%nat) as -> by lia. simpl. discriminate.
Defined.

(** X19.  [makeRequest] throws in two cases only.  After its last attempt:
    it has then made all [retries] requests, and what it throws is the error
    of that last attempt, the connection error itself or the message built
    from the status of the response.  Or at once, at any attempt whose
    response is [ok] but whose body cannot be read: the error of reading is
    thrown without a retry, the requests made being those up to that
    attempt. *)
Theorem makeRequest_throws :
  forall (Json : Type) (retries : nat) (answer : nat -> Http.Answer Json)
         (message : string),
    Http.result (Http.makeRequest retries answer) = Http.Thrown message ->
    (Http.fetches (Http.makeRequest retries answer) = retries /\
     (answer retries = Http.Rejected message \/
      exists status text,
        answer retries = Http.Failed status text /\
        message = "Discogs API error: " ++ JS.number_to_string status ++ " " ++ text))
    \/
    (exists k,
       (1 <= k <= retries)%nat /\
       answer k = Http.Unreadable message /\
       Http.fetches (Http.makeRequest retries answer) = k).
Proof.
  intros Json retries answer message H.
  destruct (HttpFacts.attempts_thrown Json retries answer retries 1 message)
    as [Hlast|(k & Hk & Ha & Hf)]; [lia | exact H | now left |].
  right. exists k. unfold Http.makeRequest. split; [exact Hk|]. split; [exact Ha | lia].
Qed.

Lemma makeRequest_throws_witness :
  Http.fetches (Http.makeRequest 3 (fun _ => Http.Failed (Json := unit) 503 "Service Unavailable"))
  = 3%nat /\
  exists k, Scenario2.garbled k = Http.Unreadable "Unexpected token < in JSON at position 0" /\
            Http.fetches (Http.makeRequest 3 Scenario2.garbled) = k.
Proof.
  split.
  - destruct (makeRequest_throws unit 3 (fun _ => Http.Failed 503 "Service Unavailable")
                "Discogs API error: 503 Service Unavailable" eq_refl)
      as [(Hf & _)|(k & _ & Ha & _)]; [exact Hf | discriminate].
  - destruct (makeRequest_throws _ 3 Scenario2.garbled
                "Unexpected token < in JSON at position 0" eq_refl)
      as [(_ & [Hr|(status & text & Ha & _)])|(k & _ & Ha & Hf)].
    + discriminate.
    + discriminate.
    + exists k. split; assumption.
Defined.

(** X20.  When every attempt is rate-limited, [makeRequest] does not throw:
    after waiting two, four and eight seconds it falls out of its loop and
    returns [undefined].  [searchReleases] then throws on reading that, and
    [searchForArtist] answers with no candidate. *)
Theorem makeRequest_rate_limited :
  forall (answer : nat -> Http.Answer (option (list DiscogsService.DiscogsSearchResult)))
         (net : DiscogsService.Network) (n : nat) (artistName : string),
    (forall a, (1 <= a <= 3)%nat -> answer a = Http.RateLimited) ->
    DiscogsService.searchReleases net n artistName = Http.searchReleases answer ->
    Http.makeRequest 3 answer
      = Http.mkRun _ Http.Undefined 3 [2000; 4000; 8000]%Z /\
    Http.searchReleases answer = None /\
    DiscogsService.searchForArtist net n artistName = [].
Proof.
  intros answer net n artistName Hall Hnet.
  assert (Hrun : Http.makeRequest 3 answer
                 = Http.mkRun _ Http.Undefined 3 [2000; 4000; 8000]%Z).
  { unfold Http.makeRequest.
    rewrite HttpFacts.attempts_limited by (intros a Ha; apply Hall; lia).
    reflexivity. }
  assert (Hs : Http.searchReleases answer = None)
    by (unfold Http.searchReleases; now rewrite Hrun).
  refine (conj Hrun (conj Hs _)).
  unfold DiscogsService.searchForArtist. now rewrite Hnet, Hs.
Qed.

Lemma makeRequest_rate_limited_witness :
  Http.searchReleases Scenario2.limited = None.
Proof.
  apply (makeRequest_rate_limited Scenario2.limited
           (DiscogsService.mkNetwork (fun _ _ => Http.searchReleases Scenario2.limited)
                                     (fun _ _ _ => DiscogsService.OtherError))
           0 "pink floyd").
  - intros a _. reflexivity.
  - reflexivity.
Defined.

(** X21.  A marketplace request that fails, the last attempt made being
    answered 405, sends [getMarketplaceListings] to the alternative method,
    which yields at most three listings; any failure whose message does not
    mention 405 yields no listing. *)
Theorem marketplace_405_alternative :
  forall (answer : nat -> Http.Answer (option (list (DiscogsService.DiscogsMarketplaceListing
                                                * DiscogsService.Stamp))))
         (alternative : DiscogsService.Alternative) (message text : string),
    Http.result (Http.makeRequest 3 answer) = Http.Thrown message ->
    (answer (Http.fetches (Http.makeRequest 3 answer)) = Http.Failed 405 text ->
     Http.marketplace_response answer alternative = DiscogsService.Error405 alternative /\
     DiscogsService.getMarketplaceListings (Http.marketplace_response answer alternative)
     = DiscogsService.getListingsAlternative alternative) /\
    (JS.includes message "405" = false ->
     DiscogsService.getMarketplaceListings (Http.marketplace_response answer alternative) = []) /\
    (length (DiscogsService.getMarketplaceListings
               (Http.marketplace_response answer alternative)) <= 3)%nat.
Proof.
  intros answer alternative message text Hthrown.
  unfold Http.marketplace_response. rewrite Hthrown.
  refine (conj _ (conj _ _)).
  - intros H3.
    destruct (HttpFacts.attempts_thrown _ 3 answer 3 1 message eq_refl Hthrown)
      as [(Hn & [Hr|Hf])|(k & Hk & Ha & Hn)];
      unfold Http.makeRequest in H3; rewrite Hn in H3.
    + rewrite H3 in Hr. discriminate.
    + destruct Hf as (status & text' & Ha & ->). rewrite H3 in Ha.
      injection Ha as <- <-.
      assert (Hi : JS.includes ("Discogs API error: " ++ JS.number_to_string 405 ++ " " ++ text)
                               "405" = true).
      { apply IncludesFacts.includes_spec.
        exists "Discogs API error: ", (" " ++ text). reflexivity. }
      rewrite Hi. split; reflexivity.
    + replace (k - 1 + 1)%nat with k in H3 by lia. rewrite H3 in Ha. discriminate.
  - intros ->. reflexivity.
  - destruct (JS.includes message "405"); cbn; [|lia].
    apply ClientFacts.getListingsAlternative_length.
Qed.

Lemma marketplace_405_alternative_witness :
  Http.marketplace_response (fun _ => Http.Failed 405 "Method Not Allowed")
    (DiscogsService.mkAlternative None None
       (fun _ => DiscogsService.mkDraw 30 "Mint (M)" 1 9 (DiscogsService.mkStamp "u" 0%Z 1%Z)))
  = DiscogsService.Error405
      (DiscogsService.mkAlternative None None
         (fun _ => DiscogsService.mkDraw 30 "Mint (M)" 1 9 (DiscogsService.mkStamp "u" 0%Z 1%Z))).
Proof.
  apply (marketplace_405_alternative (fun _ => Http.Failed 405 "Method Not Allowed")
           (DiscogsService.mkAlternative None None
              (fun _ => DiscogsService.mkDraw 30 "Mint (M)" 1 9 (DiscogsService.mkStamp "u" 0%Z 1%Z)))
           "Discogs API error: 405 Method Not Allowed" "Method Not Allowed").
  - reflexivity.
  - reflexivity.
Defined.

(* ------------------------------------------------------------------ *)
(** ** The key as a text *)

Module KeyTextFacts.

Lemma sextet_char_base64 b5 b4 b3 b2 b1 b0 :
  base64_char (Buffer.sextet_char b5 b4 b3 b2 b1 b0) = true.
Proof. destruct b5, b4, b3, b2, b1, b0; reflexivity. Qed.

Lemma enc_base64 a b :
  base64_char (Buffer.enc1 a) = true /\ base64_char (Buffer.enc2 a b) = true /\
  base64_char (Buffer.enc3 a b) = true /\ base64_char (Buffer.enc4 a) = true.
Proof.
  destruct a, b. unfold Buffer.enc1, Buffer.enc2, Buffer.enc3, Buffer.enc4.
  repeat split; apply sextet_char_base64.
Qed.

Lemma toString_base64_shape bs :
  all_chars base64_char (Buffer.toString_base64 bs) = true /\
  (String.length (Buffer.toString_base64 bs) mod 4 = 0)%nat.
Proof.
  induction bs as [|a|a b|a b c r [IH1 IH2]] using BufferFacts.list_ind3.
  - split; reflexivity.
  - cbn [Buffer.toString_base64 all_chars String.length].
    destruct (enc_base64 a zero) as (H1 & H2 & _).
    rewrite H1, H2. split; reflexivity.
  - cbn [Buffer.toString_base64 all_chars String.length].
    destruct (enc_base64 a b) as (H1 & H2 & _).
    destruct (enc_base64 b zero) as (_ & _ & H3 & _).
    rewrite H1, H2, H3. split; reflexivity.
  - cbn [Buffer.toString_base64 all_chars String.length].
    destruct (enc_base64 a b) as (H1 & H2 & _).
    destruct (enc_base64 b c) as (_ & _ & H3 & _).
    destruct (enc_base64 c c) as (_ & _ & _ & H4).
    rewrite H1, H2, H3, H4, IH1. split; [reflexivity|].
    change (S (S (S (S (String.length (Buffer.toString_base64 r))))))
      with (4 + String.length (Buffer.toString_base64 r))%nat.
    rewrite <- Nat.Div0.add_mod_idemp_l. cbn. exact IH2.
Qed.

Lemma toString_utf8_fuel s :
  forall fuel, (String.length s <= fuel)%nat ->
  Decode.toString_utf8 fuel (Buffer.from s) = Some s.
Proof.
  induction s as [|c r IH]; intros fuel Hf.
  - destruct fuel; reflexivity.
  - destruct fuel as [|fuel]; [cbn in Hf; lia|].
    cbn [Buffer.from]. rewrite BufferFacts.utf8_unit_decode, IH by (cbn in Hf; lia).
    reflexivity.
Qed.

Lemma from_length s : (String.length s <= length (Buffer.from s))%nat.
Proof.
  induction s as [|c r IH]; cbn; [lia|]. rewrite length_app.
  unfold Buffer.utf8_unit. destruct (N_of_ascii c <? 128)%N; cbn; lia.
Qed.

End KeyTextFacts.

(** X22.  A key is a text over the base64 alphabet and the padding sign,
    its length is a multiple of four, and it can be decoded: decoding gives
    back the text made of the normalized seller, the price and the
    normalized title, joined by hyphens. *)
Theorem createUniqueKey_decodes :
  forall (seller : string) (price : Z) (title : string),
    let key := createUniqueKey seller price title in
    all_chars base64_char key = true /\
    (String.length key mod 4 = 0)%nat /\
    decodeUniqueKey key
    = Some (normalizeString seller ++ "-" ++ JS.number_to_string price ++ "-"
              ++ normalizeString title).
Proof.
  intros seller price title. cbn zeta. unfold createUniqueKey.
  destruct (KeyTextFacts.toString_base64_shape
              (Buffer.from (normalizedData seller price title))) as (Hc & Hl).
  refine (conj Hc (conj Hl _)).
  unfold decodeUniqueKey. rewrite BufferFacts.from_base64_toString.
  apply KeyTextFacts.toString_utf8_fuel, KeyTextFacts.from_length.
Qed.

(* ------------------------------------------------------------------ *)
(** ** TelegramNotificationService.sendBatchNotification *)

Section BatchMessages.

Variable Unit16 : Type.
Variable R : TelegramBot.Rendering Unit16.

Import TelegramBot.

Lemma loop_count head listings :
  forall message,
    (length (fst (batch_loop R head listings message)) <= length listings)%nat.
Proof.
  induction listings as [|l ls IH]; intros message;
    cbn [batch_loop length]; [cbn; lia|].
  destruct (4000 <? length (message ++ formatListingMessage R l true))%nat.
  - specialize (IH (head ++ formatListingMessage R l true)%list).
    destruct (batch_loop R head ls _) as [sent final].
    cbn [fst snd length] in *. lia.
  - specialize (IH (message ++ formatListingMessage R l true ++ (separator R))%list).
    lia.
Qed.

Lemma loop_prefix head listings :
  forall message,
    (exists rest, message = (head ++ rest)%list) ->
    Forall (fun m => exists rest, m = (head ++ rest)%list)
           (fst (batch_loop R head listings message)
              ++ [snd (batch_loop R head listings message)]).
Proof.
  induction listings as [|l ls IH]; intros message Hm; cbn [batch_loop].
  - cbn. repeat constructor. exact Hm.
  - destruct (4000 <? length (message ++ formatListingMessage R l true))%nat.
    + specialize (IH (head ++ formatListingMessage R l true)%list).
      destruct (batch_loop R head ls _) as [sent final]. cbn in *.
      constructor; [exact Hm|]. apply IH. eauto.
    + apply IH. destruct Hm as [rest ->].
      exists (rest ++ formatListingMessage R l true ++ (separator R))%list.
      now rewrite <- app_assoc.
Qed.

Lemma occurs_in_refl {A} (l : list A) : occurs_in l l.
Proof. exists [], []. cbn. now rewrite app_nil_r. Qed.

Lemma occurs_in_app {A} (x m pre post : list A) :
  occurs_in x m -> occurs_in x (pre ++ m ++ post).
Proof.
  intros (a & b & ->). exists (pre ++ a)%list, (b ++ post)%list.
  now rewrite <- !app_assoc.
Qed.

Lemma loop_occurs head listings :
  forall message,
    let sent := fst (batch_loop R head listings message) in
    let final := snd (batch_loop R head listings message) in
    (forall x, occurs_in x message ->
       exists m, In m (sent ++ [final]) /\ occurs_in x m) /\
    (forall l, In l listings ->
       exists m, In m (sent ++ [final]) /\ occurs_in (formatListingMessage R l true) m).
Proof.
  induction listings as [|l ls IH]; intros message; cbn zeta; cbn [batch_loop].
  - cbn. split; [|intros l []]. intros x Hx. exists message. auto.
  - cbn [batch_loop].
    destruct (4000 <? length (message ++ formatListingMessage R l true))%nat.
    + specialize (IH (head ++ formatListingMessage R l true)%list). cbn zeta in IH.
      destruct (batch_loop R head ls _) as [sent final]. cbn [fst snd] in *.
      destruct IH as [IH1 IH2]. split.
      * intros x Hx. exists message. split; [now left | exact Hx].
      * intros l' [<-|Hl'].
        -- destruct (IH1 (formatListingMessage R l true)) as (m & Hin & Hm).
           { exists head, []. now rewrite app_nil_r. }
           exists m. split; [now right | exact Hm].
        -- destruct (IH2 l' Hl') as (m & Hin & Hm).
           exists m. split; [now right | exact Hm].
    + specialize (IH (message ++ formatListingMessage R l true ++ (separator R))%list).
      cbn zeta in IH. destruct IH as [IH1 IH2]. split.
      * intros x Hx. apply IH1.
        apply (occurs_in_app _ _ [] (formatListingMessage R l true ++ (separator R))%list), Hx.
      * intros l' [<-|Hl']; [|apply IH2, Hl'].
        apply IH1. apply (occurs_in_app _ _ message (separator R)), occurs_in_refl.
Qed.

Lemma loop_size head listings bound :
  (4000 <= bound)%nat ->
  (forall l, In l listings ->
     (length head + length (formatListingMessage R l true) <= 4000)%nat) ->
  forall message,
    (length message <= bound + length (separator R))%nat ->
    Forall (fun m => (length m <= bound + length (separator R))%nat)
           (fst (batch_loop R head listings message)
              ++ [snd (batch_loop R head listings message)]).
Proof.
  intros Hb. induction listings as [|l ls IH]; intros Hall message Hm.
  - cbn. constructor; [exact Hm | constructor].
  - cbn [batch_loop].
    assert (Hl : (length head + length (formatListingMessage R l true) <= 4000)%nat)
      by (apply Hall; now left).
    assert (Hall' : forall l', In l' ls ->
              (length head + length (formatListingMessage R l' true) <= 4000)%nat)
      by (intros l' Hl'; apply Hall; now right).
    destruct (Nat.ltb_spec 4000 (length (message ++ formatListingMessage R l true))) as [Hgt|Hle].
    + specialize (IH Hall' (head ++ formatListingMessage R l true)%list).
      destruct (batch_loop R head ls _) as [sent final]. cbn [fst snd] in *.
      constructor; [exact Hm|]. apply IH. rewrite length_app. lia.
    + apply (IH Hall'). rewrite !length_app in *. lia.
Qed.

(** X23.  [sendBatchNotification] sends nothing for an empty batch and, for
    a single listing, one message in the full format.  For two or more
    listings it sends at least one message and at most one more than the
    number of listings rendered, which is never above ten; every message
    begins with the header of the batch; and what is sent depends on the
    first ten listings and on the size of the batch only. *)
Theorem sendBatchNotification_shape :
  forall (listings listings' : list VinylListing.t),
    (listings = [] -> sendBatchNotification_messages R listings = []) /\
    (forall l, listings = [l] ->
       sendBatchNotification_messages R listings = [formatListingMessage R l false]) /\
    (2 <= length listings ->
     1 <= length (sendBatchNotification_messages R listings)
       <= Nat.min (length listings) 10 + 1 /\
     Forall (fun m => exists rest, m = header R (length listings) ++ rest)
            (sendBatchNotification_messages R listings))%nat%list /\
    (length listings' = length listings ->
     firstn 10 listings' = firstn 10 listings ->
     sendBatchNotification_messages R listings'
     = sendBatchNotification_messages R listings).
Proof.
  intros listings listings'. refine (conj _ (conj _ (conj _ _))).
  - intros ->. reflexivity.
  - intros l ->. reflexivity.
  - intros Hlen. destruct listings as [|a [|b rest]]; cbn in Hlen; try lia.
    unfold sendBatchNotification_messages.
    set (ls := a :: b :: rest) in *. set (head := header R (length ls)).
    pose proof (loop_count head (firstn 10 ls) head) as Hc.
    pose proof (loop_prefix head (firstn 10 ls) head
                  (ex_intro _ [] (eq_sym (app_nil_r head)))) as Hp.
    destruct (batch_loop R head (firstn 10 ls) head) as [sent final]. cbn [fst snd] in *.
    rewrite length_firstn in Hc. split.
    + rewrite length_app, length_cons, length_nil. lia.
    + apply Forall_app in Hp. destruct Hp as [Hs Hf].
      apply Forall_app. split; [exact Hs|].
      inversion Hf as [|? ? [r Hr] _]. repeat constructor.
      destruct (10 <? length ls)%nat; [|eauto].
      exists (r ++ more R (length ls - 10))%list. rewrite Hr. now rewrite <- app_assoc.
  - intros Hlen Hfirst.
    destruct listings as [|a [|b rest]], listings' as [|a' [|b' rest']];
      try discriminate; try reflexivity.
    + cbn in Hfirst. now injection Hfirst as ->.
    + unfold sendBatchNotification_messages.
      now rewrite Hlen, Hfirst.
Qed.

(** X24.  In a batch of two or more, the rendering of each of the first ten
    listings is part of one of the messages sent; no such listing is lost
    when a message is cut. *)
Theorem sendBatchNotification_complete :
  forall (listings : list VinylListing.t) (l : VinylListing.t),
    (2 <= length listings)%nat ->
    In l (firstn 10 listings) ->
    exists m, In m (sendBatchNotification_messages R listings) /\
              occurs_in (formatListingMessage R l true) m.
Proof.
  intros listings l Hlen Hin.
  destruct listings as [|a [|b rest]]; cbn in Hlen; try lia.
  unfold sendBatchNotification_messages.
  set (ls := a :: b :: rest) in *. set (head := header R (length ls)).
  destruct (loop_occurs head (firstn 10 ls) head) as [_ Hocc].
  cbn zeta in Hocc. destruct (Hocc l Hin) as (m & Hm & Ho). clear Hocc.
  destruct (batch_loop R head (firstn 10 ls) head) as [sent final]. cbn [fst snd] in *.
  apply in_app_or in Hm. destruct Hm as [Hm|[<-|[]]].
  - exists m. split; [apply in_or_app; now left | exact Ho].
  - eexists. split; [apply in_or_app; right; now left|].
    destruct (10 <? length ls)%nat; [|exact Ho].
    apply (occurs_in_app _ _ [] (more R (length ls - 10))), Ho.
Qed.

(** X25.  If the header followed by the rendering of any one of the first
    ten listings fits in 4000 code units, then no message of a batch of two
    or more is longer than 4000 code units plus one separator plus the
    trailer that counts the listings left out. *)
Theorem sendBatchNotification_size :
  forall (listings : list VinylListing.t),
    (2 <= length listings)%nat ->
    (forall l, In l (firstn 10 listings) ->
       (length (header R (length listings)) + length (formatListingMessage R l true)
        <= 4000)%nat) ->
    Forall (fun m => (length m <= 4000 + length (separator R)
                                  + length (more R (length listings - 10)))%nat)
           (sendBatchNotification_messages R listings).
Proof.
  intros listings Hlen Hall.
  destruct listings as [|a [|b rest]]; cbn in Hlen; try lia.
  unfold sendBatchNotification_messages.
  pose proof (Hall a (or_introl eq_refl)) as Ha.
  set (ls := a :: b :: rest) in *. set (head := header R (length ls)) in *.
  assert (Hh : (length head <= 4000 + length (separator R))%nat) by lia.
  pose proof (loop_size head (firstn 10 ls) 4000 (le_n _) Hall head Hh) as Hs.
  destruct (batch_loop R head (firstn 10 ls) head) as [sent final]. cbn [fst snd] in *.
  apply Forall_app in Hs. destruct Hs as [Hs Hf]. apply Forall_app. split.
  - eapply Forall_impl; [|exact Hs]. cbn. intros m Hm. lia.
  - inversion Hf as [|? ? Hfin _]; subst. constructor; [|constructor].
    destruct (10 <? length ls)%nat; rewrite ?length_app; lia.
Qed.

End BatchMessages.

Lemma sendBatchNotification_shape_witness :
  (1 <= length (TelegramBot.sendBatchNotification_messages Scenario2.rendering
                  [Scenario.stored_100; Scenario.listing]) <= 3)%nat.
Proof.
  destruct (sendBatchNotification_shape ascii Scenario2.rendering
              [Scenario.stored_100; Scenario.listing] []) as (_ & _ & H & _).
  destruct H as [H _].
  - simpl. lia.
  - exact H.
Defined.

Lemma sendBatchNotification_complete_witness :
  exists m,
    In m (TelegramBot.sendBatchNotification_messages Scenario2.rendering
            [Scenario.stored_100; Scenario.listing]) /\
    occurs_in (list_ascii_of_string "The Wall") m.
Proof.
  apply (sendBatchNotification_complete ascii Scenario2.rendering
           [Scenario.stored_100; Scenario.listing] Scenario.listing).
  - simpl. lia.
  - simpl. right. left. reflexivity.
Defined.

Lemma sendBatchNotification_size_witness :
  Forall (fun m => (length m <= 4000 + 1 + length (Scenario2.trailer 0))%nat)
    (TelegramBot.sendBatchNotification_messages Scenario2.rendering
       [Scenario.stored_100; Scenario.listing]).
Proof.
  apply (sendBatchNotification_size ascii Scenario2.rendering
           [Scenario.stored_100; Scenario.listing]).
  - simpl. lia.
  - intros l H. simpl in H. destruct H as [<-|[<-|[]]]; vm_compute; lia.
Defined.
(* ------------------------------------------------------------------ *)
(** ** setup.js and start-up *)

Module SetupFacts.

Lemma split_length sep s :
  length (Setup.split sep s) = S (occurrences sep s).
Proof.
  induction s as [|c r IH]; [reflexivity|]. cbn.
  destruct (Ascii.eqb c sep); cbn; [now rewrite IH|].
  destruct (Setup.split sep r) as [|w ws]; cbn in *; lia.
Qed.

Lemma split_no_sep sep s :
  Forall (fun w => occurrences sep w = 0%nat) (Setup.split sep s).
Proof.
  induction s as [|c r IH]; [repeat constructor|]. cbn.
  destruct (Ascii.eqb c sep) eqn:Hc; [constructor; [reflexivity | exact IH]|].
  destruct (Setup.split sep r) as [|w ws].
  - repeat constructor. cbn. now rewrite Hc.
  - inversion IH as [|? ? Hw Hws]; subst. constructor; [|exact Hws].
    cbn. now rewrite Hc.
Qed.

Lemma split_trailing sep x :
  exists first rest,
    Setup.split sep (x ++ String sep EmptyString)
    = ((first :: rest) ++ [EmptyString])%list.
Proof.
  induction x as [|c r (first & rest & IH)]; cbn.
  - rewrite Ascii.eqb_refl. exists EmptyString, []. reflexivity.
  - rewrite IH. destruct (Ascii.eqb c sep).
    + exists EmptyString, (first :: rest). reflexivity.
    + exists (String c first), rest. reflexivity.
Qed.

Lemma occurrences_trimStart sep s :
  (occurrences sep (JS.trimStart s) <= occurrences sep s)%nat.
Proof.
  induction s as [|c r IH]; cbn; [lia|].
  destruct (JS.is_space c); cbn; lia.
Qed.

Lemma occurrences_trimEnd sep s :
  (occurrences sep (JS.trimEnd s) <= occurrences sep s)%nat.
Proof.
  induction s as [|c r IH]; cbn; [lia|].
  destruct (JS.is_space c && JS.is_empty (JS.trimEnd r)); cbn; lia.
Qed.

Lemma trim_trimmed s : trimmed (JS.trim s).
Proof.
  unfold JS.trim. split.
  - apply JSFacts.trimEnd_starts_ok, JSFacts.trimStart_starts_ok.
  - apply JSFacts.trimEnd_ends_ok.
Qed.

Lemma seeded_In E type values v :
  In v values -> forall n,
  exists t, In (PreferenceRow.mk type (JS.trim (JS.toLowerCase v)) t)
               (seeded E type n values).
Proof.
  induction values as [|w ws IH]; intros Hin n; [contradiction|].
  destruct Hin as [->|Hin]; cbn.
  - eexists. left. reflexivity.
  - destruct (IH Hin (S n)) as (t & Ht). exists t. now right.
Qed.

Lemma artist_terms_seeded E n a g b rows ph :
  map PreferenceRow.value
      (filter (fun row => PreferenceType_eqb (PreferenceRow.type row) Artist)
              (seeded E Artist n a ++ seeded E Genre (n + length a) g
                 ++ seeded E Album (n + length a + length g) b))
  = map (fun v => JS.trim (JS.toLowerCase v)) a
  /\ artist_terms (mkState (mkDatabase rows ph
                     (seeded E Artist n a ++ seeded E Genre (n + length a) g
                        ++ seeded E Album (n + length a + length g) b))
                     [] [] 0 [] [])
     = map (fun v => JS.trim (JS.toLowerCase v)) a.
Proof.
  assert (Hs : forall ty m vs,
    map PreferenceRow.value
        (filter (fun row => PreferenceType_eqb (PreferenceRow.type row) Artist)
                (seeded E ty m vs))
    = if PreferenceType_eqb ty Artist
      then map (fun v => JS.trim (JS.toLowerCase v)) vs else []).
  { intros ty m vs. revert m.
    destruct ty; induction vs as [|v vs IH]; intros m; cbn; rewrite ?IH; reflexivity. }
  assert (H : map PreferenceRow.value
      (filter (fun row => PreferenceType_eqb (PreferenceRow.type row) Artist)
              (seeded E Artist n a ++ seeded E Genre (n + length a) g
                 ++ seeded E Album (n + length a + length g) b))
    = map (fun v => JS.trim (JS.toLowerCase v)) a).
  { rewrite !filter_app, !map_app, !Hs. cbn. now rewrite app_nil_r. }
  split; [exact H|]. unfold artist_terms. cbn. exact H.
Qed.

Lemma items_trailing answer defaults x :
  JS.trim answer = x ++ "," ->
  exists items, Setup.items answer defaults = (items ++ [EmptyString])%list.
Proof.
  intros Hx. unfold Setup.items. cbn zeta. rewrite Hx.
  destruct (split_trailing "," x) as (first & rest & Hs).
  destruct (x ++ ",") as [|c r] eqn:Hxe; [destruct x; discriminate|].
  cbn [JS.is_empty]. rewrite Hs, map_app. cbn [map].
  eexists. reflexivity.
Qed.

End SetupFacts.

(** X26.  [setup] reads a list of preferences from one comma-separated
    answer.  A blank answer gives the defaults.  Any other answer gives one
    item more than it has commas; no item holds a comma and each item is
    trimmed.  An answer that ends with a comma therefore gives an empty
    last item. *)
Theorem setup_items :
  forall (answer : string) (defaults : list string),
    (JS.trim answer = EmptyString -> Setup.items answer defaults = defaults) /\
    (JS.trim answer <> EmptyString ->
     length (Setup.items answer defaults) = S (occurrences "," (JS.trim answer)) /\
     Forall trimmed (Setup.items answer defaults) /\
     Forall (fun item => occurrences "," item = 0%nat) (Setup.items answer defaults)) /\
    (forall x, JS.trim answer = x ++ "," ->
       exists items, Setup.items answer defaults = (items ++ [EmptyString])%list).
Proof.
  intros answer defaults. unfold Setup.items. cbn zeta.
  refine (conj _ (conj _ _)).
  - intros ->. reflexivity.
  - intros Hne. destruct (JS.trim answer) as [|c r] eqn:Ht; [contradiction|].
    cbn [JS.is_empty]. refine (conj _ (conj _ _)).
    + now rewrite length_map, SetupFacts.split_length.
    + apply Forall_map, Forall_forall. intros w _. apply SetupFacts.trim_trimmed.
    + apply Forall_map. eapply Forall_impl; [|apply SetupFacts.split_no_sep].
      cbn. intros w Hw. unfold JS.trim.
      pose proof (SetupFacts.occurrences_trimEnd "," (JS.trimStart w)).
      pose proof (SetupFacts.occurrences_trimStart "," w). lia.
  - intros x Hx. fold (Setup.items answer defaults).
    apply (SetupFacts.items_trailing answer defaults x Hx).
Qed.

Lemma setup_items_witness :
  exists items, Setup.items " Pink Floyd , The DOORS,  " ["Rock"] = (items ++ [EmptyString])%list.
Proof.
  apply (proj2 (proj2 (setup_items " Pink Floyd , The DOORS,  " ["Rock"]))
           "Pink Floyd , The DOORS").
  reflexivity.
Defined.

(** X27.  A comma at the end of the artists answer of [setup] ends up as an
    artist preference with an empty value, and that preference matches
    everything: once these preferences are seeded into an empty table, every
    listing is relevant. *)
Theorem trailing_comma_matches_all :
  forall (E : Env) (artistsAnswer genresAnswer albumsAnswer x : string) (s : State),
    JS.trim artistsAnswer = x ++ "," ->
    user_preferences (db s) = [] ->
    let config := Setup.preferences artistsAnswer genresAnswer albumsAnswer in
    let s' := exec (seedUserPreferences E config) s in
    In EmptyString (UserPreferences.artists config) /\
    In EmptyString (artist_terms s') /\
    forall listing, isRelevantListing listing (preferences_of s') = true.
Proof.
  intros E a g b x s Hx Hp. cbn zeta.
  assert (Hin : In EmptyString (Setup.items a ["Pink Floyd"; "The Beatles"])).
  { destruct (SetupFacts.items_trailing a ["Pink Floyd"; "The Beatles"] x Hx) as (items & ->).
    apply in_or_app. right. now left. }
  split; [exact Hin|].
  unfold exec. rewrite (SeedFacts.seedUserPreferences_empty E _ s Hp). cbn.
  destruct (SetupFacts.seeded_In E Artist _ EmptyString Hin (date_reads s)) as (t & Ht).
  split.
  - unfold artist_terms. cbn. apply in_map_iff.
    exists (PreferenceRow.mk Artist EmptyString t). split; [reflexivity|].
    apply filter_In. split; [|reflexivity]. apply in_or_app. now left.
  - intros listing. apply isRelevantListing_spec. left.
    exists (UserPreferenceRecord.mk Artist EmptyString t).
    refine (conj _ (conj eq_refl _)).
    + unfold preferences_of. cbn. apply in_map_iff.
      exists (PreferenceRow.mk Artist EmptyString t). split; [reflexivity|].
      apply in_or_app. now left.
    + apply IncludesFacts.includes_spec, IncludesFacts.includes_empty.
Qed.

Lemma trailing_comma_matches_all_witness :
  isRelevantListing Scenario.listing
    (preferences_of
       (exec (seedUserPreferences (discogs_env Scenario.clk Scenario.net_up)
                (Setup.preferences "Pink Floyd," "Rock" "Abbey Road"))
             Scenario2.empty)) = true.
Proof.
  exact (proj2 (proj2 (trailing_comma_matches_all
                         (discogs_env Scenario.clk Scenario.net_up)
                         "Pink Floyd," "Rock" "Abbey Road" "Pink Floyd" Scenario2.empty
                         eq_refl eq_refl))
               Scenario.listing).
Defined.

(** X28.  When the Telegram connection cannot be verified, [main] exits
    with status 1 before doing anything: no preference is seeded, no search
    is made, no table is written and no notification is sent.  With Telegram
    reachable, [main] seeds the preferences if the table is empty and then
    runs exactly one pass, with or without [--once]: the state reached is the
    same, and only the way the process goes on differs.  On an empty table
    that first pass searches the configured artists, lowered and trimmed, in
    the order of the configuration. *)
Theorem main_first_run :
  forall (E : Env) (once : bool) (config : UserPreferences.t)
         (delayBetweenRequests : Z) (s : State),
    main E once false config delayBetweenRequests s = (Some Exit1, s) /\
    fst (main E once true config delayBetweenRequests s)
      = Some (if once then ShutDown else Scheduled) /\
    exec (main E once true config delayBetweenRequests) s
      = exec (scrapeVinyl E delayBetweenRequests) (exec (seedUserPreferences E config) s) /\
    (user_preferences (db s) = [] ->
     searched (exec (main E once true config delayBetweenRequests) s)
     = (searched s ++ map (fun v => JS.trim (JS.toLowerCase v))
                          (UserPreferences.artists config))%list).
Proof.
  intros E once config d s.
  assert (Hseed : exists s1, seedUserPreferences E config s = (Some tt, s1)).
  { destruct (user_preferences (db s)) eqn:Hp.
    - rewrite (SeedFacts.seedUserPreferences_empty E config s Hp). eauto.
    - rewrite SeedFacts.seedUserPreferences_nonempty by (rewrite Hp; discriminate). eauto. }
  destruct Hseed as (s1 & Hseed).
  destruct (scrapeVinyl_run E d s1) as (s2 & tr & errs & Hrun & _ & _ & _ & Hq & _).
  assert (Hmain : main E once true config d s
                  = (Some (if once then ShutDown else Scheduled), s2)).
  { unfold main, initialize, runOnce, try_catch, bind, ret.
    cbv beta iota zeta. rewrite Hseed. destruct once; now rewrite Hrun. }
  refine (conj _ (conj _ (conj _ _))).
  - destruct once; reflexivity.
  - now rewrite Hmain.
  - unfold exec. rewrite Hmain, Hseed. cbn [snd]. now rewrite Hrun.
  - intros Hp. unfold exec. rewrite Hmain. cbn. rewrite Hq.
    rewrite (SeedFacts.seedUserPreferences_empty E config s Hp) in Hseed.
    injection Hseed as <-. cbn. f_equal.
    apply (proj1 (SetupFacts.artist_terms_seeded E _ _ _ _ [] [])).
Qed.

Lemma main_first_run_witness :
  searched (exec (main (discogs_env Scenario.clk Scenario.net_up) true true
                       Scenario2.config 1000) Scenario2.empty)
  = ["pink floyd"; "the  doors"].
Proof.
  apply (main_first_run (discogs_env Scenario.clk Scenario.net_up) true
           Scenario2.config 1000 Scenario2.empty).
  reflexivity.
Defined.
